(** * The nng HTTP server engine (src/supplemental/http/server.c)

    A shallow embedding of the request-URI canonifier, the handler registry,
    the per-connection session callbacks and the start/stop life cycle of
    [nni_http_server], followed by the properties established about them.

    Conventions.
    - A C string is represented by the list of the bytes that precede its
      terminator: the end of the list is the terminating NUL.  Where the code
      works inside a writable buffer (the canonifier), the buffer is modelled
      as the list of all its bytes, terminators included, and a pointer is an
      offset into it.  A load or store outside the buffer has no defined
      behaviour and is modelled by [None].
    - [strcmp] and friends return an [int] of which only the sign is
      specified; they are modelled with result type [comparison].
    - What the environment decides (the result of an I/O slot, whether an
      allocation succeeds, what the transport answers) is an explicit
      argument of the function that depends on it.
    - A callback returns the state it leaves behind together with the
      list of the requests it made to its collaborators, in program order.
    - The locking of [s->mtx] is not modelled: each callback is one atomic
      transition. *)

From Stdlib Require Import Ascii String List Bool Arith NArith ZArith Lia.
Import ListNotations.

Set Implicit Arguments.

(** ** Option monad used for partial operations *)

Definition obind {A B} (m : option A) (k : A -> option B) : option B :=
  match m with
  | Some a => k a
  | None => None
  end.

Notation "x <- m ;; k" := (obind m (fun x => k))
  (at level 61, m at next level, right associativity).
Notation "' p <- m ;; k" := (obind m (fun x => let p := x in k))
  (at level 61, p pattern, m at next level, right associativity).

(** ** C strings, <string.h> and <ctype.h> *)

Module CStr.

Definition cstr := list ascii.

Definition NUL : ascii := Ascii.zero.

(** A string literal. *)
Definition lit (s : string) : cstr := list_ascii_of_string s.

Definition strlen (s : cstr) : nat := length s.

(** [s[i]] for [i <= strlen s]; [None] stands for the terminator. *)
Definition idx (s : cstr) (i : nat) : option ascii := nth_error s i.

Definition uchar (c : ascii) : N := N_of_ascii c.

(** Arithmetic in type [char] keeps the low eight bits. *)
Definition char_of_N (n : N) : ascii := ascii_of_N (n mod 256).

Definition in_range (lo hi c : ascii) : bool :=
  (uchar lo <=? uchar c)%N && (uchar c <=? uchar hi)%N.

Definition isxdigit (c : ascii) : bool :=
  in_range "0" "9" c || in_range "a" "f" c || in_range "A" "F" c.

Definition tolower (c : ascii) : ascii :=
  if in_range "A" "Z" c then char_of_N (uchar c + 32) else c.

Fixpoint strcmp (a b : cstr) : comparison :=
  match a, b with
  | [], [] => Eq
  | [], _ :: _ => Lt
  | _ :: _, [] => Gt
  | x :: a', y :: b' =>
      match (uchar x ?= uchar y)%N with
      | Eq => strcmp a' b'
      | c => c
      end
  end.

Fixpoint strncmp (a b : cstr) (n : nat) {struct n} : comparison :=
  match n with
  | O => Eq
  | S n' =>
      match a, b with
      | [], [] => Eq
      | [], _ :: _ => Lt
      | _ :: _, [] => Gt
      | x :: a', y :: b' =>
          match (uchar x ?= uchar y)%N with
          | Eq => strncmp a' b' n'
          | c => c
          end
      end
  end.

(** [strchr s c]: offset of the first [c] in [s], [None] for a null
    pointer.  Searching for NUL finds the terminator. *)
Fixpoint strchr (s : cstr) (c : ascii) : option nat :=
  match s with
  | [] => if Ascii.eqb c NUL then Some 0 else None
  | x :: s' =>
      if Ascii.eqb x c then Some 0
      else option_map S (strchr s' c)
  end.

Fixpoint starts_with (needle hay : cstr) : bool :=
  match needle, hay with
  | [], _ => true
  | _ :: _, [] => false
  | x :: n', y :: h' => Ascii.eqb x y && starts_with n' h'
  end.

(** [strstr hay needle]: the suffix of [hay] at the first occurrence of
    [needle], [None] for a null pointer. *)
Fixpoint strstr (hay needle : cstr) : option cstr :=
  if starts_with needle hay then Some hay
  else match hay with
       | [] => None
       | _ :: h' => strstr h' needle
       end.

(** Modelled from the spec: [nni_strcasecmp], [nni_strncasecmp] and
    [nni_strcasestr] live in the core library, outside this file; the spec
    only calls them case-insensitive comparison and case-insensitive
    substring search.  They are the three functions above applied to the
    lower-cased bytes. *)
Definition nni_strcasecmp (a b : cstr) : comparison :=
  strcmp (map tolower a) (map tolower b).

(** Modelled from the spec: [nni_strncasecmp] (core library), the
    case-insensitive [strncmp]. *)
Definition nni_strncasecmp (a b : cstr) (n : nat) : comparison :=
  strncmp (map tolower a) (map tolower b) n.

(** Modelled from the spec: [nni_strcasestr] (core library), the
    case-insensitive [strstr]; the result points into [hay]. *)
Definition nni_strcasestr (hay needle : cstr) : option cstr :=
  match strstr (map tolower hay) (map tolower needle) with
  | Some low => Some (skipn (length hay - length low) hay)
  | None => None
  end.

Definition is_eq (c : comparison) : bool :=
  match c with Eq => true | _ => false end.

End CStr.

Import CStr.

(** ** The request-URI canonifier *)

Module Canon.

Definition buffer := list ascii.

Definition peek (b : buffer) (i : nat) : option ascii := nth_error b i.

Definition poke (b : buffer) (i : nat) (c : ascii) : option buffer :=
  if i <? length b then Some (firstn i b ++ c :: skipn (S i) b) else None.

(** The string that starts at byte [l] and runs up to the first NUL;
    [None] when the bytes run out before a NUL is met. *)
Fixpoint until_nul (l : list ascii) : option cstr :=
  match l with
  | [] => None
  | x :: l' =>
      if Ascii.eqb x NUL then Some []
      else option_map (cons x) (until_nul l')
  end.

Definition c_str (b : buffer) (off : nat) : option cstr :=
  until_nul (skipn off b).

Definition http_hexval (c : ascii) : ascii :=
  if in_range "0" "9" c then char_of_N (uchar c - uchar "0")
  else if in_range "a" "f" c then char_of_N ((uchar c - uchar "a") + 10)
  else if in_range "A" "F" c then char_of_N ((uchar c - uchar "A") + 10)
  else char_of_N 0.

(** The unescaping loop of [http_uri_canonify].  [tmp] and [dst] are the
    two cursors; each turn of the loop advances [tmp], so [length b] turns
    are enough for [tmp] to leave the buffer. *)
Fixpoint unescape (fuel : nat) (b : buffer) (tmp dst : nat) : option buffer :=
  match fuel with
  | O => None
  | S fuel' =>
      c <- peek b tmp ;;
      if Ascii.eqb c NUL then
        poke b dst NUL
      else if negb (Ascii.eqb c "%") then
        b1 <- poke b dst c ;;
        unescape fuel' b1 (tmp + 1) (dst + 1)
      else
        x1 <- peek b (tmp + 1) ;;
        x2 <- (if isxdigit x1 then peek b (tmp + 2) else Some NUL) ;;
        '(c, b, dst, tmp) <-
          (if isxdigit x1 && isxdigit x2 then
             let c := http_hexval x1 in
             let c := char_of_N (uchar c * 16) in
             let c := char_of_N (uchar c + uchar (http_hexval x2)) in
             b1 <- poke b dst c ;;
             Some (c, b1, dst + 1, tmp + 3)
           else Some (c, b, dst, tmp)) ;;
        (* garbage in, garbage out *)
        b2 <- poke b dst c ;;
        unescape fuel' b2 (tmp + 1) (dst + 1)
  end.

(** The value returned by [http_uri_canonify]: the string literal ["/"],
    or a pointer into the (updated) argument buffer. *)
Inductive cptr :=
| Static_slash
| Into (b : buffer) (off : nat).

Definition is_absolute (s : cstr) : bool :=
  is_eq (nni_strncasecmp s (lit "http://") (strlen (lit "http://"))) ||
  is_eq (nni_strncasecmp s (lit "https://") (strlen (lit "https://"))).

Definition http_uri_canonify (b : buffer) : option cptr :=
  s <- c_str b 0 ;;
  (* Chomp off query string. *)
  b <- match strchr s "?" with
       | Some q => poke b q NUL
       | None => Some b
       end ;;
  s <- c_str b 0 ;;
  (* If the URI was absolute, make it relative. *)
  path <- (if is_absolute s then
             colon <- strchr s ":" ;;
             let path := colon + 3 in
             host <- c_str b path ;;
             Some (option_map (Nat.add path) (strchr host "/"))
           else Some (Some 0)) ;;
  match path with
  | None => Some Static_slash
  | Some path =>
      b' <- unescape (length b) b path path ;;
      Some (Into b' path)
  end.

Definition deref (p : cptr) : option cstr :=
  match p with
  | Static_slash => Some (lit "/")
  | Into b off => c_str b off
  end.

(** The way [http_sconn_rxdone] uses the canonifier: the request URI is
    copied, terminator included, into a fresh buffer of [strlen val + 1]
    bytes, and the canonifier runs on the copy. *)
Definition canonify_uri (val : cstr) : option cstr :=
  p <- http_uri_canonify (val ++ [NUL]) ;;
  deref p.

End Canon.

Import Canon.

(** ** Return codes and HTTP status codes *)

(** The [NNG_E...] codes returned by the functions of this file; the
    transport's own codes are carried by [NNG_ETRANSPORT]. *)
Inductive nng_errno :=
| NNG_ENOMEM
| NNG_EINVAL
| NNG_EBUSY
| NNG_ECLOSED
| NNG_EADDRINUSE
| NNG_EADDRINVAL
| NNG_ENOTSUP
| NNG_ETRANSPORT (code : Z).

(** An [int] return value: [None] is 0 (success). *)
Definition nng_rv := option nng_errno.

Definition rv_ok (rv : nng_rv) : bool :=
  match rv with None => true | Some _ => false end.

(** Modelled from the spec: the [NNI_HTTP_STATUS_*] constants are declared
    in http.h, which is not part of src/; spec section 7 gives their values:
    bad request (400), not found (404), method not allowed (405), HTTP
    version not supported (505). *)
Definition NNI_HTTP_STATUS_BAD_REQUEST : N := 400.
Definition NNI_HTTP_STATUS_NOT_FOUND : N := 404.
Definition NNI_HTTP_STATUS_METHOD_NOT_ALLOWED : N := 405.
Definition NNI_HTTP_STATUS_HTTP_VERSION_NOT_SUPP : N := 505.

(** ** Handler records and the registry *)

Module Registry.

(** A function pointer or an opaque [void *], known by its address. *)
Definition addr := nat.

(** The caller's descriptor [nni_http_handler]; a pointer field that may
    be null is an [option]. *)
Record nni_http_handler := {
  hh_method : option cstr;
  hh_path : option cstr;
  hh_host : option cstr;
  hh_is_dir : bool;
  hh_is_upgrader : bool;
  hh_cb : option addr
}.

(** The registry's own record [http_handler]. *)
Record http_handler := {
  h_arg : addr;
  h_path : cstr;
  h_method : cstr;
  h_host : option cstr;
  h_is_upgrader : bool;
  h_is_dir : bool;
  h_refcnt : Z;
  h_cb : addr;
  h_free : option addr
}.

Definition with_refcnt (h : http_handler) (n : Z) : http_handler :=
  {| h_arg := h_arg h; h_path := h_path h; h_method := h_method h;
     h_host := h_host h; h_is_upgrader := h_is_upgrader h;
     h_is_dir := h_is_dir h; h_refcnt := n; h_cb := h_cb h;
     h_free := h_free h |}.

(** The loop that chops trailing slashes off [h->h_path]: [l1] counts
    down, and each turn stores a terminator at the new [l1]. *)
Fixpoint chop (path : cstr) (l1 : nat) : cstr :=
  match l1 with
  | O => path
  | S l1' =>
      match idx path l1' with
      | Some c =>
          if Ascii.eqb c "/" then chop (firstn l1' path) l1' else path
      | None => path
      end
  end.

(** The test that guards the collision loop's [return (NNG_EADDRINUSE)]:
    [true] when [h2] collides with the new record [h], whose path has
    length [l1]. *)
Definition collides (h : http_handler) (l1 : nat) (h2 : http_handler) : bool :=
  let hosts_differ :=
    match h_host h2, h_host h with
    | Some host2, Some host => negb (is_eq (nni_strcasecmp host2 host))
    | _, _ => false
    end in
  if hosts_differ then
    (* Hosts don't match, so we are safe. *)
    false
  else if negb (is_eq (strcmp (h_method h2) (h_method h))) then
    (* Different methods, so again we are fine. *)
    false
  else
    let l2 := strlen (h_path h2) in
    let l2 := if l1 <? l2 then l1 else l2 in
    is_eq (strncmp (h_path h2) (h_path h) l2).

(** [http_server_add_handler] on the registry list [handlers].  [mem]
    tells whether the allocations of the call ([NNI_ALLOC_STRUCT] and the
    [nni_strdup]s) succeed.  On success the result is the new list and the
    record handed back through [hp]. *)
Definition http_server_add_handler (mem : bool) (handlers : list http_handler)
    (hh : nni_http_handler) (arg : addr) (freeit : option addr)
  : nng_errno + (list http_handler * http_handler) :=
  match hh_method hh, hh_path hh, hh_cb hh with
  | Some method, Some path, Some cb =>
      if is_eq (strcmp method (lit "HEAD")) then inl NNG_EINVAL
      else if negb mem then inl NNG_ENOMEM
      else
        let l1 := strlen path in
        (* Chop off trailing "/" *)
        let path := chop path l1 in
        let l1 := strlen path in
        let h := {| h_arg := arg; h_path := path; h_method := method;
                    h_host := hh_host hh;
                    h_is_upgrader := hh_is_upgrader hh;
                    h_is_dir := hh_is_dir hh; h_refcnt := 0; h_cb := cb;
                    h_free := freeit |} in
        if existsb (collides h l1) handlers then
          (* Path collision. *)
          inl NNG_EADDRINUSE
        else
          let h := with_refcnt h 1 in
          inr (handlers ++ [h], h)
  | _, _, _ => inl NNG_EINVAL
  end.

Definition nni_http_server_add_handler (mem : bool)
    (handlers : list http_handler) (hh : nni_http_handler) (arg : addr) :=
  http_server_add_handler mem handlers hh arg None.

End Registry.

Import Registry.

(** ** The message codec *)

(** Modelled from the spec: the request and response objects and their
    accessors ([nni_http_req_*], [nni_http_res_*], http_msg.c) are not part
    of src/; spec section 6 lists them as an external collaborator.  They
    form an interface, about which nothing is assumed.  An operation that
    returns an error code in C returns [None] on failure. *)
Class HttpMsg := {
  nni_http_req : Type;
  nni_http_res : Type;
  nni_http_req_get_version : nni_http_req -> option cstr;
  nni_http_req_get_method : nni_http_req -> cstr;
  nni_http_req_get_uri : nni_http_req -> cstr;
  nni_http_req_get_header : nni_http_req -> cstr -> option cstr;
  nni_http_req_reset : nni_http_req -> nni_http_req;
  nni_http_res_init_error : N -> option nni_http_res;
  nni_http_res_get_header : nni_http_res -> cstr -> option cstr;
  nni_http_res_set_header : nni_http_res -> cstr -> cstr -> option nni_http_res;
  nni_http_res_get_data : nni_http_res -> list ascii
}.

(** ** Server sessions *)

Module Session.
Section WithCodec.
Context {codec : HttpMsg}.

(** The four asynchronous I/O slots of a session. *)
Inductive slot := Rxaio | Txaio | Txdataio | Cbaio.

(** What a callback asks of its collaborators, in program order. *)
Inductive action :=
| Aio_cancel (a : slot) (e : nng_errno)
| Http_close
| Reap
| Req_reset
| Res_fini (r : nni_http_res)
| Read_req
| Write_res (r : nni_http_res)
| Write_full (data : list ascii)
| Run_handler (cb : addr) (arg : addr)
| Handler_fini (h : http_handler).

(** [http_sconn]; the four aio pointers and the list node are left out,
    [http] records whether the transport pointer is non-null. *)
Record http_sconn := {
  http : bool;
  req : option nni_http_req;
  res : option nni_http_res;
  close : bool;
  closed : bool;
  finished : bool
}.

Definition set_res (sc : http_sconn) (r : option nni_http_res) :=
  {| http := http sc; req := req sc; res := r; close := close sc;
     closed := closed sc; finished := finished sc |}.

Definition set_req (sc : http_sconn) (r : option nni_http_req) :=
  {| http := http sc; req := r; res := res sc; close := close sc;
     closed := closed sc; finished := finished sc |}.

Definition set_http (sc : http_sconn) (h : bool) :=
  {| http := h; req := req sc; res := res sc; close := close sc;
     closed := closed sc; finished := finished sc |}.

Definition set_close (sc : http_sconn) (v : bool) :=
  {| http := http sc; req := req sc; res := res sc; close := v;
     closed := closed sc; finished := finished sc |}.

Definition set_closed (sc : http_sconn) (v : bool) :=
  {| http := http sc; req := req sc; res := res sc; close := close sc;
     closed := v; finished := finished sc |}.

(** The result of a callback: the session afterwards and the actions it
    issued. *)
Definition outcome := (http_sconn * list action)%type.

Definition http_sconn_close_locked (sc : http_sconn) : outcome :=
  if closed sc then (sc, [])
  else
    (set_closed sc true,
     [Aio_cancel Rxaio NNG_ECLOSED; Aio_cancel Txaio NNG_ECLOSED;
      Aio_cancel Txdataio NNG_ECLOSED; Aio_cancel Cbaio NNG_ECLOSED]
     ++ (if http sc then [Http_close] else [])
     ++ [Reap]).

Definition http_sconn_close (sc : http_sconn) : outcome :=
  http_sconn_close_locked sc.

(** [nni_http_req_reset(sc->req); nni_http_read_req(...)]. *)
Definition read_next (sc : http_sconn) : outcome :=
  (set_req sc (option_map nni_http_req_reset (req sc)), [Req_reset; Read_req]).

Definition drop_res (sc : http_sconn) : outcome :=
  match res sc with
  | Some r => (set_res sc None, [Res_fini r])
  | None => (sc, [])
  end.

(** Sequencing of two steps, the actions of the first before those of
    the second. *)
Definition andthen (o : outcome) (k : http_sconn -> outcome) : outcome :=
  let '(sc, a1) := o in
  let '(sc', a2) := k sc in
  (sc', a1 ++ a2).

Definition http_sconn_txdatdone (rv : nng_rv) (sc : http_sconn) : outcome :=
  if negb (rv_ok rv) then http_sconn_close sc
  else
    andthen (drop_res sc) (fun sc =>
      if close sc then http_sconn_close sc
      else read_next sc).

(** [http_sconn_txdone]: [None] when [sc->req] (or, for a method other
    than HEAD, [sc->res]) is a null pointer. *)
Definition http_sconn_txdone (rv : nng_rv) (sc : http_sconn) : option outcome :=
  if negb (rv_ok rv) then Some (http_sconn_close sc)
  else
    rq <- req sc ;;
    (* For HEAD requests, we just treat like "GET" but don't send the
       data. *)
    data <- (if is_eq (strcmp (nni_http_req_get_method rq) (lit "HEAD"))
             then Some []
             else r <- res sc ;; Some (nni_http_res_get_data r)) ;;
    if negb (length data =? 0) then
      (* Submit data. *)
      Some (sc, [Write_full data])
    else if close sc then Some (http_sconn_close sc)
    else Some (andthen (drop_res sc) read_next).

Definition http_sconn_error (sc : http_sconn) (err : N) : outcome :=
  match nni_http_res_init_error err with
  | None => http_sconn_close sc
  | Some r =>
      let '(sc, acts, r) :=
        if close sc then
          match nni_http_res_set_header r (lit "Connection") (lit "close") with
          | None => let '(sc', a) := http_sconn_close sc in (sc', a, r)
          | Some r' => (sc, [], r')
          end
        else (sc, [], r) in
      (set_res sc (Some r), acts ++ [Write_res r])
  end.

(** *** Handler lookup (the loop of [http_sconn_rxdone]) *)

(** How one turn of the loop ends: [continue] before the method test,
    [break], or falling off the end of the body with [badmeth] set. *)
Inductive verdict := Skip | Hit | Badmeth.

Definition host_ok (rq : nni_http_req) (h : http_handler) : bool :=
  match h_host h with
  | None => true
  | Some host =>
      match nni_http_req_get_header rq (lit "Host") with
      | None => false
      | Some val =>
          (* Ignore the trailing dot if the handler supplied it. *)
          let len := strlen host in
          let len :=
            if (0 <? len) &&
               match idx host (len - 1) with
               | Some c => Ascii.eqb c "."
               | None => false
               end
            then len - 1 else len in
          if negb (is_eq (nni_strncasecmp val host len)) then false
          else
            match idx val len with
            | None => true
            | Some c =>
                if Ascii.eqb c ":" then true
                else if Ascii.eqb c "." then
                  match idx val (len + 1) with
                  | None => true
                  | Some _ => false
                  end
                else false
            end
      end
  end.

Definition path_ok (path : cstr) (h : http_handler) : bool :=
  let len := strlen (h_path h) in
  if negb (is_eq (strncmp path (h_path h) len)) then false
  else
    match idx path len with
    | None => true
    | Some c =>
        if Ascii.eqb c "/" then
          match idx path (len + 1) with
          | Some _ =>
              (* trailing component and not a directory. *)
              h_is_dir h
          | None => true
          end
        else false (* some other substring, not matched. *)
    end.

Definition method_ok (rq : nni_http_req) (h : http_handler) : bool :=
  let val := nni_http_req_get_method rq in
  if is_eq (strcmp val (h_method h)) then true
  else
    (* HEAD is remapped to GET. *)
    is_eq (strcmp val (lit "HEAD")) && is_eq (strcmp (h_method h) (lit "GET")).

Definition try_handler (rq : nni_http_req) (path : cstr) (h : http_handler)
  : verdict :=
  if negb (host_ok rq h) then Skip
  else if negb (path_ok path h) then Skip
  else if method_ok rq h then Hit
  else Badmeth.

(** The loop over [s->handlers], from position [i] on: the record the
    loop stopped at (the final [h]) with its position, and [badmeth]. *)
Fixpoint lookup (rq : nni_http_req) (path : cstr) (hs : list http_handler)
    (i : nat) (badmeth : bool) : option (nat * http_handler) * bool :=
  match hs with
  | [] => (None, badmeth)
  | h :: hs' =>
      match try_handler rq path h with
      | Skip => lookup rq path hs' (S i) badmeth
      | Hit => (Some (i, h), badmeth)
      | Badmeth => lookup rq path hs' (S i) true
      end
  end.

(** [h->h_refcnt++] on the record at position [i] of the list. *)
Fixpoint hold (hs : list http_handler) (i : nat) : list http_handler :=
  match hs, i with
  | [], _ => []
  | h :: hs', O => with_refcnt h (h_refcnt h + 1) :: hs'
  | h :: hs', S i' => h :: hold hs' i'
  end.

(** The environment of one run of [http_sconn_rxdone]: the result of the
    receive, whether [nni_alloc] of the URI copy succeeds, and whether
    [nni_aio_start] on the callback slot succeeds. *)
Record rx_env := {
  rx_result : nng_rv;
  rx_alloc : bool;
  rx_aio_start : bool
}.

(** Lines 348-369 of [http_sconn_rxdone]: the close flag after a version
    [val] that passed validation and the request's Connection header. *)
Definition rx_close_flag (rq : nni_http_req) (val : cstr) (sc : http_sconn)
  : http_sconn :=
  let sc :=
    if negb (is_eq (strcmp val (lit "HTTP/1.1"))) then
      (* We treat HTTP/1.0 connections as non-persistent. *)
      set_close sc true
    else sc in
  (* If the connection was 1.0, or a connection: close was requested,
     then mark this close on our end. *)
  match nni_http_req_get_header rq (lit "Connection") with
  | Some val =>
      match nni_strcasestr val (lit "close") with
      | Some _ => set_close sc true
      | None => sc
      end
  | None => sc
  end.

(** Lines 371-469 of [http_sconn_rxdone]: canonify the URI, look the
    handler up and start it, or answer 404 / 405.  [None] when the
    canonifier leaves its buffer. *)
Definition rx_dispatch (env : rx_env) (handlers : list http_handler)
    (rq : nni_http_req) (sc : http_sconn)
  : option (list http_handler * outcome) :=
  if negb (rx_alloc env) then
    Some (handlers, http_sconn_close sc) (* out of memory *)
  else
    path <- canonify_uri (nni_http_req_get_uri rq) ;;
    match lookup rq path handlers 0 false with
    | (None, badmeth) =>
        if badmeth then
          Some (handlers,
                http_sconn_error sc NNI_HTTP_STATUS_METHOD_NOT_ALLOWED)
        else
          Some (handlers, http_sconn_error sc NNI_HTTP_STATUS_NOT_FOUND)
    | (Some (i, h), _) =>
        if rx_aio_start env then
          Some (hold handlers i, (sc, [Run_handler (h_cb h) (h_arg h)]))
        else Some (handlers, (sc, []))
    end.

(** [http_sconn_rxdone] on the registry list and the session.  [None]
    when [sc->req] is null or the canonifier leaves its buffer. *)
Definition http_sconn_rxdone (env : rx_env) (handlers : list http_handler)
    (sc : http_sconn) : option (list http_handler * outcome) :=
  if negb (rv_ok (rx_result env)) then Some (handlers, http_sconn_close sc)
  else
    rq <- req sc ;;
    (* Validate the request -- it has to at least look like HTTP 1.x *)
    match nni_http_req_get_version rq with
    | None =>
        Some (handlers,
              http_sconn_error (set_close sc true) NNI_HTTP_STATUS_BAD_REQUEST)
    | Some val =>
        if negb (is_eq (strncmp val (lit "HTTP/1.") 7)) then
          Some (handlers,
                http_sconn_error (set_close sc true)
                  NNI_HTTP_STATUS_HTTP_VERSION_NOT_SUPP)
        else rx_dispatch env handlers rq (rx_close_flag rq val sc)
    end.

(** [http_sconn_cbdone].  [h] is the record stored in the slot by
    [http_sconn_rxdone] and [out] the response, if any, that the handler
    left in it; the record is returned with its new reference count. *)
Definition http_sconn_cbdone (rv : nng_rv) (h : http_handler)
    (out : option nni_http_res) (sc : http_sconn)
  : http_handler * outcome :=
  if negb (rv_ok rv) then
    (* Hard close, no further feedback. *)
    (h, http_sconn_close sc)
  else
    let upgrader := h_is_upgrader h in
    let h := with_refcnt h (h_refcnt h - 1) in
    let fini := if (h_refcnt h =? 0)%Z then [Handler_fini h] else [] in
    let '(sc, acts) :=
      match out with
      | None =>
          if upgrader then
            (* the underlying HTTP is not closed *)
            http_sconn_close (set_res (set_req (set_http sc false) None) None)
          else if close sc then http_sconn_close sc
          else read_next sc
      | Some r =>
          let sc :=
            match nni_http_res_get_header r (lit "Connection") with
            | Some val =>
                match strstr val (lit "close") with
                | Some _ => set_close sc true
                | None => sc
                end
            | None => sc
            end in
          let r :=
            if close sc then
              match nni_http_res_set_header r (lit "Connection") (lit "close") with
              | Some r' => r'
              | None => r
              end
            else r in
          (set_res sc (Some r), [Write_res r])
      end in
    (h, (sc, fini ++ acts)).

End WithCodec.
End Session.

Import Session.

(** ** Server start and stop *)

Module Server.
Section WithCodec.
Context {codec : HttpMsg}.

(** What the server asks of the transport, and of its sessions. *)
Inductive srv_action :=
| Ep_init
| Ep_listen
| Ep_fini
| Ep_accept
| Ep_close
| Cv_wake
| On_conn (i : nat) (a : action).

(** [nni_http_server], without its lock, address, TLS configuration and
    URL.  [tep] records whether the listener pointer is non-null; the
    [int] counters are unbounded integers (no overflow is modelled). *)
Record nni_http_server := {
  refcnt : Z;
  starts : Z;
  handlers : list http_handler;
  conns : list http_sconn;
  closed : bool;
  tep : bool
}.

Definition set_starts (s : nni_http_server) (n : Z) :=
  {| refcnt := refcnt s; starts := n; handlers := handlers s;
     conns := conns s; closed := closed s; tep := tep s |}.

Definition set_tep (s : nni_http_server) (v : bool) :=
  {| refcnt := refcnt s; starts := starts s; handlers := handlers s;
     conns := conns s; closed := closed s; tep := v |}.

Definition set_closed (s : nni_http_server) (v : bool) :=
  {| refcnt := refcnt s; starts := starts s; handlers := handlers s;
     conns := conns s; closed := v; tep := tep s |}.

Definition set_conns (s : nni_http_server) (l : list http_sconn) :=
  {| refcnt := refcnt s; starts := starts s; handlers := handlers s;
     conns := l; closed := closed s; tep := tep s |}.

(** The transport's answers during one start: the results of
    [nni_plat_tcp_ep_init] and of [nni_plat_tcp_ep_listen]. *)
Record start_env := {
  ep_init_rv : nng_rv;
  ep_listen_rv : nng_rv
}.

Definition http_server_start (env : start_env) (s : nni_http_server)
  : nni_http_server * list srv_action * nng_rv :=
  match ep_init_rv env with
  | Some e => (s, [Ep_init], Some e)
  | None =>
      let s := set_tep s true in
      match ep_listen_rv env with
      | Some e => (set_tep s false, [Ep_init; Ep_listen; Ep_fini], Some e)
      | None => (s, [Ep_init; Ep_listen; Ep_accept], None)
      end
  end.

Definition nni_http_server_start (env : start_env) (s : nni_http_server)
  : nni_http_server * list srv_action * nng_rv :=
  let '(s, acts, rv) :=
    if (starts s =? 0)%Z then http_server_start env s
    else (s, [], None) in
  let s := if rv_ok rv then set_starts s (starts s + 1) else s in
  (s, acts, rv).

(** The loop of [http_server_stop] over [s->conns], from position [i]. *)
Fixpoint close_conns (l : list http_sconn) (i : nat)
  : list http_sconn * list srv_action :=
  match l with
  | [] => ([], [])
  | sc :: l' =>
      let '(sc', a) := http_sconn_close_locked sc in
      let '(l'', a') := close_conns l' (S i) in
      (sc' :: l'', map (On_conn i) a ++ a')
  end.

Definition http_server_stop (s : nni_http_server)
  : nni_http_server * list srv_action :=
  if closed s then (s, [])
  else
    let s := set_closed s true in
    (* Close the TCP endpoint that is listening. *)
    let a1 := if tep s then [Ep_close] else [] in
    (* Stopping the server is a hard stop. *)
    let '(l, a2) := close_conns (conns s) 0 in
    (set_conns s l, a1 ++ a2 ++ [Cv_wake]).

Definition nni_http_server_stop (s : nni_http_server)
  : nni_http_server * list srv_action :=
  let s := set_starts s (starts s - 1) in
  if (starts s =? 0)%Z then http_server_stop s
  else (s, []).

End WithCodec.
End Server.

(** ** A concrete codec, for running the model *)

(** A request and a response as plain records; header names compare
    without regard to case. *)
Module Plain.

Record request := {
  version : option cstr;
  method : cstr;
  uri : cstr;
  req_headers : list (cstr * cstr)
}.

Record response := {
  status : N;
  res_headers : list (cstr * cstr);
  body : list ascii
}.

Fixpoint get_header (l : list (cstr * cstr)) (k : cstr) : option cstr :=
  match l with
  | [] => None
  | (k', v) :: l' =>
      if is_eq (nni_strcasecmp k' k) then Some v else get_header l' k
  end.

Fixpoint set_header (l : list (cstr * cstr)) (k v : cstr)
  : list (cstr * cstr) :=
  match l with
  | [] => [(k, v)]
  | (k', v') :: l' =>
      if is_eq (nni_strcasecmp k' k) then (k', v) :: l'
      else (k', v') :: set_header l' k v
  end.

Definition reset (r : request) : request :=
  {| version := None; method := []; uri := []; req_headers := [] |}.

#[global] Instance codec : HttpMsg := {|
  nni_http_req := request;
  nni_http_res := response;
  nni_http_req_get_version := version;
  nni_http_req_get_method := method;
  nni_http_req_get_uri := uri;
  nni_http_req_get_header := fun r => get_header (req_headers r);
  nni_http_req_reset := reset;
  nni_http_res_init_error := fun e =>
    Some {| status := e; res_headers := []; body := [] |};
  nni_http_res_get_header := fun r => get_header (res_headers r);
  nni_http_res_set_header := fun r k v =>
    Some {| status := status r; res_headers := set_header (res_headers r) k v;
            body := body r |};
  nni_http_res_get_data := body
|}.

End Plain.

(** ** Vocabulary of the specification *)

(** A path without its trailing slashes. *)
Fixpoint trim_slashes (p : cstr) : cstr :=
  match p with
  | [] => []
  | c :: p' =>
      match trim_slashes p' with
      | [] => if Ascii.eqb c "/" then [] else [c]
      | t => c :: t
      end
  end.

(** Two strings that are equal up to the case of their letters. *)
Definition same_nocase (a b : cstr) : Prop :=
  map tolower a = map tolower b.

(** Hosts are compatible when they match case-insensitively or when at
    least one of them is absent. *)
Definition host_compatible (a b : option cstr) : Prop :=
  match a, b with
  | Some x, Some y => same_nocase x y
  | _, _ => True
  end.

(** The two paths agree on the first [L] bytes, [L] the smaller length. *)
Definition common_prefix (p q : cstr) : Prop :=
  let L := Nat.min (length p) (length q) in
  firstn L p = firstn L q.

(** The registration-time collision rule between a registered record and
    a new method, host and (trimmed) path. *)
Definition conflicts (h2 : http_handler) (method : cstr) (host : option cstr)
    (path : cstr) : Prop :=
  h_method h2 = method /\
  host_compatible (h_host h2) host /\
  common_prefix (h_path h2) path.

(** A descriptor that passes the validity test of [add]. *)
Definition valid_descriptor (hh : nni_http_handler) (method path : cstr) : Prop :=
  hh_method hh = Some method /\ hh_path hh = Some path /\
  hh_cb hh <> None /\ method <> lit "HEAD".

(** A string without a NUL byte, that is, a genuine C string. *)
Definition no_nul (s : cstr) : Prop := Forall (fun c => c <> NUL) s.

(** The string contains a percent sign followed by two hexadecimal
    digits. *)
Fixpoint has_escape (s : cstr) : bool :=
  match s with
  | [] => false
  | c :: s' =>
      (Ascii.eqb c "%" &&
       match s' with
       | x1 :: x2 :: _ => isxdigit x1 && isxdigit x2
       | _ => false
       end) || has_escape s'
  end.

(** A path on which the canonifier has nothing to do: no query mark, no
    scheme prefix, no escape. *)
Definition plain_path (p : cstr) : Prop :=
  ~ In "?"%char p /\ is_absolute p = false /\ has_escape p = false.

(** The record that [add] builds from a valid descriptor, before its
    reference count is set. *)
Definition fresh_record (hh : nni_http_handler) (method path : cstr)
    (cb : addr) (arg : addr) (freeit : option addr) : http_handler :=
  {| h_arg := arg; h_path := trim_slashes path; h_method := method;
     h_host := hh_host hh; h_is_upgrader := hh_is_upgrader hh;
     h_is_dir := hh_is_dir hh; h_refcnt := 0; h_cb := cb;
     h_free := freeit |}.

Section CodecVocabulary.
Context {codec : HttpMsg}.

(** The handler passes the host and path tests and fails the method
    test. *)
Definition wrong_method_only (rq : nni_http_req) (path : cstr)
    (h : http_handler) : Prop :=
  host_ok rq h = true /\ path_ok path h = true /\ method_ok rq h = false.

(** The request asks for the connection to be closed: its Connection
    header contains ["close"], letters compared without regard to case. *)
Definition wants_close (rq : nni_http_req) : bool :=
  match nni_http_req_get_header rq (lit "Connection") with
  | Some val =>
      match nni_strcasestr val (lit "close") with
      | Some _ => true
      | None => false
      end
  | None => false
  end.

(** The session after [http_sconn_close_locked]. *)
Definition hard_close (sc : http_sconn) : http_sconn :=
  fst (http_sconn_close_locked sc).

(** [n] successful calls of start in a row, and [n] calls of stop in a
    row, with the transport requests they made. *)
Fixpoint start_n (env : Server.start_env) (n : nat)
    (s : Server.nni_http_server)
  : Server.nni_http_server * list Server.srv_action :=
  match n with
  | O => (s, [])
  | S k =>
      let '(s1, a1, _) := Server.nni_http_server_start env s in
      let '(s2, a2) := start_n env k s1 in
      (s2, a1 ++ a2)
  end.

Fixpoint stop_n (n : nat) (s : Server.nni_http_server)
  : Server.nni_http_server * list Server.srv_action :=
  match n with
  | O => (s, [])
  | S k =>
      let '(s1, a1) := Server.nni_http_server_stop s in
      let '(s2, a2) := stop_n k s1 in
      (s2, a1 ++ a2)
  end.

End CodecVocabulary.

(** ** Concrete inputs *)

Definition demo_abc : http_handler :=
  {| h_arg := 0; h_path := lit "/abc"; h_method := lit "GET";
     h_host := None; h_is_upgrader := false; h_is_dir := false;
     h_refcnt := 1; h_cb := 1; h_free := None |}.

Definition demo_ab : nni_http_handler :=
  {| hh_method := Some (lit "GET"); hh_path := Some (lit "/ab");
     hh_host := None; hh_is_dir := false; hh_is_upgrader := false;
     hh_cb := Some 1 |}.

Definition demo_root : nni_http_handler :=
  {| hh_method := Some (lit "GET"); hh_path := Some (lit "/");
     hh_host := None; hh_is_dir := true; hh_is_upgrader := false;
     hh_cb := Some 1 |}.

Definition demo_root_record : http_handler :=
  {| h_arg := 0; h_path := []; h_method := lit "GET";
     h_host := None; h_is_upgrader := false; h_is_dir := true;
     h_refcnt := 1; h_cb := 1; h_free := None |}.

Definition demo_env : rx_env :=
  {| rx_result := None; rx_alloc := true; rx_aio_start := true |}.

Definition demo_request (v : option cstr) (m : string) : Plain.request :=
  {| Plain.version := v; Plain.method := lit m; Plain.uri := lit "/x";
     Plain.req_headers := [(lit "Host", lit "example.com")] |}.

Definition demo_session (rq : Plain.request) : @http_sconn Plain.codec :=
  @Build_http_sconn Plain.codec true (Some rq) None false false false.

Definition demo_post : http_handler :=
  {| h_arg := 0; h_path := lit "/x"; h_method := lit "POST";
     h_host := None; h_is_upgrader := false; h_is_dir := false;
     h_refcnt := 1; h_cb := 1; h_free := None |}.

Definition demo_response : Plain.response :=
  {| Plain.status := 200; Plain.res_headers := [(lit "Connection", lit "Close")];
     Plain.body := lit "hello" |}.

(** ** Further vocabulary: URIs *)

(** The hexadecimal digit of a value below 16, in lower and in upper
    case. *)
Definition hex_lower (n : N) : ascii :=
  if (n <? 10)%N then char_of_N (uchar "0" + n)
  else char_of_N (uchar "a" + (n - 10)).

Definition hex_upper (n : N) : ascii :=
  if (n <? 10)%N then char_of_N (uchar "0" + n)
  else char_of_N (uchar "A" + (n - 10)).

(** Text that the canonifier copies byte by byte: no NUL, no percent
    sign, no question mark. *)
Definition literal (s : cstr) : Prop :=
  no_nul s /\ ~ In "%"%char s /\ ~ In "?"%char s.

(** A scheme prefix, in any mix of cases. *)
Definition is_scheme (sch : cstr) : Prop :=
  same_nocase sch (lit "http://") \/ same_nocase sch (lit "https://").

(** An authority: literal text without a slash. *)
Definition authority (host : cstr) : Prop :=
  literal host /\ ~ In "/"%char host.

(** The byte an escape [%x1x2] decodes to. *)
Definition decoded (x1 x2 : ascii) : ascii :=
  char_of_N (uchar (char_of_N (uchar (http_hexval x1) * 16))
             + uchar (http_hexval x2)).

(** A path that begins with a slash. *)
Definition rooted (p : cstr) : Prop := exists p', p = "/"%char :: p'.

(** ** Further vocabulary: host names *)

(** A host name without its single trailing dot, if it has one. *)
Fixpoint strip_dot (s : cstr) : cstr :=
  match s with
  | [] => []
  | c :: s' =>
      match s' with
      | [] => if Ascii.eqb c "." then [] else [c]
      | _ :: _ => c :: strip_dot s'
      end
  end.

(** The value [val] of a Host header names the handler's host: it is the
    handler's host (trailing dot ignored, case ignored), followed by
    nothing, by a colon and whatever comes after, or by a lone dot. *)
Definition host_matches (host val : cstr) : Prop :=
  exists name tail,
    val = name ++ tail /\
    same_nocase name (strip_dot host) /\
    (tail = [] \/ (exists port, tail = ":"%char :: port) \/ tail = lit ".").

(** ** Deleting a handler *)

Section Deletion.
Context {codec : HttpMsg}.

(** [nni_http_server_del_handler]; [i] is the position in the list of the
    record [harg] points to ([None] when there is no such record).  The
    result is the list without the record, the record with its new
    reference count, and [http_handler_fini] on it if the count reached
    zero. *)
Definition nni_http_server_del_handler (handlers : list http_handler)
    (i : nat) : option (list http_handler * http_handler * list action) :=
  h <- nth_error handlers i ;;
  let handlers := firstn i handlers ++ skipn (S i) handlers in
  let h := with_refcnt h (h_refcnt h - 1) in
  Some (handlers, h, if (h_refcnt h =? 0)%Z then [Handler_fini h] else []).

End Deletion.

(** ** Further vocabulary: the registry *)

(** What [add] guarantees of every record it stores. *)
Definition stored_ok (h : http_handler) : Prop :=
  h_method h <> lit "HEAD" /\ trim_slashes (h_path h) = h_path h.

(** No record collides with a record registered after it. *)
Definition collision_free (hs : list http_handler) : Prop :=
  ForallOrdPairs
    (fun a b => ~ conflicts a (h_method b) (h_host b) (h_path b)) hs.

Definition registry_ok (hs : list http_handler) : Prop :=
  Forall stored_ok hs /\ collision_free hs.

(** ** Further vocabulary: sessions *)

Section SessionVocabulary.
Context {codec : HttpMsg}.

(** How many times a list of actions hands the session to the reaper. *)
Definition reaps (acts : list action) : nat :=
  length (filter (fun a => match a with Reap => true | _ => false end) acts).

(** A step from session [sc] to [sc'] with actions [acts] keeps the
    flags in order: [close] and [closed] are never cleared, [finished]
    is left alone, and the session is handed to the reaper exactly when
    the step closes it. *)
Definition orderly (sc : http_sconn) (o : outcome) : Prop :=
  let '(sc', acts) := o in
  (close sc = true -> close sc' = true) /\
  (Session.closed sc = true -> Session.closed sc' = true) /\
  finished sc' = finished sc /\
  reaps acts = if Session.closed sc then 0
               else if Session.closed sc' then 1 else 0.

End SessionVocabulary.

Definition demo_upgrader : http_handler :=
  {| h_arg := 0; h_path := lit "/ws"; h_method := lit "GET";
     h_host := None; h_is_upgrader := true; h_is_dir := false;
     h_refcnt := 1; h_cb := 1; h_free := None |}.

Definition demo_open : @http_sconn Plain.codec :=
  demo_session (demo_request (Some (lit "HTTP/1.1")) "GET").

(** ** Accepting, reaping, and the directory of servers *)

Module Lifecycle.
Section WithCodec.
Context {codec : HttpMsg}.

(** Whether the file is compiled with [NNG_SUPP_TLS]. *)
Variable NNG_SUPP_TLS : bool.

(** Modelled from the spec: [nni_url] is declared by the URL parser,
    outside this file; the spec says parsing yields scheme, hostname and
    port, and these are the three strings the server reads. *)
Record nni_url := {
  u_scheme : cstr;
  u_hostname : cstr;
  u_port : cstr
}.

(** What the functions of this part ask of their collaborators.  [Srv]
    carries the actions of the start/stop model; a TLS configuration is
    known by its address; [i] is the position of a session in
    [s->conns] at the time of the call. *)
Inductive event :=
| Srv (a : Server.srv_action)
| Tcp_pipe_fini
| Http_init_tls (c : addr)
| Http_init_tcp
| Sc_aio_stop (i : nat) (a : slot)
| Sc_http_fini (i : nat)
| Sc_req_fini (i : nat) (r : nni_http_req)
| Sc_res_fini (i : nat) (r : nni_http_res)
| Sc_aio_fini (i : nat) (a : slot)
| Sc_free (i : nat)
| Acc_aio_stop
| Acc_aio_fini
| Handler_free (h : http_handler)
| Url_free (u : nni_url)
| Tls_config_hold (c : addr)
| Tls_config_fini (c : addr)
| Server_free.

(** [nni_http_server] with the two fields the start/stop model leaves
    out: the URL it was made from and the TLS configuration. *)
Record http_server := {
  core : Server.nni_http_server;
  url : option nni_url;
  tls : option addr
}.

Definition set_core (s : http_server) (c : Server.nni_http_server) :=
  {| core := c; url := url s; tls := tls s |}.

Definition set_tls (s : http_server) (t : option addr) :=
  {| core := core s; url := url s; tls := t |}.

Definition set_refcnt (s : http_server) (n : Z) :=
  set_core s
    {| Server.refcnt := n; Server.starts := Server.starts (core s);
       Server.handlers := Server.handlers (core s);
       Server.conns := Server.conns (core s);
       Server.closed := Server.closed (core s);
       Server.tep := Server.tep (core s) |}.

(** *** Sessions: [http_sconn_reap], [http_sconn_init], [http_server_acccb] *)

Definition slots : list slot := [Rxaio; Txaio; Txdataio; Cbaio].

(** [http_sconn_reap] on the session at position [i] of [s->conns]
    (every session the model knows is linked there).  [None] when there
    is no such session or [NNI_ASSERT(!sc->finished)] fails. *)
Definition http_sconn_reap (s : http_server) (i : nat)
  : option (http_server * list event) :=
  sc <- nth_error (Server.conns (core s)) i ;;
  if finished sc then None
  else
    let l := firstn i (Server.conns (core s))
             ++ skipn (S i) (Server.conns (core s)) in
    Some (set_core s (Server.set_conns (core s) l),
          map (Sc_aio_stop i) slots
          ++ (if http sc then [Sc_http_fini i] else [])
          ++ match req sc with Some r => [Sc_req_fini i r] | None => [] end
          ++ match res sc with Some r => [Sc_res_fini i r] | None => [] end
          ++ map (Sc_aio_fini i) slots
          (* Now it is safe to release our reference on the server. *)
          ++ match l with [] => [Srv Server.Cv_wake] | _ :: _ => [] end
          ++ [Sc_free i]).

(** How the allocations of one [http_sconn_init] turn out: the struct
    cannot be allocated; a later step (the request object, one of the
    four aios, the transport wrapper) fails with [e]; or all succeed and
    [rq] is the new request object. *)
Inductive sconn_init_env :=
| Sc_enomem
| Sc_fail (e : nng_errno)
| Sc_ok (rq : nni_http_req).

(** [http_sconn_init].  The struct is zero-filled, so on the failures
    after the allocation [http_sconn_close(sc)] runs with [sc->server]
    still null and locks [&s->mtx] through that null pointer: [None]. *)
Definition http_sconn_init (env : sconn_init_env) (s : http_server)
  : option ((nng_errno + http_sconn) * list event) :=
  match env with
  | Sc_enomem => Some (inl NNG_ENOMEM, [Tcp_pipe_fini])
  | Sc_fail e => None
  | Sc_ok rq =>
      Some (inr {| http := true; req := Some rq; res := None;
                   close := false; closed := false; finished := false |},
            [match tls s with
             | Some c => Http_init_tls c
             | None => Http_init_tcp
             end])
  end.

(** The environment of one accept completion: the result of the accept
    and the allocations of [http_sconn_init]. *)
Record acc_env := {
  acc_result : nng_rv;
  acc_init : sconn_init_env
}.

Definition http_server_acccb (env : acc_env) (s : http_server)
  : option (http_server * list event) :=
  if negb (rv_ok (acc_result env)) then
    (* try again? *)
    Some (s, if negb (Server.closed (core s)) then [Srv Server.Ep_accept]
             else [])
  else if Server.closed (core s) then
    (* If we're closing, then reject this one. *)
    Some (s, [Tcp_pipe_fini])
  else
    r <- http_sconn_init (acc_init env) s ;;
    match r with
    | (inl _, evs) =>
        (* Start another accept attempt. *)
        Some (s, evs ++ [Srv Server.Ep_accept])
    | (inr sc, evs) =>
        let i := length (Server.conns (core s)) in
        Some (set_core s
                (Server.set_conns (core s) (Server.conns (core s) ++ [sc])),
              evs ++ [Srv (Server.On_conn i Read_req);
                      Srv Server.Ep_accept])
    end.

(** *** TLS binding: [nni_http_server_set_tls], [nni_http_server_get_tls] *)

Definition nni_http_server_set_tls (s : http_server) (tcfg : option addr)
  : http_server * list event * nng_rv :=
  if NNG_SUPP_TLS then
    if negb (Server.starts (core s) =? 0)%Z then (s, [], Some NNG_EBUSY)
    else
      let old := tls s in
      (set_tls s tcfg,
       match tcfg with Some c => [Tls_config_hold c] | None => [] end
       ++ match old with Some c => [Tls_config_fini c] | None => [] end,
       None)
  else (s, [], Some NNG_ENOTSUP).

Definition nni_http_server_get_tls (s : http_server) : nng_errno + addr :=
  if NNG_SUPP_TLS then
    match tls s with
    | None => inl NNG_EINVAL
    | Some c => inr c
    end
  else inl NNG_ENOTSUP.

(** *** The directory: [http_server_fini], [nni_http_server_fini],
    [http_server_init], [nni_http_server_init] *)

(** [http_server_fini].  While [s->conns] is not empty the call waits on
    the condition variable for the reaper; that wait is not modelled,
    and the result is [None]. *)
Definition http_server_fini (s : http_server) : option (list event) :=
  match Server.conns (core s) with
  | _ :: _ => None
  | [] =>
      Some ([Acc_aio_stop]
            ++ (if Server.tep (core s) then [Srv Server.Ep_fini] else [])
            ++ map Handler_free (Server.handlers (core s))
            ++ match url s with Some u => [Url_free u] | None => [] end
            ++ (if NNG_SUPP_TLS then
                  match tls s with
                  | Some c => [Tls_config_fini c]
                  | None => []
                  end
                else [])
            ++ [Acc_aio_fini; Server_free])
  end.

(** [nni_http_server_fini] on the server at position [i] of the
    directory [http_servers]. *)
Definition nni_http_server_fini (servers : list http_server) (i : nat)
  : option (list http_server * list event) :=
  s <- nth_error servers i ;;
  let s := set_refcnt s (Server.refcnt (core s) - 1) in
  if (Server.refcnt (core s) =? 0)%Z then
    evs <- http_server_fini s ;;
    Some (firstn i servers ++ skipn (S i) servers, evs)
  else Some (firstn i servers ++ s :: skipn (S i) servers, []).

(** The environment of one [http_server_init]: whether the struct can be
    allocated, the results of [nni_aio_init] for the accept slot, of
    [nni_tls_config_init] (the new configuration on success), of
    [nni_aio_init] for the resolver aio, and of the lookup itself. *)
Record init_env := {
  srv_alloc : bool;
  accaio_init : nng_rv;
  tls_config_init : nng_errno + addr;
  resolv_aio_init : nng_rv;
  resolv_result : nng_rv
}.

Definition scheme_is (u : nni_url) (s : string) : bool :=
  is_eq (strcmp (u_scheme u) (lit s)).

Definition fresh_server (u : nni_url) : http_server :=
  {| core := {| Server.refcnt := 0; Server.starts := 0;
                Server.handlers := []; Server.conns := [];
                Server.closed := false; Server.tep := false |};
     url := Some u; tls := None |}.

(** [http_server_init]: the new server, or the error, with the events
    on the way.  On each failure after the allocation the half-made
    server goes through [http_server_fini]. *)
Definition http_server_init (env : init_env) (u : nni_url)
  : option ((nng_errno + http_server) * list event) :=
  if negb (scheme_is u "http")
     && (if NNG_SUPP_TLS
         then negb (scheme_is u "https") && negb (scheme_is u "wss")
         else true)
     && negb (scheme_is u "ws")
  then Some (inl NNG_EADDRINVAL, [Url_free u])
  else if negb (srv_alloc env) then Some (inl NNG_ENOMEM, [Url_free u])
  else
    let s := fresh_server u in
    match accaio_init env with
    | Some e => evs <- http_server_fini s ;; Some (inl e, evs)
    | None =>
        let wants_tls :=
          if NNG_SUPP_TLS then scheme_is u "https" || scheme_is u "wss"
          else false in
        match (if wants_tls then tls_config_init env else inr 0) with
        | inl e => evs <- http_server_fini s ;; Some (inl e, evs)
        | inr c =>
            let s := if wants_tls then set_tls s (Some c) else s in
            (* Do the DNS lookup *now*. *)
            match resolv_aio_init env with
            | Some e => evs <- http_server_fini s ;; Some (inl e, evs)
            | None =>
                match resolv_result env with
                | Some e => evs <- http_server_fini s ;; Some (inl e, evs)
                | None => Some (inr (set_refcnt s 1), [])
                end
            end
        end
    end.

(** Whether the server [s] of the directory answers for the host and
    port of [u]; [None] when [s->url] is null. *)
Definition same_address (u : nni_url) (s : http_server) : option bool :=
  su <- url s ;;
  Some (is_eq (strcmp (u_port u) (u_port su))
        && is_eq (strcmp (u_hostname u) (u_hostname su))).

(** The [NNI_LIST_FOREACH] of [nni_http_server_init], from position
    [i]: the position of the first server that answers for [u]. *)
Fixpoint find_server (u : nni_url) (servers : list http_server) (i : nat)
  : option (option nat) :=
  match servers with
  | [] => Some None
  | s :: rest =>
      same <- same_address u s ;;
      if same then Some (Some i) else find_server u rest (S i)
  end.

(** [nni_http_server_init] after [nni_url_parse] has succeeded with
    [u]: the directory afterwards, the position of the server handed
    out or the error, and the events. *)
Definition nni_http_server_init (env : init_env)
    (servers : list http_server) (u : nni_url)
  : option (list http_server * (nng_errno + nat) * list event) :=
  found <- find_server u servers 0 ;;
  match found with
  | Some i =>
      s <- nth_error servers i ;;
      Some (firstn i servers
            ++ set_refcnt s (Server.refcnt (core s) + 1)
            :: skipn (S i) servers,
            inr i, [Url_free u])
  | None =>
      (* We didn't find a server, try to make a new one. *)
      r <- http_server_init env u ;;
      match r with
      | (inr s, evs) => Some (servers ++ [s], inr (length servers), evs)
      | (inl e, evs) => Some (servers, inl e, evs ++ [Url_free u])
      end
  end.

End WithCodec.
End Lifecycle.

(** ** Further vocabulary: the life of a server *)

Section LifecycleVocabulary.
Context {codec : HttpMsg}.
Import Lifecycle.

(** [nni_http_server_start] and [nni_http_server_stop] on the server
    with its URL and TLS configuration. *)
Definition server_start (env : Server.start_env) (s : http_server)
  : http_server * list event * nng_rv :=
  let '(c, acts, rv) := Server.nni_http_server_start env (core s) in
  (set_core s c, map Srv acts, rv).

Definition server_stop (s : http_server) : http_server * list event :=
  let '(c, acts) := Server.nni_http_server_stop (core s) in
  (set_core s c, map Srv acts).

(** The live set of a server, and the server with the session at
    position [i] replaced. *)
Definition live (s : http_server) : list http_sconn :=
  Server.conns (core s).

Definition set_conn (s : http_server) (i : nat) (sc : http_sconn)
  : http_server :=
  set_core s
    (Server.set_conns (core s)
       (firstn i (live s) ++ sc :: skipn (S i) (live s))).

Definition set_handlers (s : http_server) (hs : list http_handler)
  : http_server :=
  set_core s
    {| Server.refcnt := Server.refcnt (core s);
       Server.starts := Server.starts (core s);
       Server.handlers := hs;
       Server.conns := Server.conns (core s);
       Server.closed := Server.closed (core s);
       Server.tep := Server.tep (core s) |}.

(** One thing that can happen to a running server, with the events it
    causes: a start, a stop, the completion of an accept, an orderly
    step of one session (each session callback is one), a change of the
    registry, or the reaper taking a session that has been closed. *)
Inductive step : http_server -> list event -> http_server -> Prop :=
| step_start env s s' evs rv :
    server_start env s = (s', evs, rv) -> step s evs s'
| step_stop s s' evs :
    server_stop s = (s', evs) -> step s evs s'
| step_accept env s s' evs :
    http_server_acccb env s = Some (s', evs) -> step s evs s'
| step_session i sc sc' acts s :
    nth_error (live s) i = Some sc ->
    orderly sc (sc', acts) ->
    step s (map (fun a => Srv (Server.On_conn i a)) acts) (set_conn s i sc')
| step_registry hs s :
    step s [] (set_handlers s hs)
| step_reap i sc s s' evs :
    nth_error (live s) i = Some sc ->
    Session.closed sc = true ->
    http_sconn_reap s i = Some (s', evs) ->
    step s evs s'.

Inductive steps : http_server -> list event -> http_server -> Prop :=
| steps_nil s : steps s [] s
| steps_cons s evs s' evs' s'' :
    step s evs s' -> steps s' evs' s'' -> steps s (evs ++ evs') s''.

(** A server that has been shut: its [closed] flag is set and every
    session of the live set is closed. *)
Definition shut (s : http_server) : Prop :=
  Server.closed (core s) = true /\
  Forall (fun sc => Session.closed sc = true) (live s).

(** Reaping the sessions at the positions [ps], one after the other. *)
Fixpoint reap_all (s : http_server) (ps : list nat)
  : option (http_server * list event) :=
  match ps with
  | [] => Some (s, [])
  | i :: ps' =>
      '(s', evs) <- http_sconn_reap s i ;;
      '(s'', evs') <- reap_all s' ps' ;;
      Some (s'', evs ++ evs')
  end.

(** How many times the condition variable is signalled. *)
Definition wakes (evs : list event) : nat :=
  length (filter (fun e => match e with
                           | Srv Server.Cv_wake => true
                           | _ => false
                           end) evs).

(** The keys of the directory: port and host name of each server. *)
Definition address_of (s : http_server) : option (cstr * cstr) :=
  option_map (fun u => (u_port u, u_hostname u)) (url s).

Definition url_frees (u : nni_url) (evs : list event) : nat :=
  length (filter (fun e => match e with
                           | Url_free u' =>
                               is_eq (strcmp (u_scheme u') (u_scheme u))
                               && is_eq (strcmp (u_hostname u') (u_hostname u))
                               && is_eq (strcmp (u_port u') (u_port u))
                           | _ => false
                           end) evs).

End LifecycleVocabulary.

Definition demo_url (scheme : string) : Lifecycle.nni_url :=
  {| Lifecycle.u_scheme := lit scheme;
     Lifecycle.u_hostname := lit "example.org";
     Lifecycle.u_port := lit "8080" |}.

Definition demo_init_env : Lifecycle.init_env :=
  {| Lifecycle.srv_alloc := true; Lifecycle.accaio_init := None;
     Lifecycle.tls_config_init := inr 7;
     Lifecycle.resolv_aio_init := None; Lifecycle.resolv_result := None |}.

Definition demo_server : @Lifecycle.http_server Plain.codec :=
  {| Lifecycle.core :=
       {| Server.refcnt := 1; Server.starts := 1;
          Server.handlers := [demo_root_record];
          Server.conns := [demo_open; set_close demo_open true];
          Server.closed := false; Server.tep := true |};
     Lifecycle.url := Some (demo_url "http");
     Lifecycle.tls := None |}.

Definition demo_start_env : Server.start_env :=
  {| Server.ep_init_rv := None; Server.ep_listen_rv := None |}.

(** An event that wraps an accepted connection in an HTTP transport. *)
Definition is_wrap {codec : HttpMsg} (e : Lifecycle.event) : Prop :=
  match e with
  | Lifecycle.Http_init_tls _ | Lifecycle.Http_init_tcp => True
  | _ => False
  end.

(** ** Further vocabulary: the directory *)

Section DirectoryVocabulary.
Context {codec : HttpMsg}.
Import Lifecycle.

(** A directory as [nni_http_server_init] and [nni_http_server_fini]
    keep it: every server has its URL and at least one reference, and no
    two servers answer for the same port and host name. *)
Definition directory_ok (servers : list http_server) : Prop :=
  Forall (fun s => url s <> None /\ (1 <= Server.refcnt (core s))%Z) servers /\
  NoDup (map address_of servers).

(** The scheme is one that [http_server_init] accepts. *)
Definition scheme_accepted (NNG_SUPP_TLS : bool) (u : nni_url) : bool :=
  scheme_is u "http" || scheme_is u "ws"
  || (NNG_SUPP_TLS && (scheme_is u "https" || scheme_is u "wss")).

End DirectoryVocabulary.

Definition demo_directory : list (@Lifecycle.http_server Plain.codec) :=
  [demo_server].

(** ** Content types and the two bundled handlers *)

Module Files.

(** [content_map], without its terminating entry. *)
Definition content_map : list (cstr * cstr) :=
  [ (lit ".ai", lit "application/postscript");
    (lit ".aif", lit "audio/aiff");
    (lit ".aiff", lit "audio/aiff");
    (lit ".avi", lit "video/avi");
    (lit ".au", lit "audio/basic");
    (lit ".bin", lit "application/octet-stream");
    (lit ".bmp", lit "image/bmp");
    (lit ".css", lit "text/css");
    (lit ".eps", lit "application/postscript");
    (lit ".gif", lit "image/gif");
    (lit ".htm", lit "text/html");
    (lit ".html", lit "text/html");
    (lit ".ico", lit "image/x-icon");
    (lit ".jpeg", lit "image/jpeg");
    (lit ".jpg", lit "image/jpeg");
    (lit ".js", lit "application/javascript");
    (lit ".md", lit "text/markdown");
    (lit ".mp2", lit "video/mpeg");
    (lit ".mp3", lit "audio/mpeg3");
    (lit ".mpeg", lit "video/mpeg");
    (lit ".mpg", lit "video/mpeg");
    (lit ".pdf", lit "application/pdf");
    (lit ".png", lit "image/png");
    (lit ".ps", lit "application/postscript");
    (lit ".rtf", lit "text/rtf");
    (lit ".text", lit "text/plain");
    (lit ".tif", lit "image/tiff");
    (lit ".tiff", lit "image/tiff");
    (lit ".txt", lit "text/plain");
    (lit ".wav", lit "audio/wav");
    (lit "README", lit "text/plain") ].

(** The loop of [http_lookup_type] over the entries [map] still to be
    tried. *)
Fixpoint lookup_from (map : list (cstr * cstr)) (path : cstr)
  : option cstr :=
  match map with
  | [] => None
  | (ext, typ) :: rest =>
      let l1 := strlen path in
      let l2 := strlen ext in
      if l1 <? l2 then lookup_from rest path
      else if is_eq (nni_strcasecmp (skipn (l1 - l2) path) ext)
           then Some typ
           else lookup_from rest path
  end.

Definition http_lookup_type (path : cstr) : option cstr :=
  lookup_from content_map path.

(** What the registration functions release on their way out. *)
Inductive reg_event :=
| Strfree (s : option cstr)
| Call_free (fn : addr) (arg : addr)
| Free_struct.

(** [http_handler_fini] on a record with the given strings (a field not
    yet set is null), destructor and argument. *)
Definition http_handler_fini (path host method : option cstr)
    (free : option addr) (arg : addr) : list reg_event :=
  [Strfree path; Strfree host; Strfree method]
  ++ match free with Some fn => [Call_free fn arg] | None => [] end
  ++ [Free_struct].

(** Which allocations of one [http_server_add_handler] succeed: the
    record and the copies of host, method and path. *)
Record add_env := {
  alloc_struct : bool;
  dup_host : bool;
  dup_method : bool;
  dup_path : bool
}.

(** [http_server_add_handler] once more, with each allocation on its own
    and with what the failure paths release. *)
Definition http_server_add_handler_traced (env : add_env)
    (handlers : list http_handler) (hh : nni_http_handler) (arg : addr)
    (freeit : option addr)
  : (nng_errno + (list http_handler * http_handler)) * list reg_event :=
  match hh_method hh, hh_path hh, hh_cb hh with
  | Some method, Some path, Some cb =>
      if is_eq (strcmp method (lit "HEAD")) then (inl NNG_EINVAL, [])
      else if negb (alloc_struct env) then (inl NNG_ENOMEM, [])
      else if match hh_host hh with
              | Some _ => negb (dup_host env)
              | None => false
              end
      then (inl NNG_ENOMEM, http_handler_fini None None None freeit arg)
      else if negb (dup_method env) then
        (inl NNG_ENOMEM, http_handler_fini None (hh_host hh) None freeit arg)
      else if negb (dup_path env) then
        (inl NNG_ENOMEM,
         http_handler_fini None (hh_host hh) (Some method) freeit arg)
      else
        let l1 := strlen path in
        (* Chop off trailing "/" *)
        let path := chop path l1 in
        let l1 := strlen path in
        let h := {| h_arg := arg; h_path := path; h_method := method;
                    h_host := hh_host hh;
                    h_is_upgrader := hh_is_upgrader hh;
                    h_is_dir := hh_is_dir hh; h_refcnt := 0; h_cb := cb;
                    h_free := freeit |} in
        if existsb (collides h l1) handlers then
          (* Path collision. *)
          (inl NNG_EADDRINUSE,
           http_handler_fini (Some path) (hh_host hh) (Some method) freeit arg)
        else
          let h := with_refcnt h 1 in
          (inr (handlers ++ [h], h), [])
  | _, _, _ => (inl NNG_EINVAL, [])
  end.

(** The addresses of the callbacks and destructors of the two bundled
    handlers. *)
Record bundled := {
  http_handle_file : addr;
  http_free_file : addr;
  http_handle_static : addr;
  http_free_static : addr
}.

Record http_file := {
  f_typ : option cstr;
  f_pth : cstr
}.

(** Which allocations of one [nni_http_server_add_file] succeed. *)
Record file_env := {
  alloc_file : bool;
  dup_pth : bool;
  dup_typ : bool;
  file_add : add_env
}.

(** [nni_http_server_add_file]; [f] is the address of the [http_file]
    that the call allocates.  The result is the return value, the
    registry, the contents of [f] when the handler is registered, and
    what was released. *)
Definition nni_http_server_add_file (b : bundled) (env : file_env)
    (handlers : list http_handler) (host ctype uri : option cstr)
    (path : cstr) (f : addr)
  : nng_rv * list http_handler * option http_file * list reg_event :=
  if negb (alloc_file env) then (Some NNG_ENOMEM, handlers, None, [])
  else
    let ctype :=
      match ctype with
      | None => http_lookup_type path
      | Some c => Some c
      end in
    if negb (dup_pth env)
       || (match ctype with Some _ => true | None => false end
           && negb (dup_typ env))
    then (Some NNG_ENOMEM, handlers, None, [Call_free (http_free_file b) f])
    else
      let h := {| hh_method := Some (lit "GET"); hh_path := uri;
                  hh_host := host; hh_is_dir := false;
                  hh_is_upgrader := false;
                  hh_cb := Some (http_handle_file b) |} in
      match http_server_add_handler_traced (file_add env) handlers h f
              (Some (http_free_file b)) with
      | (inl rv, evs) =>
          (Some rv, handlers, None, evs ++ [Call_free (http_free_file b) f])
      | (inr (handlers, _), evs) =>
          (None, handlers, Some {| f_typ := ctype; f_pth := path |}, evs)
      end.

Record http_static := {
  s_typ : cstr;
  s_data : list ascii
}.

(** Which allocations of one [nni_http_server_add_static] succeed. *)
Record static_env := {
  alloc_static : bool;
  alloc_data : bool;
  dup_ctype : bool;
  static_add : add_env
}.

(** [nni_http_server_add_static], in the same way. *)
Definition nni_http_server_add_static (b : bundled) (env : static_env)
    (handlers : list http_handler) (host ctype uri : option cstr)
    (data : list ascii) (f : addr)
  : nng_rv * list http_handler * option http_static * list reg_event :=
  if negb (alloc_static env) then (Some NNG_ENOMEM, handlers, None, [])
  else
    let ctype :=
      match ctype with
      | None => lit "application/octet-stream"
      | Some c => c
      end in
    if negb (alloc_data env) || negb (dup_ctype env)
    then (Some NNG_ENOMEM, handlers, None, [Call_free (http_free_static b) f])
    else
      let h := {| hh_method := Some (lit "GET"); hh_path := uri;
                  hh_host := host; hh_is_dir := false;
                  hh_is_upgrader := false;
                  hh_cb := Some (http_handle_static b) |} in
      match http_server_add_handler_traced (static_add env) handlers h f
              (Some (http_free_static b)) with
      | (inl rv, evs) =>
          (Some rv, handlers, None, evs ++ [Call_free (http_free_static b) f])
      | (inr (handlers, _), evs) =>
          (None, handlers, Some {| s_typ := ctype; s_data := data |}, evs)
      end.

End Files.

(** ** Further vocabulary: content types and releases *)

(** The extension [x] cannot be taken for the extension [ext] that ends
    a path: it is not, up to case, a suffix of [ext], and [ext] is not,
    up to case, a proper suffix of it. *)
Definition separate (x ext : cstr) : bool :=
  if length x <=? length ext
  then negb (is_eq (nni_strcasecmp (skipn (length ext - length x) ext) x))
  else negb (is_eq (nni_strcasecmp (skipn (length x - length ext) x) ext)).

(** Every extension of the table is separate from those after it. *)
Fixpoint all_separate (map : list (cstr * cstr)) : bool :=
  match map with
  | [] => true
  | (x, _) :: rest =>
      forallb (fun e => separate x (fst e)) rest && all_separate rest
  end.

(** How many times the destructor [fn] is called on [arg]. *)
Definition frees (fn arg : addr) (evs : list Files.reg_event) : nat :=
  length (filter (fun e => match e with
                           | Files.Call_free fn' arg' =>
                               (fn' =? fn) && (arg' =? arg)
                           | _ => false
                           end) evs).

Definition all_succeed : Files.add_env :=
  {| Files.alloc_struct := true; Files.dup_host := true;
     Files.dup_method := true; Files.dup_path := true |}.

Definition demo_bundled : Files.bundled :=
  {| Files.http_handle_file := 10; Files.http_free_file := 11;
     Files.http_handle_static := 12; Files.http_free_static := 13 |}.

Definition demo_file_env : Files.file_env :=
  {| Files.alloc_file := true; Files.dup_pth := true;
     Files.dup_typ := true; Files.file_add := all_succeed |}.

Definition demo_static_env : Files.static_env :=
  {| Files.alloc_static := true; Files.alloc_data := true;
     Files.dup_ctype := true; Files.static_add := all_succeed |}.

Definition demo_get : http_handler :=
  {| h_arg := 0; h_path := lit "/x"; h_method := lit "GET";
     h_host := None; h_is_upgrader := false; h_is_dir := false;
     h_refcnt := 1; h_cb := 1; h_free := None |}.

(** ** Further vocabulary: TLS configurations *)

Section TlsVocabulary.
Context {codec : HttpMsg}.
Import Lifecycle.

(** A run of calls of [nni_http_server_set_tls], with all their events. *)
Fixpoint set_tls_all (NNG_SUPP_TLS : bool) (s : http_server)
    (cfgs : list (option addr)) : http_server * list event :=
  match cfgs with
  | [] => (s, [])
  | t :: rest =>
      let '(s', evs, _) := nni_http_server_set_tls NNG_SUPP_TLS s t in
      let '(s'', evs') := set_tls_all NNG_SUPP_TLS s' rest in
      (s'', evs ++ evs')
  end.

(** How many references to the configuration [c] are taken, and how
    many are given back. *)
Definition holds (c : addr) (evs : list event) : nat :=
  length (filter (fun e => match e with
                           | Tls_config_hold c' => c' =? c
                           | _ => false
                           end) evs).

Definition releases (c : addr) (evs : list event) : nat :=
  length (filter (fun e => match e with
                           | Tls_config_fini c' => c' =? c
                           | _ => false
                           end) evs).

(** The reference the server has on [c] through its [tls] field. *)
Definition bound (s : http_server) (c : addr) : nat :=
  match tls s with
  | Some c' => if c' =? c then 1 else 0
  | None => 0
  end.

End TlsVocabulary.

Definition demo_idle : @Lifecycle.http_server Plain.codec :=
  {| Lifecycle.core :=
       {| Server.refcnt := 1; Server.starts := 0;
          Server.handlers := [demo_root_record];
          Server.conns := [];
          Server.closed := false; Server.tep := false |};
     Lifecycle.url := Some (demo_url "https");
     Lifecycle.tls := Some 7 |}.

(** ** Further vocabulary: error answers *)

Section AnswerVocabulary.
Context {codec : HttpMsg}.

(** The response the codec builds for the error [status], carrying
    [Connection: close] when [closing] is set; [None] when the codec
    cannot build it. *)
Definition error_response (closing : bool) (status : N)
  : option nni_http_res :=
  r <- nni_http_res_init_error status ;;
  if closing then nni_http_res_set_header r (lit "Connection") (lit "close")
  else Some r.

End AnswerVocabulary.

(** The error responses of the plain codec. *)
Definition demo_error (status : N) (closing : bool) : Plain.response :=
  {| Plain.status := status;
     Plain.res_headers :=
       if closing then [(lit "Connection", lit "close")] else [];
     Plain.body := [] |}.

Definition demo_xyz : nni_http_handler :=
  {| hh_method := Some (lit "GET"); hh_path := Some (lit "/xyz");
     hh_host := None; hh_is_dir := false; hh_is_upgrader := false;
     hh_cb := Some 2 |}.

Definition demo_xyz_record : http_handler :=
  {| h_arg := 0; h_path := lit "/xyz"; h_method := lit "GET";
     h_host := None; h_is_upgrader := false; h_is_dir := false;
     h_refcnt := 1; h_cb := 2; h_free := None |}.

Definition demo_fresh_server : @Server.nni_http_server Plain.codec :=
  {| Server.refcnt := 1; Server.starts := 0; Server.handlers := [];
     Server.conns := [demo_open]; Server.closed := false;
     Server.tep := false |}.

(** ** Facts about the string functions *)

Lemma uchar_inj (x y : ascii) : uchar x = uchar y -> x = y.
Proof.
  unfold uchar. intros E.
  rewrite <- (ascii_N_embedding x), <- (ascii_N_embedding y).
  now rewrite E.
Qed.

Lemma uchar_compare_eq (x y : ascii) : (uchar x ?= uchar y)%N = Eq <-> x = y.
Proof.
  rewrite N.compare_eq_iff. split; [apply uchar_inj | now intros ->].
Qed.

Lemma strcmp_eq (a b : cstr) : strcmp a b = Eq <-> a = b.
Proof.
  revert b. induction a as [|x a IH]; intros [|y b]; simpl;
    try (split; [discriminate | discriminate || congruence]);
    try tauto.
  destruct (uchar x ?= uchar y)%N eqn:E.
  - apply uchar_compare_eq in E. subst y. rewrite IH.
    split; congruence.
  - split; [discriminate|]. intros [= -> _].
    rewrite N.compare_refl in E. discriminate.
  - split; [discriminate|]. intros [= -> _].
    rewrite N.compare_refl in E. discriminate.
Qed.

Lemma strncmp_eq (a b : cstr) (n : nat) :
  strncmp a b n = Eq <-> firstn n a = firstn n b.
Proof.
  revert a b. induction n as [|n IH]; intros a b; simpl; [split; reflexivity|].
  destruct a as [|x a], b as [|y b]; simpl;
    try (split; [discriminate | discriminate || congruence]);
    try tauto.
  destruct (uchar x ?= uchar y)%N eqn:E.
  - apply uchar_compare_eq in E. subst y. rewrite IH.
    split; congruence.
  - split; [discriminate|]. intros [= -> _].
    rewrite N.compare_refl in E. discriminate.
  - split; [discriminate|]. intros [= -> _].
    rewrite N.compare_refl in E. discriminate.
Qed.

Lemma is_eq_true (c : comparison) : is_eq c = true <-> c = Eq.
Proof. destruct c; simpl; split; congruence. Qed.

Lemma is_eq_strcmp (a b : cstr) : is_eq (strcmp a b) = true <-> a = b.
Proof. now rewrite is_eq_true, strcmp_eq. Qed.

Lemma is_eq_strcmp_false (a b : cstr) : is_eq (strcmp a b) = false <-> a <> b.
Proof.
  rewrite <- is_eq_strcmp. destruct (is_eq (strcmp a b)); split; congruence.
Qed.

Lemma is_eq_strncmp (a b : cstr) (n : nat) :
  is_eq (strncmp a b n) = true <-> firstn n a = firstn n b.
Proof. now rewrite is_eq_true, strncmp_eq. Qed.

Lemma is_eq_strcasecmp (a b : cstr) :
  is_eq (nni_strcasecmp a b) = true <-> same_nocase a b.
Proof. unfold nni_strcasecmp, same_nocase. apply is_eq_strcmp. Qed.

(** ** Facts about the registry *)

Lemma trim_slashes_snoc_slash (p : cstr) :
  trim_slashes (p ++ ["/"%char]) = trim_slashes p.
Proof.
  induction p as [|c p IH]; simpl; [reflexivity|].
  now rewrite IH.
Qed.

Lemma trim_slashes_snoc_other (p : cstr) (c : ascii) :
  c <> "/"%char -> trim_slashes (p ++ [c]) = p ++ [c].
Proof.
  intros Hc. induction p as [|x p IH]; simpl.
  - destruct (Ascii.eqb_spec c "/"); [contradiction | reflexivity].
  - rewrite IH. destruct p; reflexivity.
Qed.

Lemma chop_trim (p : cstr) : chop p (strlen p) = trim_slashes p.
Proof.
  unfold strlen. induction p as [|c p IH] using rev_ind; [reflexivity|].
  rewrite length_app, Nat.add_comm. simpl.
  unfold idx. rewrite nth_error_app2, Nat.sub_diag by lia. simpl.
  rewrite firstn_app, Nat.sub_diag, firstn_all, app_nil_r. simpl.
  destruct (Ascii.eqb_spec c "/") as [->|Hc].
  - now rewrite IH, trim_slashes_snoc_slash.
  - now rewrite trim_slashes_snoc_other.
Qed.

Lemma collides_spec (h h2 : http_handler) :
  collides h (strlen (h_path h)) h2 = true <->
  conflicts h2 (h_method h) (h_host h) (h_path h).
Proof.
  unfold collides, conflicts, common_prefix, strlen.
  assert (Hmin : (if length (h_path h) <? length (h_path h2)
                  then length (h_path h) else length (h_path h2))
                 = Nat.min (length (h_path h2)) (length (h_path h))).
  { destruct (Nat.ltb_spec (length (h_path h)) (length (h_path h2))); lia. }
  rewrite Hmin. clear Hmin.
  assert (Hrest :
    (if negb (is_eq (strcmp (h_method h2) (h_method h))) then false
     else is_eq (strncmp (h_path h2) (h_path h)
                   (Nat.min (length (h_path h2)) (length (h_path h)))))
    = true <->
    h_method h2 = h_method h /\
    firstn (Nat.min (length (h_path h2)) (length (h_path h))) (h_path h2) =
    firstn (Nat.min (length (h_path h2)) (length (h_path h))) (h_path h)).
  { destruct (is_eq (strcmp (h_method h2) (h_method h))) eqn:Em; simpl.
    - apply is_eq_strcmp in Em. rewrite is_eq_strncmp. tauto.
    - apply is_eq_strcmp_false in Em. split; [discriminate | tauto]. }
  destruct (h_host h2) as [x|], (h_host h) as [y|]; simpl;
    try (rewrite Hrest; tauto).
  destruct (is_eq (nni_strcasecmp x y)) eqn:Eh; simpl.
  - apply is_eq_strcasecmp in Eh. rewrite Hrest. tauto.
  - split; [discriminate|]. intros (_ & Hh & _).
    apply is_eq_strcasecmp in Hh. congruence.
Qed.

Lemma add_handler_unfold handlers hh arg freeit method path :
  valid_descriptor hh method path ->
  exists cb,
    hh_cb hh = Some cb /\
    http_server_add_handler true handlers hh arg freeit =
    let h := fresh_record hh method path cb arg freeit in
    if existsb (collides h (strlen (h_path h))) handlers
    then inl NNG_EADDRINUSE
    else inr (handlers ++ [with_refcnt h 1], with_refcnt h 1).
Proof.
  intros (Hm & Hp & Hcb & Hhead).
  destruct (hh_cb hh) as [cb|] eqn:Ecb; [|congruence].
  exists cb. split; [reflexivity|].
  unfold http_server_add_handler. rewrite Hm, Hp, Ecb.
  apply is_eq_strcmp_false in Hhead. rewrite Hhead. simpl.
  rewrite chop_trim. reflexivity.
Qed.

Lemma existsb_collides (h : http_handler) (handlers : list http_handler) :
  existsb (collides h (strlen (h_path h))) handlers = true <->
  exists h2, In h2 handlers /\
             conflicts h2 (h_method h) (h_host h) (h_path h).
Proof.
  rewrite existsb_exists.
  split; intros (h2 & Hin & Hc); exists h2; split; auto;
    now apply collides_spec.
Qed.

Lemma add_handler_eaddrinuse_iff handlers hh arg freeit method path :
  valid_descriptor hh method path ->
  (http_server_add_handler true handlers hh arg freeit = inl NNG_EADDRINUSE
   <->
   exists h2, In h2 handlers /\
              conflicts h2 method (hh_host hh) (trim_slashes path)).
Proof.
  intros Hv.
  destruct (add_handler_unfold handlers arg freeit Hv) as (cb & _ & Hadd).
  rewrite Hadd. cbv zeta.
  rewrite <- (existsb_collides (fresh_record hh method path cb arg freeit)).
  destruct (existsb _ handlers); split; congruence.
Qed.

(** C3.  For a descriptor that passes the validity test (and when the
    allocations succeed), [add] answers address-in-use exactly when some
    registered handler has the same method, a compatible host, and a path
    that agrees with the new, trimmed path on the first
    [min (len existing) (len new)] bytes.  In particular ["/ab"] is
    refused while ["/abc"] is registered with the same method and neither
    has a host. *)
Theorem add_handler_collision_rule
    (handlers : list http_handler) (hh : nni_http_handler)
    (arg : addr) (freeit : option addr) (method path : cstr) :
  valid_descriptor hh method path ->
  (http_server_add_handler true handlers hh arg freeit = inl NNG_EADDRINUSE
   <->
   exists h2, In h2 handlers /\
              conflicts h2 method (hh_host hh) (trim_slashes path))
  /\
  (forall h2, In h2 handlers ->
     h_method h2 = method -> h_host h2 = None -> hh_host hh = None ->
     h_path h2 = lit "/abc" -> path = lit "/ab" ->
     http_server_add_handler true handlers hh arg freeit
     = inl NNG_EADDRINUSE).
Proof.
  intros Hv.
  pose proof (add_handler_eaddrinuse_iff handlers arg freeit Hv) as Hiff.
  split; [exact Hiff|].
  intros h2 Hin Hm Hh2 Hh Hp2 Hp. apply Hiff.
  exists h2. split; [assumption|].
  unfold conflicts, host_compatible, common_prefix.
  rewrite Hm, Hh2, Hp2, Hp. repeat split.
Qed.

Lemma demo_ab_valid : valid_descriptor demo_ab (lit "GET") (lit "/ab").
Proof.
  repeat split; discriminate.
Defined.

Lemma add_handler_collision_rule_witness :
  http_server_add_handler true [demo_abc] demo_ab 0 None = inl NNG_EADDRINUSE.
Proof.
  apply (proj2 (add_handler_collision_rule [demo_abc] 0 None demo_ab_valid)
           demo_abc);
    solve [reflexivity | simpl; auto].
Defined.

(** C10.  A valid descriptor whose path is made of slashes only is stored
    with the empty path; from then on, as long as that record is in the
    registry, every valid [add] with the same method and a compatible host
    is refused with address-in-use. *)
Theorem add_slash_only_path
    (handlers hs : list http_handler) (hh : nni_http_handler)
    (arg : addr) (freeit : option addr) (method path : cstr)
    (h : http_handler) :
  valid_descriptor hh method path ->
  Forall (fun c => c = "/"%char) path ->
  http_server_add_handler true handlers hh arg freeit = inr (hs, h) ->
  h_path h = [] /\ In h hs /\
  forall later hh' arg' freeit' path',
    In h later ->
    valid_descriptor hh' method path' ->
    host_compatible (hh_host hh) (hh_host hh') ->
    http_server_add_handler true later hh' arg' freeit'
    = inl NNG_EADDRINUSE.
Proof.
  intros Hv Hall Hadd.
  destruct (add_handler_unfold handlers arg freeit Hv) as (cb & _ & Hun).
  rewrite Hun in Hadd. cbv zeta in Hadd.
  destruct (existsb _ handlers); [discriminate|].
  injection Hadd as <- <-.
  assert (Htrim : trim_slashes path = []).
  { clear -Hall. induction Hall as [|c p -> _ IH]; simpl; [reflexivity|].
    now rewrite IH. }
  split; [exact Htrim|].
  split; [apply in_or_app; right; left; reflexivity|].
  intros later hh' arg' freeit' path' Hin Hv' Hhost.
  apply (add_handler_eaddrinuse_iff later arg' freeit' Hv').
  eexists. split; [exact Hin|].
  unfold conflicts, common_prefix. simpl. rewrite Htrim.
  repeat split. exact Hhost.
Qed.

Lemma demo_root_valid : valid_descriptor demo_root (lit "GET") (lit "/").
Proof.
  repeat split; discriminate.
Defined.

Lemma add_slash_only_path_witness :
  http_server_add_handler true [demo_root_record] demo_ab 7 None
  = inl NNG_EADDRINUSE.
Proof.
  refine (proj2 (proj2 (@add_slash_only_path [] [demo_root_record] demo_root
            0 None (lit "GET") (lit "/") demo_root_record demo_root_valid
            _ _)) [demo_root_record] demo_ab 7 None (lit "/ab") _ demo_ab_valid _).
  - repeat constructor.
  - reflexivity.
  - simpl. auto.
  - exact I.
Defined.

(** ** Facts about the canonifier *)

Lemma poke_length b i c b' : poke b i c = Some b' -> length b' = length b.
Proof.
  assert (H : i < length b ->
              length (firstn i b ++ c :: skipn (S i) b) = length b).
  { intros Hi. rewrite length_app. cbn [length].
    rewrite length_firstn, length_skipn. lia. }
  unfold poke. destruct (Nat.ltb_spec i (length b)); [|discriminate].
  intros [= <-]. auto.
Qed.

Lemma peek_mid (pre : list ascii) c t : peek (pre ++ c :: t) (length pre) = Some c.
Proof.
  unfold peek. rewrite nth_error_app2, Nat.sub_diag by lia. reflexivity.
Qed.

Lemma poke_peek (b : buffer) i c : peek b i = Some c -> poke b i c = Some b.
Proof.
  intros Hp.
  pose proof (firstn_skipn_middle i b Hp) as Hmid.
  assert (Hi : i < length b) by (apply nth_error_Some; unfold peek in Hp; congruence).
  unfold poke. destruct (Nat.ltb_spec i (length b)); [|lia].
  f_equal. exact Hmid.
Qed.

Lemma poke_same (pre : list ascii) c t :
  poke (pre ++ c :: t) (length pre) c = Some (pre ++ c :: t).
Proof. apply poke_peek, peek_mid. Qed.

(** The fuel handed to the loop never runs out before the cursor leaves
    the buffer: more fuel changes nothing. *)
Lemma unescape_fuel_enough (fuel k : nat) :
  forall b tmp dst,
    length b <= tmp + fuel ->
    unescape (fuel + k) b tmp dst = unescape fuel b tmp dst.
Proof.
  induction fuel as [|fuel IH]; intros b tmp dst Hlen.
  - simpl. destruct k; [reflexivity|]. simpl.
    unfold peek. replace (nth_error b tmp) with (@None ascii); [reflexivity|].
    symmetry. apply nth_error_None. lia.
  - simpl.
    destruct (peek b tmp) as [c|]; simpl; [|reflexivity].
    destruct (Ascii.eqb c NUL); [reflexivity|].
    destruct (negb (Ascii.eqb c "%")).
    + destruct (poke b dst c) as [b1|] eqn:E1; simpl; [|reflexivity].
      apply IH. rewrite (poke_length _ _ _ E1). lia.
    + destruct (peek b (tmp + 1)) as [x1|]; simpl; [|reflexivity].
      destruct (if isxdigit x1 then peek b (tmp + 2) else Some NUL)
        as [x2|]; simpl; [|reflexivity].
      destruct (isxdigit x1 && isxdigit x2); simpl.
      * destruct (poke b dst _) as [b1|] eqn:E1; simpl; [|reflexivity].
        destruct (poke b1 (dst + 1) _) as [b2|] eqn:E2; simpl; [|reflexivity].
        apply IH.
        rewrite (poke_length _ _ _ E2), (poke_length _ _ _ E1). lia.
      * destruct (poke b dst c) as [b1|] eqn:E1; simpl; [|reflexivity].
        apply IH. rewrite (poke_length _ _ _ E1). lia.
Qed.

Lemma until_nul_no_nul l s : until_nul l = Some s -> no_nul s.
Proof.
  revert s. induction l as [|x l IH]; intros s; simpl; [discriminate|].
  destruct (Ascii.eqb_spec x NUL) as [->|Hx].
  - intros [= <-]. constructor.
  - destruct (until_nul l) as [s'|]; simpl; [|discriminate].
    intros [= <-]. constructor; auto. now apply IH.
Qed.

Lemma until_nul_app s t : no_nul s -> until_nul (s ++ NUL :: t) = Some s.
Proof.
  induction 1 as [|x s Hx _ IH]; simpl; [reflexivity|].
  destruct (Ascii.eqb_spec x NUL); [contradiction|].
  now rewrite IH.
Qed.

Lemma strchr_absent s c : c <> NUL -> ~ In c s -> strchr s c = None.
Proof.
  intros Hc. induction s as [|x s IH]; simpl; intros Hin.
  - destruct (Ascii.eqb_spec c NUL); [contradiction | reflexivity].
  - destruct (Ascii.eqb_spec x c) as [->|Hx]; [tauto|].
    rewrite IH by tauto. reflexivity.
Qed.

Lemma unescape_plain (rest : cstr) :
  forall pre fuel,
    no_nul rest -> has_escape rest = false -> length rest < fuel ->
    unescape fuel (pre ++ rest ++ [NUL]) (length pre) (length pre)
    = Some (pre ++ rest ++ [NUL]).
Proof.
  induction rest as [|c r IH]; intros pre fuel Hn He Hf.
  - destruct fuel; [lia|]. simpl. rewrite peek_mid. simpl.
    apply poke_same.
  - destruct fuel; [lia|]. simpl in Hf.
    inversion Hn as [|? ? Hc Hn']; subst.
    simpl in He. apply orb_false_iff in He. destruct He as [He1 He2].
    assert (Hnext :
      unescape fuel (pre ++ (c :: r) ++ [NUL]) (length pre + 1) (length pre + 1)
      = Some (pre ++ (c :: r) ++ [NUL])).
    { replace (pre ++ (c :: r) ++ [NUL]) with ((pre ++ [c]) ++ r ++ [NUL])
        by (rewrite <- app_assoc; reflexivity).
      replace (length pre + 1) with (length (pre ++ [c]))
        by (rewrite length_app; reflexivity).
      apply IH; auto. lia. }
    cbn [unescape]. simpl app. rewrite peek_mid. cbn [obind].
    destruct (Ascii.eqb_spec c NUL) as [|_]; [contradiction|].
    destruct (Ascii.eqb_spec c "%") as [->|Hp]; cbn [negb].
    + assert (Hx1 : exists x1, peek (pre ++ "%"%char :: r ++ [NUL])
                                 (length pre + 1) = Some x1 /\
                               hd NUL (r ++ [NUL]) = x1).
      { unfold peek. rewrite nth_error_app2 by lia.
        replace (length pre + 1 - length pre) with 1 by lia.
        destruct r; simpl; eauto. }
      destruct Hx1 as (x1 & -> & Hx1). cbn [obind].
      assert (Hcond :
        exists x2,
          (if isxdigit x1
           then peek (pre ++ "%"%char :: r ++ [NUL]) (length pre + 2)
           else Some NUL) = Some x2 /\
          isxdigit x1 && isxdigit x2 = false).
      { destruct (isxdigit x1) eqn:Ex1; [|exists NUL; auto].
        unfold peek. rewrite nth_error_app2 by lia.
        replace (length pre + 2 - length pre) with 2 by lia.
        destruct r as [|y1 [|y2 r']]; simpl in *; subst.
        - discriminate.
        - exists NUL. auto.
        - exists y2. split; [reflexivity|].
          rewrite Ex1 in He1. simpl in He1. exact He1. }
      destruct Hcond as (x2 & -> & Hc2). cbn [obind]. rewrite Hc2. cbn [obind].
      rewrite poke_same. cbn [obind]. exact Hnext.
    + rewrite poke_same. cbn [obind]. exact Hnext.
Qed.

Lemma canonify_uri_no_nul (u p : cstr) : canonify_uri u = Some p -> no_nul p.
Proof.
  unfold canonify_uri.
  destruct (http_uri_canonify (u ++ [NUL])) as [[|b off]|]; simpl;
    try discriminate.
  - intros [= <-]. repeat constructor; discriminate.
  - apply until_nul_no_nul.
Qed.

Lemma canonify_uri_plain (p : cstr) :
  no_nul p -> plain_path p -> canonify_uri p = Some p.
Proof.
  intros Hn (Hq & Habs & Hesc).
  assert (Hstr : c_str (p ++ [NUL]) 0 = Some p)
    by (unfold c_str; simpl; now apply until_nul_app).
  unfold canonify_uri, http_uri_canonify.
  rewrite Hstr. cbn [obind].
  rewrite (strchr_absent p) by (auto; discriminate).
  cbn [obind]. rewrite Hstr. cbn [obind].
  rewrite Habs. cbn [obind].
  pose proof (@unescape_plain p [] (length (p ++ [NUL])) Hn Hesc) as Hun.
  cbn [app length] in Hun. rewrite Hun
    by (rewrite length_app; simpl; lia).
  cbn [obind deref app]. exact Hstr.
Qed.

(** One turn of the loop at a well-formed escape: the decoded byte is
    stored at [dst] and again at [dst + 1], and [tmp] moves by four. *)
Lemma unescape_escape_turn (fuel : nat) (b : buffer) (tmp dst : nat)
    (x1 x2 : ascii) :
  peek b tmp = Some "%"%char ->
  peek b (tmp + 1) = Some x1 -> peek b (tmp + 2) = Some x2 ->
  isxdigit x1 = true -> isxdigit x2 = true ->
  unescape (S fuel) b tmp dst =
  let c := char_of_N (uchar (char_of_N (uchar (http_hexval x1) * 16))
                      + uchar (http_hexval x2)) in
  b1 <- poke b dst c ;;
  b2 <- poke b1 (dst + 1) c ;;
  unescape fuel b2 (tmp + 3 + 1) (dst + 1 + 1).
Proof.
  intros H0 H1 H2 Hx1 Hx2. cbn [unescape].
  rewrite H0. cbn [obind]. cbn [Ascii.eqb Bool.eqb NUL Ascii.zero negb].
  cbn [andb]. rewrite H1. cbn [obind]. rewrite Hx1, H2. cbn [obind].
  rewrite Hx2. cbn [andb].
  destruct (poke b dst _); reflexivity.
Qed.

(** C1.  The code at the failing input: on ["/%41bc"] the decoded byte is
    stored twice and four bytes of input are used up, so the result is
    ["/AAc"] where URL decoding gives ["/Abc"]; when the escape ends the
    string the read cursor steps over the terminator and leaves the
    buffer.  A [%] that starts no escape is copied as it is. *)
Theorem canonify_escape_stored_twice :
  canonify_uri (lit "/%41bc") = Some (lit "/AAc") /\
  canonify_uri (lit "/%41") = None /\
  canonify_uri (lit "/a%zzb%4") = Some (lit "/a%zzb%4").
Proof. repeat split; vm_compute; reflexivity. Qed.

(** C8, as stated, fails.  Decoding can produce a question mark, an
    escape or a scheme prefix, each of which a second pass reads as
    syntax: ["/a%3Fb"] gives ["/a??"] and then ["/a"]; ["/%25x41y"] gives
    ["/%%41y"] and then ["/%AA"]; ["h%74tp://a/b"] gives ["http://a/b"]
    and then ["/b"]. *)
Lemma canonify_not_idempotent :
  (canonify_uri (lit "/a%3Fb") = Some (lit "/a??") /\
   canonify_uri (lit "/a??") = Some (lit "/a") /\
   lit "/a??" <> lit "/a")
  /\
  (canonify_uri (lit "/%25x41y") = Some (lit "/%%41y") /\
   canonify_uri (lit "/%%41y") = Some (lit "/%AA") /\
   lit "/%%41y" <> lit "/%AA")
  /\
  (canonify_uri (lit "h%74tp://a/b") = Some (lit "http://a/b") /\
   canonify_uri (lit "http://a/b") = Some (lit "/b") /\
   lit "http://a/b" <> lit "/b").
Proof.
  repeat split; try (vm_compute; reflexivity); discriminate.
Qed.

(** C8, amended.  A canonified path that contains no question mark, no
    [%] followed by two hexadecimal digits, and no leading [http://] or
    [https://] is left unchanged by a second pass. *)
Theorem canonify_idempotent_on_plain (u p : cstr) :
  canonify_uri u = Some p -> plain_path p -> canonify_uri p = Some p.
Proof.
  intros Hu Hp. apply canonify_uri_plain; [|exact Hp].
  exact (canonify_uri_no_nul u Hu).
Qed.

Lemma canonify_idempotent_on_plain_witness :
  canonify_uri (lit "/a/b") = Some (lit "/a/b").
Proof.
  apply (@canonify_idempotent_on_plain (lit "HTTP://host:80/a/b?q=1") (lit "/a/b")).
  - vm_compute. reflexivity.
  - repeat split.
    + simpl. intros H. repeat (destruct H as [H|H]; [discriminate|]). exact H.
Defined.

(** ** Facts about handler lookup *)

Lemma firstn_prefix_iff (hp path : cstr) :
  firstn (length hp) path = firstn (length hp) hp <->
  exists rest, path = hp ++ rest.
Proof.
  rewrite firstn_all. split.
  - intros H. exists (skipn (length hp) path).
    rewrite <- H at 1. symmetry. apply firstn_skipn.
  - intros (rest & ->).
    rewrite firstn_app, Nat.sub_diag, firstn_all. simpl.
    apply app_nil_r.
Qed.

Lemma path_ok_app (h : http_handler) (rest : cstr) :
  path_ok (h_path h ++ rest) h =
  match rest with
  | [] => true
  | c :: r =>
      if Ascii.eqb c "/" then
        match r with
        | [] => true
        | _ :: _ => h_is_dir h
        end
      else false
  end.
Proof.
  unfold path_ok, strlen, idx.
  assert (E : is_eq (strncmp (h_path h ++ rest) (h_path h) (length (h_path h)))
              = true).
  { apply is_eq_strncmp, firstn_prefix_iff. now exists rest. }
  rewrite E. cbn [negb].
  rewrite !nth_error_app2 by lia.
  replace (length (h_path h) - length (h_path h)) with 0 by lia.
  replace (length (h_path h) + 1 - length (h_path h)) with 1 by lia.
  destruct rest as [|c [|c' r]]; reflexivity.
Qed.

Lemma path_ok_prefix (path : cstr) (h : http_handler) :
  path_ok path h = true -> exists rest, path = h_path h ++ rest.
Proof.
  unfold path_ok, strlen.
  destruct (is_eq (strncmp path (h_path h) (length (h_path h)))) eqn:E;
    [|discriminate].
  intros _. now apply firstn_prefix_iff, is_eq_strncmp.
Qed.

(** C4.  A handler path matches the request path exactly when the request
    path is the handler path followed by nothing, by a lone slash, or (for
    a directory handler only) by a slash and further bytes.  With
    [is_dir], ["/static"] matches ["/static/foo"]; it never matches
    ["/staticx"]. *)
Theorem path_match_rule (path : cstr) (h : http_handler) :
  (path_ok path h = true <->
   exists rest,
     path = h_path h ++ rest /\
     (rest = [] \/ rest = lit "/" \/
      (h_is_dir h = true /\ exists c r, rest = "/"%char :: c :: r)))
  /\ (h_path h = lit "/static" -> h_is_dir h = true ->
      path_ok (lit "/static/foo") h = true)
  /\ (h_path h = lit "/static" -> path_ok (lit "/staticx") h = false).
Proof.
  split; [split|split].
  - intros Hok. destruct (path_ok_prefix path h Hok) as (rest & ->).
    exists rest. split; [reflexivity|].
    rewrite path_ok_app in Hok.
    destruct rest as [|c r]; [now left|].
    destruct (Ascii.eqb_spec c "/") as [->|]; [|discriminate].
    destruct r as [|c' r]; [right; now left|].
    right; right. eauto.
  - intros (rest & -> & Hcase). rewrite path_ok_app.
    destruct Hcase as [->|[->|(Hdir & c & r & ->)]]; auto.
  - intros Hp Hdir.
    change (lit "/static/foo") with (lit "/static" ++ lit "/foo").
    rewrite <- Hp, path_ok_app. exact Hdir.
  - intros Hp.
    change (lit "/staticx") with (lit "/static" ++ lit "x").
    rewrite <- Hp, path_ok_app. reflexivity.
Qed.

Lemma path_match_rule_witness :
  path_ok (lit "/static/foo")
    {| h_arg := 0; h_path := lit "/static"; h_method := lit "GET";
       h_host := None; h_is_upgrader := false; h_is_dir := true;
       h_refcnt := 1; h_cb := 1; h_free := None |} = true.
Proof.
  apply (proj1 (proj2 (path_match_rule (lit "/static/foo") _)));
    reflexivity.
Defined.

Section LookupFacts.
Context {codec : HttpMsg}.

Lemma try_handler_hit rq path h :
  try_handler rq path h = Hit <->
  host_ok rq h = true /\ path_ok path h = true /\ method_ok rq h = true.
Proof.
  unfold try_handler.
  destruct (host_ok rq h), (path_ok path h), (method_ok rq h); simpl;
    intuition congruence.
Qed.

Lemma try_handler_badmeth rq path h :
  try_handler rq path h = Badmeth <-> wrong_method_only rq path h.
Proof.
  unfold try_handler, wrong_method_only.
  destruct (host_ok rq h), (path_ok path h), (method_ok rq h); simpl;
    intuition congruence.
Qed.

Lemma lookup_none rq path hs :
  forall i bm,
    fst (lookup rq path hs i bm) = None <->
    forall h, In h hs -> try_handler rq path h <> Hit.
Proof.
  induction hs as [|h hs IH]; intros i bm; simpl.
  - split; [intros _ h [] | reflexivity].
  - destruct (try_handler rq path h) eqn:E; simpl.
    + rewrite IH. split.
      * intros H h' [<-|Hin]; [congruence | auto].
      * intros H h' Hin. apply H. now right.
    + split; [discriminate|]. intros H. exfalso. apply (H h); auto.
    + rewrite IH. split.
      * intros H h' [<-|Hin]; [congruence | auto].
      * intros H h' Hin. apply H. now right.
Qed.

Lemma lookup_badmeth rq path hs :
  forall i bm,
    fst (lookup rq path hs i bm) = None ->
    (snd (lookup rq path hs i bm) = true <->
     bm = true \/ exists h, In h hs /\ wrong_method_only rq path h).
Proof.
  induction hs as [|h hs IH]; intros i bm; simpl.
  - intros _. split; [now left|]. intros [H|(h & [] & _)]. exact H.
  - destruct (try_handler rq path h) eqn:E; simpl.
    + intros Hn. rewrite (IH _ _ Hn). split.
      * intros [H|(h' & Hin & Hw)]; [now left|]. right. exists h'. auto.
      * intros [H|(h' & [<-|Hin] & Hw)]; [now left| |right; eauto].
        apply try_handler_badmeth in Hw. congruence.
    + discriminate.
    + intros Hn. rewrite (IH _ _ Hn). split.
      * intros _. right. exists h. split; [now left|].
        now apply try_handler_badmeth.
      * intros _. now left.
Qed.

Lemma lookup_first_hit rq path pre h post :
  forall i bm,
    (forall h', In h' pre -> try_handler rq path h' <> Hit) ->
    try_handler rq path h = Hit ->
    exists bm', lookup rq path (pre ++ h :: post) i bm
                = (Some (i + length pre, h), bm').
Proof.
  induction pre as [|x pre IH]; intros i bm Hpre Hh; simpl.
  - rewrite Hh. exists bm. now rewrite Nat.add_0_r.
  - assert (Hx : try_handler rq path x <> Hit) by (apply Hpre; now left).
    assert (Hrest : forall h', In h' pre -> try_handler rq path h' <> Hit)
      by (intros h' Hin; apply Hpre; now right).
    destruct (try_handler rq path x); [|congruence|].
    + destruct (IH (S i) bm Hrest Hh) as (bm' & ->).
      exists bm'. do 2 f_equal. f_equal. lia.
    + destruct (IH (S i) true Hrest Hh) as (bm' & ->).
      exists bm'. do 2 f_equal. f_equal. lia.
Qed.

End LookupFacts.

(** ** Facts about the session callbacks *)

Section SessionFacts.
Context {codec : HttpMsg}.

Lemma close_locked_flags (sc : http_sconn) :
  close (fst (http_sconn_close_locked sc)) = close sc /\
  Session.closed (fst (http_sconn_close_locked sc)) = true.
Proof.
  unfold http_sconn_close_locked.
  destruct (Session.closed sc) eqn:E; simpl; auto.
Qed.

Lemma http_sconn_error_close (sc : http_sconn) (err : N) :
  close (fst (http_sconn_error sc err)) = close sc.
Proof.
  unfold http_sconn_error.
  destruct (nni_http_res_init_error err) as [r|].
  - destruct (close sc) eqn:E.
    + destruct (nni_http_res_set_header r _ _); simpl; auto.
      unfold http_sconn_close.
      destruct (http_sconn_close_locked sc) as [sc' a] eqn:Ec. simpl.
      pose proof (close_locked_flags sc) as [H _].
      rewrite Ec in H. simpl in H. congruence.
    + simpl. exact E.
  - apply close_locked_flags.
Qed.

(** What [http_sconn_error] posts when the codec succeeds: the error
    response for [err], carrying Connection: close when the close flag
    is set. *)
Lemma http_sconn_error_posts (sc : http_sconn) (err : N) (r : nni_http_res) :
  nni_http_res_init_error err = Some r ->
  (close sc = false ->
   http_sconn_error sc err = (set_res sc (Some r), [Write_res r])) /\
  (close sc = true ->
   forall r',
     nni_http_res_set_header r (lit "Connection") (lit "close") = Some r' ->
     http_sconn_error sc err = (set_res sc (Some r'), [Write_res r'])).
Proof.
  intros Hr. unfold http_sconn_error. rewrite Hr.
  split; intros Hc; rewrite Hc; [reflexivity|].
  intros r' ->. reflexivity.
Qed.

Lemma rx_close_flag_close (rq : nni_http_req) (val : cstr) (sc : http_sconn) :
  close (rx_close_flag rq val sc) =
  close sc || negb (is_eq (strcmp val (lit "HTTP/1.1"))) || wants_close rq.
Proof.
  unfold rx_close_flag, wants_close.
  destruct (nni_http_req_get_header rq (lit "Connection")) as [v|];
    [destruct (nni_strcasestr v (lit "close"))|];
    destruct (is_eq (strcmp val (lit "HTTP/1.1")));
    cbn [negb close set_close];
    rewrite ?orb_true_r, ?orb_false_r; reflexivity.
Qed.

Lemma rx_dispatch_close env hs rq sc hs' sc' acts :
  rx_dispatch env hs rq sc = Some (hs', (sc', acts)) ->
  close sc' = close sc.
Proof.
  unfold rx_dispatch.
  destruct (rx_alloc env); simpl.
  - destruct (canonify_uri (nni_http_req_get_uri rq)) as [path|]; simpl;
      [|discriminate].
    destruct (lookup rq path hs 0 false) as [[[i h]|] bm].
    + destruct (rx_aio_start env); intros [= _ <- _]; reflexivity.
    + destruct bm; intros [= _ H].
      * pose proof (http_sconn_error_close sc NNI_HTTP_STATUS_METHOD_NOT_ALLOWED) as E.
        rewrite H in E. exact E.
      * pose proof (http_sconn_error_close sc NNI_HTTP_STATUS_NOT_FOUND) as E.
        rewrite H in E. exact E.
  - intros [= _ H].
    pose proof (close_locked_flags sc) as [E _].
    unfold http_sconn_close in H. rewrite H in E. exact E.
Qed.

Lemma rx_dispatch_total env hs rq sc path :
  canonify_uri (nni_http_req_get_uri rq) = Some path ->
  exists hs' sc' acts, rx_dispatch env hs rq sc = Some (hs', (sc', acts)).
Proof.
  intros Hp. unfold rx_dispatch. rewrite Hp.
  destruct (rx_alloc env); simpl.
  - destruct (lookup rq path hs 0 false) as [[[i h]|] bm].
    + destruct (rx_aio_start env); eauto.
    + destruct bm.
      * destruct (http_sconn_error sc NNI_HTTP_STATUS_METHOD_NOT_ALLOWED); eauto.
      * destruct (http_sconn_error sc NNI_HTTP_STATUS_NOT_FOUND); eauto.
  - destruct (http_sconn_close sc); eauto.
Qed.

Lemma rxdone_valid_version env hs sc rq v :
  rx_result env = None -> req sc = Some rq ->
  nni_http_req_get_version rq = Some v ->
  firstn 7 v = lit "HTTP/1." ->
  http_sconn_rxdone env hs sc = rx_dispatch env hs rq (rx_close_flag rq v sc).
Proof.
  intros Hrv Hrq Hv Hpre. unfold http_sconn_rxdone.
  rewrite Hrv, Hrq. cbn [rv_ok negb obind]. rewrite Hv.
  assert (E : is_eq (strncmp v (lit "HTTP/1.") 7) = true)
    by (apply is_eq_strncmp; exact Hpre).
  rewrite E. reflexivity.
Qed.

(** What [http_sconn_error] does when the codec builds the response:
    the response becomes the session's and its write is posted. *)
Lemma http_sconn_error_answer (sc : http_sconn) (err : N)
    (r : nni_http_res) :
  error_response (close sc) err = Some r ->
  http_sconn_error sc err = (set_res sc (Some r), [Write_res r]).
Proof.
  unfold error_response, http_sconn_error.
  destruct (nni_http_res_init_error err) as [r0|]; cbn [obind];
    [|discriminate].
  destruct (close sc).
  - intros ->. reflexivity.
  - intros [= ->]. reflexivity.
Qed.


(** What dispatching comes to once the URI is canonified: the handler
    that lookup returns is started with one more reference, and when
    lookup returns none the 405 or 404 answer is written. *)
Lemma rx_dispatch_cases env hs rq sc path :
  rx_alloc env = true ->
  canonify_uri (nni_http_req_get_uri rq) = Some path ->
  (forall i h,
     fst (lookup rq path hs 0 false) = Some (i, h) ->
     rx_aio_start env = true ->
     rx_dispatch env hs rq sc
     = Some (hold hs i, (sc, [Run_handler (h_cb h) (h_arg h)])))
  /\
  (fst (lookup rq path hs 0 false) = None ->
   forall r,
     error_response (close sc)
       (if snd (lookup rq path hs 0 false) then 405 else 404)%N = Some r ->
     rx_dispatch env hs rq sc
     = Some (hs, (set_res sc (Some r), [Write_res r]))).
Proof.
  intros Ha Hp. unfold rx_dispatch. rewrite Ha, Hp. cbn [negb obind].
  destruct (lookup rq path hs 0 false) as [[[i0 h0]|] bm]; cbn [fst snd].
  - split; [|discriminate]. intros i h [= <- <-] Hs. now rewrite Hs.
  - split; [discriminate|]. intros _ r Hr.
    destruct bm;
      exact (f_equal (fun o => Some (hs, o))
               (@http_sconn_error_answer sc _ r Hr)).
Qed.


End SessionFacts.

Section DispatchFacts.
Context {codec : HttpMsg}.

Lemma rx_dispatch_no_match env hs rq sc path :
  rx_alloc env = true ->
  canonify_uri (nni_http_req_get_uri rq) = Some path ->
  (forall h, In h hs -> try_handler rq path h <> Hit) ->
  rx_dispatch env hs rq sc =
  Some (hs, http_sconn_error sc
              (if snd (lookup rq path hs 0 false)
               then NNI_HTTP_STATUS_METHOD_NOT_ALLOWED
               else NNI_HTTP_STATUS_NOT_FOUND)).
Proof.
  intros Ha Hp Hno. unfold rx_dispatch. rewrite Ha, Hp. cbn [negb obind].
  apply (lookup_none rq path hs 0 false) in Hno.
  destruct (lookup rq path hs 0 false) as [[[i h]|] bm]; simpl in *;
    [discriminate|].
  destruct bm; reflexivity.
Qed.

(** C7.  When no handler matches a validated request, the session
    answers with the codec's response for the status: that response
    (carrying [Connection: close] when the close flag is set) becomes
    the session's response and its write is posted.  The status is 405
    if some handler passed the host and path tests and failed only the
    method test, and 404 if no handler passed the host and path tests.
    A GET for a path registered for POST only is answered 405. *)
Theorem no_match_status (env : rx_env) (hs : list http_handler)
    (sc : http_sconn) (rq : nni_http_req) (v path : cstr) :
  rx_result env = None -> rx_alloc env = true ->
  req sc = Some rq ->
  nni_http_req_get_version rq = Some v -> firstn 7 v = lit "HTTP/1." ->
  canonify_uri (nni_http_req_get_uri rq) = Some path ->
  (forall h, In h hs -> try_handler rq path h <> Hit) ->
  ((exists h, In h hs /\ wrong_method_only rq path h) ->
   forall r,
     error_response (close (rx_close_flag rq v sc)) 405 = Some r ->
     http_sconn_rxdone env hs sc
     = Some (hs, (set_res (rx_close_flag rq v sc) (Some r), [Write_res r])))
  /\
  ((forall h, In h hs -> host_ok rq h && path_ok path h = false) ->
   forall r,
     error_response (close (rx_close_flag rq v sc)) 404 = Some r ->
     http_sconn_rxdone env hs sc
     = Some (hs, (set_res (rx_close_flag rq v sc) (Some r), [Write_res r])))
  /\
  (forall h, hs = [h] ->
     h_method h = lit "POST" -> h_host h = None -> h_path h = path ->
     nni_http_req_get_method rq = lit "GET" ->
     forall r,
       error_response (close (rx_close_flag rq v sc)) 405 = Some r ->
       http_sconn_rxdone env hs sc
       = Some (hs, (set_res (rx_close_flag rq v sc) (Some r),
                    [Write_res r]))).
Proof.
  intros Hrv Ha Hrq Hv Hpre Hp Hno.
  pose proof (rxdone_valid_version env hs sc Hrv Hrq Hv Hpre) as Hrx.
  rewrite Hrx.
  pose proof (proj2 (lookup_none rq path hs 0 false) Hno) as Hnone.
  pose proof (lookup_badmeth rq path hs 0 false Hnone) as Hbm.
  destruct (@rx_dispatch_cases _ env hs rq (rx_close_flag rq v sc) path Ha Hp)
    as [_ Hmiss].
  specialize (Hmiss Hnone).
  assert (H405 : (exists h, In h hs /\ wrong_method_only rq path h) ->
                 snd (lookup rq path hs 0 false) = true).
  { intros Hex. apply Hbm. now right. }
  split; [|split].
  - intros Hex r Hr. apply Hmiss. now rewrite (H405 Hex).
  - intros Hall r Hr. apply Hmiss.
    destruct (snd (lookup rq path hs 0 false)) eqn:E; [|exact Hr].
    destruct (proj1 Hbm eq_refl) as [F|(h & Hin & Hh & Hpth & _)];
      [discriminate|].
    specialize (Hall h Hin). rewrite Hh, Hpth in Hall. discriminate.
  - intros h -> Hm Hh Hpath Hget r Hr. apply Hmiss.
    rewrite H405; [exact Hr|].
    exists h. split; [now left|].
    unfold wrong_method_only, host_ok, method_ok.
    rewrite Hh, Hm, Hget. repeat split.
    rewrite <- Hpath, <- (app_nil_r (h_path h)) at 1.
    now rewrite path_ok_app.
Qed.

(** C6.  For a HEAD request: a GET handler passes the method test (as
    does a handler whose method is equal to the request's), so the first
    such handler that passes the host and path tests is the one lookup
    returns; and once the response headers are written, no body write is
    posted whatever the response holds: the session closes if its close
    flag is set and otherwise goes on to read the next request. *)
Theorem head_request_rule (rq : nni_http_req) :
  nni_http_req_get_method rq = lit "HEAD" ->
  (forall h, h_method h = lit "GET" \/ h_method h = lit "HEAD" ->
     method_ok rq h = true)
  /\
  (forall path pre h post,
     h_method h = lit "GET" ->
     host_ok rq h = true -> path_ok path h = true ->
     (forall h', In h' pre -> try_handler rq path h' <> Hit) ->
     fst (lookup rq path (pre ++ h :: post) 0 false)
     = Some (length pre, h))
  /\
  (forall sc, req sc = Some rq ->
     http_sconn_txdone None sc
     = Some (if close sc then http_sconn_close sc
             else andthen (drop_res sc) read_next)
     /\
     (forall sc' acts data,
        http_sconn_txdone None sc = Some (sc', acts) ->
        ~ In (Write_full data) acts)
     /\
     (close sc = false ->
      exists sc' acts,
        http_sconn_txdone None sc = Some (sc', acts) /\
        In Read_req acts /\ ~ In Reap acts /\ ~ In Http_close acts /\
        Session.closed sc' = Session.closed sc /\ close sc' = false)).
Proof.
  intros Hhead.
  assert (Hm : forall h, h_method h = lit "GET" \/ h_method h = lit "HEAD" ->
                         method_ok rq h = true).
  { intros h [Hg|Hh]; unfold method_ok; rewrite Hhead.
    - rewrite Hg. reflexivity.
    - rewrite Hh. reflexivity. }
  split; [exact Hm|]. split.
  - intros path pre h post Hg Hhost Hpath Hpre.
    assert (Hhit : try_handler rq path h = Hit).
    { apply try_handler_hit. repeat split; auto. }
    destruct (lookup_first_hit rq path pre h post 0 false Hpre Hhit)
      as (bm' & ->).
    reflexivity.
  - intros sc Hrq.
    assert (Htx : http_sconn_txdone None sc
                  = Some (if close sc then http_sconn_close sc
                          else andthen (drop_res sc) read_next)).
    { unfold http_sconn_txdone. cbn [rv_ok negb]. rewrite Hrq.
      cbn [obind]. rewrite Hhead.
      replace (is_eq (strcmp (lit "HEAD") (lit "HEAD"))) with true
        by reflexivity.
      cbn [obind length Nat.eqb negb].
      destruct (close sc); reflexivity. }
    split; [exact Htx|]. rewrite Htx. split.
    + intros sc' acts data [= H].
      unfold http_sconn_close, http_sconn_close_locked, andthen, drop_res,
        read_next in H.
      destruct (close sc), (Session.closed sc), (http sc), (res sc);
        injection H as <- <-; simpl; intuition discriminate.
    + intros Hc. rewrite Hc.
      unfold andthen, drop_res, read_next.
      destruct (res sc); do 2 eexists; (split; [reflexivity|]);
        simpl; rewrite ?Hc; intuition discriminate.
Qed.

(** C2, at the failing input.  A handler's response whose Connection
    header reads ["Close"] contains ["close"] when letters are compared
    without regard to case, yet the session (whose close flag is clear)
    leaves its close flag clear and posts the response as it is: the
    comparison in [http_sconn_cbdone] is [strstr], which tells the cases
    apart. *)
Theorem cbdone_connection_case (h : http_handler) (r : nni_http_res)
    (sc : http_sconn) :
  nni_http_res_get_header r (lit "Connection") = Some (lit "Close") ->
  close sc = false ->
  nni_strcasestr (lit "Close") (lit "close") = Some (lit "Close") /\
  exists h' fini,
    http_sconn_cbdone None h (Some r) sc
    = (h', (set_res sc (Some r), fini ++ [Write_res r])) /\
    close (set_res sc (Some r)) = false.
Proof.
  intros Hhdr Hc. split; [reflexivity|].
  unfold http_sconn_cbdone. cbn [rv_ok negb]. rewrite Hhdr.
  replace (strstr (lit "Close") (lit "close")) with (@None cstr)
    by reflexivity.
  rewrite Hc. do 2 eexists. split; [reflexivity|]. exact Hc.
Qed.

(** What [http_sconn_cbdone] does with a response: the close flag is
    set when the Connection header contains ["close"] in exactly these
    letters, and the header is forced whenever the flag is set. *)
Lemma cbdone_with_response (h : http_handler) (r : nni_http_res)
    (sc : http_sconn) :
  let said_close :=
    match nni_http_res_get_header r (lit "Connection") with
    | Some val =>
        match strstr val (lit "close") with
        | Some _ => true
        | None => false
        end
    | None => false
    end in
  exists h' fini r',
    http_sconn_cbdone None h (Some r) sc
    = (h', (set_res (set_close sc (close sc || said_close)) (Some r'),
            fini ++ [Write_res r'])) /\
    (close sc || said_close = false -> r' = r) /\
    (close sc || said_close = true ->
     forall r2,
       nni_http_res_set_header r (lit "Connection") (lit "close") = Some r2 ->
       r' = r2).
Proof.
  unfold http_sconn_cbdone. cbn [rv_ok negb].
  destruct (nni_http_res_get_header r (lit "Connection")) as [val|];
    [destruct (strstr val (lit "close"))|];
    destruct (nni_http_res_set_header r (lit "Connection") (lit "close"));
    destruct sc as [ht rq rs [|] cd fn]; cbn;
    do 3 eexists; (split; [reflexivity|]);
    split; cbn; intros; congruence.
Qed.

End DispatchFacts.

(** ** Facts about start and stop *)

Section ServerFacts.
Context {codec : HttpMsg}.

Import Server.

Lemma close_conns_fst (l : list http_sconn) :
  forall i, fst (close_conns l i) = map hard_close l.
Proof.
  induction l as [|sc l IH]; intros i; simpl; [reflexivity|].
  unfold hard_close at 1.
  destruct (http_sconn_close_locked sc) as [sc' a].
  specialize (IH (S i)). destruct (close_conns l (S i)) as [l' a'].
  simpl in *. now rewrite IH.
Qed.

Lemma close_conns_snd (l : list http_sconn) :
  forall i j sc a,
    nth_error l j = Some sc ->
    In a (snd (http_sconn_close_locked sc)) ->
    In (On_conn (i + j) a) (snd (close_conns l i)).
Proof.
  induction l as [|x l IH]; intros i j sc a Hn Ha.
  - destruct j; discriminate.
  - simpl.
    destruct (http_sconn_close_locked x) as [x' ax] eqn:Ex.
    specialize (IH (S i)).
    destruct (close_conns l (S i)) as [l' a'].
    simpl. apply in_or_app.
    destruct j as [|j]; simpl in Hn.
    + injection Hn as ->. rewrite Ex in Ha. simpl in Ha.
      left. rewrite Nat.add_0_r. now apply in_map.
    + right. replace (i + S j) with (S i + j) by lia.
      apply (IH j sc a Hn Ha).
Qed.

Lemma hard_close_closed (sc : http_sconn) : Session.closed (hard_close sc) = true.
Proof. apply close_locked_flags. Qed.

Lemma start_n_later (env : start_env) (n : nat) :
  forall s, (0 < starts s)%Z ->
    start_n env n s = (set_starts s (starts s + Z.of_nat n), []).
Proof.
  induction n as [|n IH]; intros s Hs.
  - simpl. rewrite Z.add_0_r. now destruct s.
  - cbn [start_n]. unfold nni_http_server_start.
    destruct (Z.eqb_spec (starts s) 0) as [E|_]; [lia|].
    cbn [rv_ok]. rewrite IH by (simpl; lia).
    unfold set_starts. cbn [starts refcnt handlers conns closed tep app].
    do 2 f_equal. lia.
Qed.

Lemma stop_n_early (n : nat) :
  forall s, (Z.of_nat n < starts s)%Z ->
    stop_n n s = (set_starts s (starts s - Z.of_nat n), []).
Proof.
  induction n as [|n IH]; intros s Hs.
  - simpl. rewrite Z.sub_0_r. now destruct s.
  - cbn [stop_n]. unfold nni_http_server_stop.
    destruct (Z.eqb_spec (starts (set_starts s (starts s - 1))) 0) as [E|_];
      [simpl in E; lia|].
    rewrite IH by (simpl; lia).
    unfold set_starts. cbn [starts refcnt handlers conns closed tep app].
    do 2 f_equal. lia.
Qed.

(** Rounds of start and stop on a fresh server whose transport
    succeeds: of [n + 1] starts only the first touches the listener, the
    first [n] stops only count down, and the last stop is the one that
    tears the server down. *)
Lemma start_stop_rounds (env : start_env) (s : nni_http_server) (n : nat) :
  ep_init_rv env = None -> ep_listen_rv env = None ->
  starts s = 0%Z -> closed s = false ->
  let s1 := set_starts (set_tep s true) (Z.of_nat (S n)) in
  start_n env (S n) s = (s1, [Ep_init; Ep_listen; Ep_accept]) /\
  stop_n n s1 = (set_starts s1 1, []) /\
  stop_n (S n) s1
  = (fst (http_server_stop (set_starts s1 0)),
     snd (http_server_stop (set_starts s1 0))) /\
  closed (fst (stop_n (S n) s1)) = true /\
  starts (fst (stop_n (S n) s1)) = 0%Z.
Proof.
  intros Hi Hl Hs Hc s1.
  assert (Hstart : start_n env (S n) s = (s1, [Ep_init; Ep_listen; Ep_accept])).
  { cbn [start_n]. unfold nni_http_server_start, http_server_start.
    rewrite Hs, Hi, Hl. cbn [Z.eqb rv_ok].
    rewrite start_n_later by (cbn [starts set_starts set_tep]; lia).
    unfold s1, set_starts, set_tep.
    cbn [starts refcnt handlers conns closed tep app].
    do 2 f_equal. lia. }
  assert (Hcount : stop_n n s1 = (set_starts s1 1, [])).
  { rewrite stop_n_early by (unfold s1; cbn [starts set_starts]; lia).
    do 2 f_equal. unfold s1. cbn [starts set_starts]. lia. }
  assert (Hlast : stop_n (S n) s1
                  = (fst (http_server_stop (set_starts s1 0)),
                     snd (http_server_stop (set_starts s1 0)))).
  { replace (S n) with (n + 1) by lia.
    assert (Happ : forall a b s0, stop_n (a + b) s0 =
                     let '(x, ax) := stop_n a s0 in
                     let '(y, ay) := stop_n b x in (y, ax ++ ay)).
    { clear. induction a as [|a IH]; intros b s0; simpl.
      - destruct (stop_n b s0). reflexivity.
      - destruct (nni_http_server_stop s0) as [x ax].
        rewrite IH. destruct (stop_n a x) as [y ay].
        destruct (stop_n b y) as [z az]. now rewrite app_assoc. }
    rewrite Happ, Hcount. cbn [stop_n app].
    change (nni_http_server_stop (set_starts s1 1))
      with (http_server_stop (set_starts s1 0)).
    destruct (http_server_stop (set_starts s1 0)) as [y ay].
    cbn [fst snd]. now rewrite app_nil_r. }
  repeat split; auto.
  - rewrite Hlast. unfold http_server_stop, s1. simpl. rewrite Hc.
    destruct (close_conns (conns s) 0). reflexivity.
  - rewrite Hlast. unfold http_server_stop, s1. simpl. rewrite Hc.
    destruct (close_conns (conns s) 0). reflexivity.
Qed.

(** C9.  Start and stop are balanced over [starts].  A start that finds
    [starts] at 0 creates the listener, binds it and begins accepting,
    and counts 1, when the transport succeeds; when the transport fails
    it reports the error and leaves [starts] at 0 (the listener being
    finalised again if it could not be bound).  A start that finds
    [starts] above 0 only adds one to it.  A stop takes one from
    [starts]; a stop that does not bring it to 0 changes nothing else,
    and the stop that does (on a server not yet closed) sets [closed],
    closes the listener and closes every session of the live set,
    cancelling the four slots of each session that was still open.  Of
    [n + 1] starts in a row only the first touches the listener, and of
    the [n + 1] stops that follow only the last tears the server down. *)
Theorem start_stop_balance (s : nni_http_server) :
  (forall env,
     (starts s = 0%Z ->
      ep_init_rv env = None -> ep_listen_rv env = None ->
      nni_http_server_start env s
      = (set_starts (set_tep s true) 1, [Ep_init; Ep_listen; Ep_accept],
         None)) /\
     (starts s = 0%Z ->
      forall e, ep_init_rv env = Some e ->
      nni_http_server_start env s = (s, [Ep_init], Some e)) /\
     (starts s = 0%Z ->
      ep_init_rv env = None ->
      forall e, ep_listen_rv env = Some e ->
      nni_http_server_start env s
      = (set_tep (set_tep s true) false, [Ep_init; Ep_listen; Ep_fini],
         Some e)) /\
     (starts s <> 0%Z ->
      nni_http_server_start env s
      = (set_starts s (starts s + 1), [], None)))
  /\
  (forall env s' acts rv,
     nni_http_server_start env s = (s', acts, rv) ->
     (rv = None -> starts s' = (starts s + 1)%Z) /\
     (rv <> None -> starts s' = starts s) /\
     (rv = None <->
      starts s <> 0%Z \/ (ep_init_rv env = None /\ ep_listen_rv env = None)) /\
     (starts s <> 0%Z ->
      rv = None /\ acts = [] /\ s' = set_starts s (starts s + 1)) /\
     (starts s = 0%Z -> rv = None ->
      acts = [Ep_init; Ep_listen; Ep_accept] /\ tep s' = true /\
      closed s' = closed s /\ conns s' = conns s))
  /\
  (forall s' acts,
     nni_http_server_stop s = (s', acts) ->
     starts s' = (starts s - 1)%Z /\
     (starts s <> 1%Z -> acts = [] /\ s' = set_starts s (starts s - 1)) /\
     (starts s = 1%Z -> closed s = false ->
      closed s' = true /\
      (tep s = true -> In Ep_close acts) /\
      conns s' = map hard_close (conns s) /\
      Forall (fun sc => Session.closed sc = true) (conns s') /\
      (forall j sc, nth_error (conns s) j = Some sc ->
         Session.closed sc = false ->
         forall a, In a [Rxaio; Txaio; Txdataio; Cbaio] ->
           In (On_conn j (Aio_cancel a NNG_ECLOSED)) acts)))
  /\
  (forall env n,
     ep_init_rv env = None -> ep_listen_rv env = None ->
     starts s = 0%Z -> closed s = false ->
     start_n env (S n) s
     = (set_starts (set_tep s true) (Z.of_nat (S n)),
        [Ep_init; Ep_listen; Ep_accept]) /\
     stop_n n (set_starts (set_tep s true) (Z.of_nat (S n)))
     = (set_starts (set_starts (set_tep s true) (Z.of_nat (S n))) 1, []) /\
     closed (fst (stop_n (S n)
                    (set_starts (set_tep s true) (Z.of_nat (S n))))) = true /\
     starts (fst (stop_n (S n)
                    (set_starts (set_tep s true) (Z.of_nat (S n))))) = 0%Z /\
     In Ep_close (snd (stop_n (S n)
                         (set_starts (set_tep s true) (Z.of_nat (S n))))) /\
     conns (fst (stop_n (S n)
                   (set_starts (set_tep s true) (Z.of_nat (S n)))))
     = map hard_close (conns s)).
Proof.
  split; [|split; [|split]].
  - intros env. unfold nni_http_server_start, http_server_start.
    repeat split.
    + intros Hs Hi Hl. rewrite Hs, Hi, Hl.
      cbn [Z.eqb rv_ok starts set_tep]. now rewrite Hs.
    + intros Hs e Hi. rewrite Hs, Hi. reflexivity.
    + intros Hs Hi e Hl. rewrite Hs, Hi, Hl. reflexivity.
    + intros Hs. apply Z.eqb_neq in Hs. rewrite Hs. reflexivity.
  - intros env s' acts rv. unfold nni_http_server_start.
    destruct (starts s =? 0)%Z eqn:E.
    + apply Z.eqb_eq in E. unfold http_server_start.
      destruct (ep_init_rv env) as [e|].
      * intros [= <- <- <-]. simpl.
        repeat split; try congruence; intuition congruence.
      * destruct (ep_listen_rv env) as [e|].
        -- intros [= <- <- <-]. simpl.
           repeat split; try congruence; intuition congruence.
        -- intros [= <- <- <-]. simpl.
           repeat split; try congruence; intuition congruence.
    + apply Z.eqb_neq in E.
      intros [= <- <- <-]. simpl.
      repeat split; try congruence; intuition congruence.
  - intros s' acts. unfold nni_http_server_stop.
    destruct (starts (set_starts s (starts s - 1)) =? 0)%Z eqn:E.
    + apply Z.eqb_eq in E. simpl in E.
      unfold http_server_stop.
      destruct (closed (set_starts s (starts s - 1))) eqn:Ec.
      * intros [= <- <-]. simpl. split; [reflexivity|].
        split; [lia|]. intros _ Hopen. simpl in Ec. congruence.
      * pose proof (close_conns_fst (conns s) 0) as Hf.
        pose proof (close_conns_snd (conns s) 0) as Hs.
        simpl.
        destruct (close_conns (conns s) 0) as [l a2]. simpl in Hf, Hs.
        intros [= <- <-]. simpl. split; [reflexivity|].
        split; [lia|]. intros _ _.
        split; [reflexivity|]. split; [|split; [exact Hf|split]].
        -- intros ->. now left.
        -- rewrite Hf. apply Forall_forall. intros x Hx.
           apply in_map_iff in Hx. destruct Hx as (y & <- & _).
           apply hard_close_closed.
        -- intros j sc Hn Ho a Ha.
           apply in_or_app. right. apply in_or_app. left.
           apply (Hs j sc _ Hn).
           unfold http_sconn_close_locked. rewrite Ho. simpl.
           simpl in Ha. intuition (subst; auto).
    + apply Z.eqb_neq in E. simpl in E.
      intros [= <- <-]. simpl. repeat split; lia.
  - intros env n Hi Hl Hs Hc.
    destruct (start_stop_rounds env s n Hi Hl Hs Hc)
      as (A & B & C & D & E).
    split; [exact A|]. split; [exact B|]. split; [exact D|].
    split; [exact E|].
    rewrite C. unfold http_server_stop.
    cbn [closed set_starts set_tep tep conns set_closed].
    rewrite Hc.
    pose proof (close_conns_fst (conns s) 0) as Hf.
    destruct (close_conns (conns s) 0) as [l a2]. cbn [fst snd] in *.
    cbn [conns set_conns]. split; [now left | exact Hf].
Qed.

End ServerFacts.

(** ** The theorems at concrete inputs *)


Lemma no_match_status_witness :
  http_sconn_rxdone demo_env [demo_post]
    (demo_session (demo_request (Some (lit "HTTP/1.1")) "GET"))
  = Some ([demo_post],
          (set_res (demo_session (demo_request (Some (lit "HTTP/1.1")) "GET"))
             (Some (demo_error 405 false)),
           [Write_res (demo_error 405 false)]))
  /\
  http_sconn_rxdone demo_env [demo_abc]
    (demo_session (demo_request (Some (lit "HTTP/1.1")) "GET"))
  = Some ([demo_abc],
          (set_res (demo_session (demo_request (Some (lit "HTTP/1.1")) "GET"))
             (Some (demo_error 404 false)),
           [Write_res (demo_error 404 false)])).
Proof.
  split.
  - refine (proj2 (proj2
              (@no_match_status Plain.codec demo_env [demo_post]
                 (demo_session (demo_request (Some (lit "HTTP/1.1")) "GET"))
                 (demo_request (Some (lit "HTTP/1.1")) "GET")
                 (lit "HTTP/1.1") (lit "/x")
                 eq_refl eq_refl eq_refl eq_refl eq_refl eq_refl _))
              demo_post eq_refl eq_refl eq_refl eq_refl eq_refl
              (demo_error 405 false) eq_refl).
    intros h [<-|[]]. vm_compute. discriminate.
  - refine (proj1 (proj2
              (@no_match_status Plain.codec demo_env [demo_abc]
                 (demo_session (demo_request (Some (lit "HTTP/1.1")) "GET"))
                 (demo_request (Some (lit "HTTP/1.1")) "GET")
                 (lit "HTTP/1.1") (lit "/x")
                 eq_refl eq_refl eq_refl eq_refl eq_refl eq_refl _))
              _ (demo_error 404 false) eq_refl).
    + intros h [<-|[]]. vm_compute. discriminate.
    + intros h [<-|[]]. vm_compute. reflexivity.
Defined.

Lemma start_stop_balance_witness :
  Server.nni_http_server_start demo_start_env demo_fresh_server
  = (Server.set_starts (Server.set_tep demo_fresh_server true) 1,
     [Server.Ep_init; Server.Ep_listen; Server.Ep_accept], None)
  /\
  Server.closed
    (fst (stop_n 3 (Server.set_starts (Server.set_tep demo_fresh_server true)
                      (Z.of_nat 3)))) = true.
Proof.
  split.
  - exact (proj1 (proj1 (@start_stop_balance Plain.codec demo_fresh_server)
                    demo_start_env)
             eq_refl eq_refl eq_refl).
  - exact (proj1 (proj2 (proj2
             (proj2 (proj2 (proj2 (@start_stop_balance Plain.codec
                                     demo_fresh_server)))
                demo_start_env 2 eq_refl eq_refl eq_refl eq_refl)))).
Defined.

Lemma head_request_rule_witness :
  method_ok (demo_request (Some (lit "HTTP/1.1")) "HEAD") demo_abc = true.
Proof.
  exact (proj1 (@head_request_rule Plain.codec
                  (demo_request (Some (lit "HTTP/1.1")) "HEAD") eq_refl)
           demo_abc (or_introl eq_refl)).
Defined.

Lemma cbdone_connection_case_witness :
  nni_strcasestr (lit "Close") (lit "close") = Some (lit "Close") /\
  exists h' fini,
    http_sconn_cbdone None demo_post (Some demo_response)
      (demo_session (demo_request (Some (lit "HTTP/1.1")) "GET"))
    = (h', (set_res (demo_session (demo_request (Some (lit "HTTP/1.1")) "GET"))
              (Some demo_response),
            fini ++ [Write_res demo_response])) /\
    close (set_res (demo_session (demo_request (Some (lit "HTTP/1.1")) "GET"))
             (Some demo_response)) = false.
Proof.
  exact (@cbdone_connection_case Plain.codec demo_post demo_response
           (demo_session (demo_request (Some (lit "HTTP/1.1")) "GET"))
           eq_refl eq_refl).
Defined.

(** ** More facts about the canonifier *)

Lemma tolower_fixes (x c : ascii) :
  in_range "A" "Z" x = false -> in_range "a" "z" x = false ->
  tolower c = x -> c = x.
Proof.
  intros _ Hl.
  destruct c as [[] [] [] [] [] [] [] []]; vm_compute; intros <-;
    first [reflexivity | vm_compute in Hl; discriminate].
Qed.

Lemma tolower_idem (c : ascii) : tolower (tolower c) = tolower c.
Proof. destruct c as [[] [] [] [] [] [] [] []]; reflexivity. Qed.

Lemma poke_nth b i c b' :
  poke b i c = Some b' ->
  forall j, nth_error b' j = if j =? i then Some c else nth_error b j.
Proof.
  assert (H : i < length b -> forall j,
              nth_error (firstn i b ++ c :: skipn (S i) b) j
              = if j =? i then Some c else nth_error b j).
  { intros Hi j. destruct (Nat.eqb_spec j i) as [->|Hne].
    - rewrite nth_error_app2 by (rewrite length_firstn; lia).
      rewrite length_firstn.
      replace (i - Nat.min i (length b)) with 0 by lia. reflexivity.
    - destruct (Nat.lt_ge_cases j i).
      + rewrite nth_error_app1 by (rewrite length_firstn; lia).
        rewrite nth_error_firstn.
        destruct (Nat.ltb_spec j i); [reflexivity|lia].
      + rewrite nth_error_app2 by (rewrite length_firstn; lia).
        rewrite length_firstn.
        replace (j - Nat.min i (length b)) with (S (j - S i)) by lia.
        cbn [nth_error]. rewrite nth_error_skipn. f_equal. lia. }
  unfold poke. destruct (Nat.ltb_spec i (length b)); [|discriminate].
  intros [= <-]. auto.
Qed.

Lemma poke_defined b i c : i < length b -> exists b', poke b i c = Some b'.
Proof.
  intros Hi. unfold poke.
  destruct (Nat.ltb_spec i (length b)); [eauto | lia].
Qed.

Lemma peek_lt b i c : peek b i = Some c -> i < length b.
Proof. intros H. apply nth_error_Some. unfold peek in H. congruence. Qed.

(** What the loop keeps: the length of the buffer, the bytes below
    [dst], and a terminator at or after [dst]. *)
Lemma unescape_keeps (fuel : nat) :
  forall b tmp dst b',
    dst <= tmp ->
    unescape fuel b tmp dst = Some b' ->
    length b' = length b /\
    (forall j, j < dst -> nth_error b' j = nth_error b j) /\
    exists d, dst <= d /\ d < length b /\ nth_error b' d = Some NUL.
Proof.
  induction fuel as [|fuel IH]; intros b tmp dst b' Hle H; [discriminate|].
  simpl in H.
  destruct (peek b tmp) as [c|] eqn:Ec; simpl in H; [|discriminate].
  pose proof (peek_lt _ _ Ec) as Htmp.
  destruct (Ascii.eqb c NUL).
  { pose proof (poke_nth _ _ _ H) as Hn.
    split; [exact (poke_length _ _ _ H)|]. split.
    - intros j Hj. rewrite Hn.
      destruct (Nat.eqb_spec j dst); [lia | reflexivity].
    - exists dst. repeat split; try lia.
      rewrite Hn, Nat.eqb_refl. reflexivity. }
  assert (Hstep : forall b1 tmp' dst' x,
            poke b dst x = Some b1 -> dst < dst' -> dst' <= tmp' ->
            unescape fuel b1 tmp' dst' = Some b' ->
            length b' = length b /\
            (forall j, j < dst -> nth_error b' j = nth_error b j) /\
            exists d, dst <= d /\ d < length b /\ nth_error b' d = Some NUL).
  { intros b1 tmp' dst' x Hp Hd Hl Hu.
    destruct (IH _ _ _ _ Hl Hu) as (Hlen & Hpre & d & Hd1 & Hd2 & Hd3).
    pose proof (poke_length _ _ _ Hp) as Hl1.
    pose proof (poke_nth _ _ _ Hp) as Hn.
    split; [congruence|]. split.
    - intros j Hj. rewrite Hpre by lia. rewrite Hn.
      destruct (Nat.eqb_spec j dst); [lia | reflexivity].
    - exists d. repeat split; try lia. exact Hd3. }
  destruct (negb (Ascii.eqb c "%")).
  - destruct (poke b dst c) as [b1|] eqn:E1; simpl in H; [|discriminate].
    apply (Hstep b1 (tmp + 1) (dst + 1) c E1); auto; lia.
  - destruct (peek b (tmp + 1)) as [x1|]; simpl in H; [|discriminate].
    destruct (if isxdigit x1 then peek b (tmp + 2) else Some NUL)
      as [x2|]; simpl in H; [|discriminate].
    destruct (isxdigit x1 && isxdigit x2); simpl in H.
    + destruct (poke b dst _) as [b1|] eqn:E1; simpl in H; [|discriminate].
      destruct (poke b1 (dst + 1) _) as [b2|] eqn:E2; simpl in H;
        [|discriminate].
      destruct (IH _ _ _ _ (ltac:(lia) : dst + 1 + 1 <= tmp + 3 + 1) H)
        as (Hlen & Hpre & d & Hd1 & Hd2 & Hd3).
      pose proof (poke_length _ _ _ E1) as Hl1.
      pose proof (poke_length _ _ _ E2) as Hl2.
      pose proof (poke_nth _ _ _ E1) as Hn1.
      pose proof (poke_nth _ _ _ E2) as Hn2.
      split; [congruence|]. split.
      * intros j Hj. rewrite Hpre by lia. rewrite Hn2, Hn1.
        destruct (Nat.eqb_spec j (dst + 1)); [lia|].
        destruct (Nat.eqb_spec j dst); [lia | reflexivity].
      * exists d. repeat split; try lia. exact Hd3.
    + destruct (poke b dst c) as [b1|] eqn:E1; simpl in H; [|discriminate].
      apply (Hstep b1 (tmp + 1) (dst + 1) c E1); auto; lia.
Qed.

Lemma until_nul_length l s : until_nul l = Some s -> length s < length l.
Proof.
  revert s. induction l as [|x l IH]; intros s; simpl; [discriminate|].
  destruct (Ascii.eqb x NUL).
  - intros [= <-]. simpl. lia.
  - destruct (until_nul l) as [s'|]; simpl; [|discriminate].
    intros [= <-]. simpl. specialize (IH s' eq_refl). lia.
Qed.

Lemma until_nul_bound l :
  forall k, nth_error l k = Some NUL ->
    exists s, until_nul l = Some s /\ length s <= k.
Proof.
  induction l as [|x l IH]; intros k Hk; [destruct k; discriminate|].
  simpl. destruct (Ascii.eqb_spec x NUL) as [->|Hx].
  - exists []. split; [reflexivity | simpl; lia].
  - destruct k as [|k]; simpl in Hk; [congruence|].
    destruct (IH k Hk) as (s & -> & Hs).
    exists (x :: s). split; [reflexivity | simpl; lia].
Qed.

Lemma c_str_length b off s : c_str b off = Some s -> off + length s < length b.
Proof.
  unfold c_str. intros H. apply until_nul_length in H.
  rewrite length_skipn in H. lia.
Qed.

Lemma is_absolute_length s : is_absolute s = true -> 7 <= length s.
Proof.
  unfold is_absolute. intros H. apply orb_true_iff in H.
  assert (G : forall t n, n <= length t ->
                is_eq (nni_strncasecmp s t n) = true -> n <= length s).
  { intros t n Hn E. unfold nni_strncasecmp in E.
    apply is_eq_strncmp in E.
    apply (f_equal (@length _)) in E.
    rewrite !length_firstn, !length_map in E. lia. }
  destruct H as [H|H].
  - apply (G _ _ (le_n _)) in H. exact H.
  - apply (G _ _ (le_n _)) in H. simpl in H. unfold strlen in H. simpl in H. lia.
Qed.

(** X1.  The canonified path is never longer than the request URI. *)
Theorem canonify_never_grows (u p : cstr) :
  canonify_uri u = Some p -> length p <= length u.
Proof.
  unfold canonify_uri, http_uri_canonify.
  destruct (c_str (u ++ [NUL]) 0) as [s|] eqn:Es; [|discriminate].
  cbn [obind].
  assert (Hb : forall b, length b = S (length u) ->
            (s0 <- c_str b 0;;
             path <- (if is_absolute s0
                      then colon <- strchr s0 ":";;
                           (let path := colon + 3 in
                            host <- c_str b path;;
                            Some (option_map (Nat.add path) (strchr host "/")))
                      else Some (Some 0));;
             match path with
             | Some path0 =>
                 b' <- unescape (length b) b path0 path0;; Some (Into b' path0)
             | None => Some Static_slash
             end) = None \/
            exists q,
              (s0 <- c_str b 0;;
               path <- (if is_absolute s0
                        then colon <- strchr s0 ":";;
                             (let path := colon + 3 in
                              host <- c_str b path;;
                              Some (option_map (Nat.add path) (strchr host "/")))
                        else Some (Some 0));;
               match path with
               | Some path0 =>
                   b' <- unescape (length b) b path0 path0;;
                   Some (Into b' path0)
               | None => Some Static_slash
               end) = Some q /\
              forall p', deref q = Some p' -> length p' <= length u).
  { intros b Hlen.
    destruct (c_str b 0) as [s0|] eqn:Es0; cbn [obind]; [|now left].
    pose proof (c_str_length _ _ Es0) as Hs0.
    assert (Hfin : forall path0,
              (b' <- unescape (length b) b path0 path0;; Some (Into b' path0))
              = None \/
              exists q,
                (b' <- unescape (length b) b path0 path0;;
                 Some (Into b' path0)) = Some q /\
                forall p', deref q = Some p' -> length p' <= length u).
    { intros path0.
      destruct (unescape (length b) b path0 path0) as [b'|] eqn:Eu;
        cbn [obind]; [|now left].
      right. eexists. split; [reflexivity|].
      intros p' Hp'. simpl in Hp'.
      destruct (@unescape_keeps _ _ _ _ _ (le_n _) Eu) as (Hl & _ & d & _ & _ & _).
      apply c_str_length in Hp'. lia. }
    destruct (is_absolute s0) eqn:Ea.
    - destruct (strchr s0 ":") as [colon|]; cbn [obind]; [|now left].
      destruct (c_str b (colon + 3)) as [host|]; cbn [obind]; [|now left].
      destruct (strchr host "/") as [j|]; cbn [option_map].
      + apply Hfin.
      + right. eexists. split; [reflexivity|].
        intros p' Hp'. cbn [deref] in Hp'. injection Hp' as Hp'. subst p'.
        apply is_absolute_length in Ea. simpl. lia.
    - cbn [obind]. apply Hfin. }
  assert (Hend : forall b, length b = S (length u) ->
            (p0 <- (s0 <- c_str b 0;;
                    path <- (if is_absolute s0
                             then colon <- strchr s0 ":";;
                                  (let path := colon + 3 in
                                   host <- c_str b path;;
                                   Some (option_map (Nat.add path)
                                           (strchr host "/")))
                             else Some (Some 0));;
                    match path with
                    | Some path0 =>
                        b' <- unescape (length b) b path0 path0;;
                        Some (Into b' path0)
                    | None => Some Static_slash
                    end);; deref p0) = Some p ->
            length p <= length u).
  { intros b Hlen.
    destruct (Hb b Hlen) as [Hn|(q & Hq & Hbound)].
    - rewrite Hn. discriminate.
    - rewrite Hq. cbn [obind]. apply Hbound. }
  destruct (strchr s "?") as [q|].
  - destruct (poke (u ++ [NUL]) q NUL) as [b|] eqn:Eb; cbn [obind];
      [|discriminate].
    apply Hend. rewrite (poke_length _ _ _ Eb), length_app. simpl. lia.
  - cbn [obind]. apply Hend. rewrite length_app. simpl. lia.
Qed.

Lemma canonify_never_grows_witness :
  length (lit "/AAc") <= length (lit "/%41bc").
Proof.
  apply (@canonify_never_grows (lit "/%41bc") (lit "/AAc")).
  vm_compute. reflexivity.
Defined.

(** X2.  [http_hexval] inverts the sixteen hexadecimal digits, in either
    case; every byte [isxdigit] accepts is such a digit; and every other
    byte has value 0. *)
Theorem hexval_inverts_digits :
  (forall n, (n < 16)%N ->
     http_hexval (hex_lower n) = ascii_of_N n /\
     http_hexval (hex_upper n) = ascii_of_N n /\
     isxdigit (hex_lower n) = true /\ isxdigit (hex_upper n) = true) /\
  (forall c, isxdigit c = true ->
     exists n, (n < 16)%N /\ (c = hex_lower n \/ c = hex_upper n) /\
               http_hexval c = ascii_of_N n) /\
  (forall c, isxdigit c = false -> http_hexval c = NUL).
Proof.
  split; [|split].
  - intros n Hlt.
    assert (Hn : In n (map N.of_nat (seq 0 16))).
    { apply in_map_iff. exists (N.to_nat n).
      split; [apply N2Nat.id | apply in_seq; lia]. }
    clear Hlt. simpl in Hn.
    repeat (destruct Hn as [<-|Hn]; [vm_compute; auto|]). destruct Hn.
  - intros c. destruct c as [[] [] [] [] [] [] [] []]; intros H;
      vm_compute in H; try discriminate H;
      match goal with
      | |- exists n, _ /\ (?c = _ \/ _) /\ _ =>
          exists (uchar (http_hexval c))
      end;
      (split; [reflexivity|]);
      (split; [first [left; reflexivity | right; reflexivity]
              | reflexivity]).
  - intros c. destruct c as [[] [] [] [] [] [] [] []]; intros H;
      vm_compute in H; try discriminate H; reflexivity.
Qed.

Lemma isxdigit_not (c x : ascii) : isxdigit x = false -> isxdigit c = true -> c <> x.
Proof. intros Hx Hc ->. congruence. Qed.

Lemma until_nul_intro (s : cstr) :
  forall b, no_nul s ->
    (forall j, j < length s -> nth_error b j = nth_error s j) ->
    nth_error b (length s) = Some NUL ->
    until_nul b = Some s.
Proof.
  induction s as [|c s IH]; intros b Hn Hpre Hend.
  - destruct b as [|x b]; [discriminate|]. simpl in Hend.
    injection Hend as ->. reflexivity.
  - inversion Hn as [|? ? Hc Hn']; subst.
    destruct b as [|x b]; [discriminate|].
    pose proof (Hpre 0 ltac:(simpl; lia)) as H0. simpl in H0.
    injection H0 as ->. simpl.
    destruct (Ascii.eqb_spec c NUL); [contradiction|].
    rewrite (IH b Hn'); [reflexivity| |exact Hend].
    intros j Hj. apply (Hpre (S j)). simpl. lia.
Qed.

Lemma poke_mid (pre : list ascii) c x t :
  poke (pre ++ c :: t) (length pre) x = Some (pre ++ x :: t).
Proof.
  destruct (@poke_defined (pre ++ c :: t) (length pre) x) as (b' & Hb).
  { rewrite length_app. simpl. lia. }
  rewrite Hb. f_equal. apply nth_error_ext. intros j.
  rewrite (poke_nth _ _ _ Hb).
  destruct (Nat.eqb_spec j (length pre)) as [->|Hne].
  - rewrite nth_error_app2, Nat.sub_diag by lia. reflexivity.
  - destruct (Nat.lt_ge_cases j (length pre)).
    + now rewrite !nth_error_app1 by lia.
    + rewrite !nth_error_app2 by lia.
      destruct (j - length pre) eqn:E; [lia | reflexivity].
Qed.

Lemma unescape_plain_tail (rest : cstr) :
  forall pre t fuel,
    no_nul rest -> has_escape rest = false -> length rest < fuel ->
    unescape fuel (pre ++ rest ++ NUL :: t) (length pre) (length pre)
    = Some (pre ++ rest ++ NUL :: t).
Proof.
  induction rest as [|c r IH]; intros pre t fuel Hn He Hf.
  - destruct fuel; [lia|]. simpl. rewrite peek_mid. simpl.
    apply poke_same.
  - destruct fuel; [lia|]. simpl in Hf.
    inversion Hn as [|? ? Hc Hn']; subst.
    simpl in He. apply orb_false_iff in He. destruct He as [He1 He2].
    assert (Hnext :
      unescape fuel (pre ++ (c :: r) ++ NUL :: t)
        (length pre + 1) (length pre + 1)
      = Some (pre ++ (c :: r) ++ NUL :: t)).
    { replace (pre ++ (c :: r) ++ NUL :: t)
        with ((pre ++ [c]) ++ r ++ NUL :: t)
        by (rewrite <- app_assoc; reflexivity).
      replace (length pre + 1) with (length (pre ++ [c]))
        by (rewrite length_app; reflexivity).
      apply IH; auto. lia. }
    cbn [unescape]. simpl app. rewrite peek_mid. cbn [obind].
    destruct (Ascii.eqb_spec c NUL) as [|_]; [contradiction|].
    destruct (Ascii.eqb_spec c "%") as [->|Hp]; cbn [negb].
    + assert (Hx1 : exists x1, peek (pre ++ "%"%char :: r ++ NUL :: t)
                                 (length pre + 1) = Some x1 /\
                               hd NUL (r ++ [NUL]) = x1).
      { unfold peek. rewrite nth_error_app2 by lia.
        replace (length pre + 1 - length pre) with 1 by lia.
        destruct r; simpl; eauto. }
      destruct Hx1 as (x1 & -> & Hx1). cbn [obind].
      assert (Hcond :
        exists x2,
          (if isxdigit x1
           then peek (pre ++ "%"%char :: r ++ NUL :: t) (length pre + 2)
           else Some NUL) = Some x2 /\
          isxdigit x1 && isxdigit x2 = false).
      { destruct (isxdigit x1) eqn:Ex1; [|exists NUL; auto].
        unfold peek. rewrite nth_error_app2 by lia.
        replace (length pre + 2 - length pre) with 2 by lia.
        destruct r as [|y1 [|y2 r']]; simpl in *; subst.
        - discriminate.
        - exists NUL. auto.
        - exists y2. split; [reflexivity|].
          rewrite Ex1 in He1. simpl in He1. exact He1. }
      destruct Hcond as (x2 & -> & Hc2). cbn [obind]. rewrite Hc2.
      cbn [obind]. rewrite poke_same. cbn [obind]. exact Hnext.
    + rewrite poke_same. cbn [obind]. exact Hnext.
Qed.

Lemma until_nul_prefix (p : cstr) c l :
  no_nul p -> c <> NUL ->
  until_nul (p ++ c :: l) = option_map (fun s => p ++ c :: s) (until_nul l).
Proof.
  intros Hp Hc. induction Hp as [|x p Hx _ IH]; simpl.
  - destruct (Ascii.eqb_spec c NUL); [contradiction|].
    destruct (until_nul l); reflexivity.
  - destruct (Ascii.eqb_spec x NUL); [contradiction|].
    rewrite IH. destruct (until_nul l); reflexivity.
Qed.

Lemma until_nul_terminated (q : list ascii) :
  exists s, until_nul (q ++ [NUL]) = Some s.
Proof.
  induction q as [|x q (s & IH)]; simpl; [eauto|].
  destruct (Ascii.eqb x NUL); [eauto|]. rewrite IH. simpl. eauto.
Qed.

Lemma strchr_first (p : cstr) c l : ~ In c p -> strchr (p ++ c :: l) c = Some (length p).
Proof.
  induction p as [|x p IH]; simpl; intros Hin.
  - now rewrite Ascii.eqb_refl.
  - destruct (Ascii.eqb_spec x c) as [->|_]; [tauto|].
    rewrite IH by tauto. reflexivity.
Qed.

(** X3.  The query string is discarded.  For a path [p] that needs no
    decoding and any query [q], the canonifier maps [p?q] to [p]. *)
Theorem canonify_drops_query (p q : cstr) :
  no_nul p -> plain_path p ->
  canonify_uri (p ++ "?"%char :: q) = Some p.
Proof.
  intros Hn (Hq & Habs & Hesc).
  destruct (until_nul_terminated q) as (q' & Hq').
  assert (Hs : c_str ((p ++ "?"%char :: q) ++ [NUL]) 0
               = Some (p ++ "?"%char :: q')).
  { unfold c_str. cbn [skipn]. rewrite <- app_assoc. cbn [app].
    rewrite until_nul_prefix by (auto; discriminate).
    rewrite Hq'. reflexivity. }
  assert (Hb : c_str (p ++ NUL :: q ++ [NUL]) 0 = Some p)
    by (unfold c_str; cbn [skipn]; now apply until_nul_app).
  unfold canonify_uri, http_uri_canonify.
  rewrite Hs. cbn [obind]. rewrite strchr_first by exact Hq.
  rewrite <- app_assoc. cbn [app]. rewrite poke_mid. cbn [obind].
  rewrite Hb. cbn [obind]. rewrite Habs. cbn [obind].
  pose proof (@unescape_plain_tail p [] (q ++ [NUL])
                (length (p ++ NUL :: q ++ [NUL])) Hn Hesc) as Hun.
  cbn [app length] in Hun. rewrite Hun
    by (rewrite length_app; simpl; lia).
  cbn [obind deref]. exact Hb.
Qed.

Lemma canonify_drops_query_witness :
  canonify_uri (lit "/a/b" ++ "?"%char :: lit "x=%41&y") = Some (lit "/a/b").
Proof.
  apply (@canonify_drops_query (lit "/a/b") (lit "x=%41&y")).
  - repeat constructor; discriminate.
  - repeat split.
    simpl. intros H. repeat (destruct H as [H|H]; [discriminate|]). exact H.
Defined.

(** A run of literal bytes: the loop copies it from [tmp] to [dst] and
    moves both cursors past it. *)
Lemma unescape_literal_run (r : cstr) :
  forall b tmp dst fuel,
    dst <= tmp ->
    (forall k, k < length r -> nth_error b (tmp + k) = nth_error r k) ->
    no_nul r -> ~ In "%"%char r ->
    exists b1,
      length b1 = length b /\
      (forall j, nth_error b1 j =
                 if (dst <=? j) && (j <? dst + length r)
                 then nth_error r (j - dst) else nth_error b j) /\
      unescape (length r + fuel) b tmp dst
      = unescape fuel b1 (tmp + length r) (dst + length r).
Proof.
  induction r as [|c r IH]; intros b tmp dst fuel Hle Hb Hn Hp.
  - exists b. split; [reflexivity|]. split.
    + intros j. simpl.
      destruct (Nat.leb_spec dst j), (Nat.ltb_spec j (dst + 0));
        simpl; try reflexivity. lia.
    + simpl. now rewrite !Nat.add_0_r.
  - inversion Hn as [|? ? Hc Hn']; subst.
    assert (Hpc : c <> "%"%char) by (intros ->; apply Hp; now left).
    assert (Hpr : ~ In "%"%char r) by (intros H; apply Hp; now right).
    pose proof (Hb 0 ltac:(simpl; lia)) as H0.
    rewrite Nat.add_0_r in H0. simpl in H0.
    assert (Htmp : tmp < length b)
      by (apply nth_error_Some; congruence).
    assert (Hdst : dst < length b) by lia.
    destruct (@poke_defined b dst c Hdst) as (b0 & Hb0).
    pose proof (poke_nth _ _ _ Hb0) as Hn0.
    destruct (IH b0 (tmp + 1) (dst + 1) fuel ltac:(lia)) as (b1 & Hl1 & Hn1 & Hu);
      auto.
    { intros k Hk. rewrite Hn0.
      destruct (Nat.eqb_spec (tmp + 1 + k) dst); [lia|].
      replace (tmp + 1 + k) with (tmp + S k) by lia.
      rewrite Hb by (simpl; lia). reflexivity. }
    exists b1. split; [rewrite Hl1; exact (poke_length _ _ _ Hb0)|]. split.
    + intros j. rewrite Hn1, Hn0. cbn [length].
      destruct (Nat.eqb_spec j dst) as [Hj|Hj];
        destruct (Nat.leb_spec (dst + 1) j),
          (Nat.ltb_spec j (dst + 1 + length r)),
          (Nat.leb_spec dst j), (Nat.ltb_spec j (dst + S (length r)));
        cbn [andb]; try lia; try reflexivity.
      * subst j. rewrite Nat.sub_diag. reflexivity.
      * replace (j - dst) with (S (j - (dst + 1))) by lia. reflexivity.
    + cbn [length Nat.add unescape]. unfold peek at 1. rewrite H0.
      cbn [obind].
      destruct (Ascii.eqb_spec c NUL); [contradiction|].
      destruct (Ascii.eqb_spec c "%"); [contradiction|]. cbn [negb].
      rewrite Hb0. cbn [obind]. rewrite Hu.
      f_equal; lia.
Qed.

Lemma unescape_at_end (fuel : nat) b tmp dst :
  peek b tmp = Some NUL -> unescape (S fuel) b tmp dst = poke b dst NUL.
Proof. intros H. cbn [unescape]. rewrite H. reflexivity. Qed.

Lemma rooted_not_absolute (p : cstr) : rooted p -> is_absolute p = false.
Proof. intros (p' & ->). reflexivity. Qed.

Lemma no_nul_app (a b : cstr) : no_nul (a ++ b) <-> no_nul a /\ no_nul b.
Proof. apply Forall_app. Qed.

(** The bytes of a URI seen through its buffer. *)
Lemma nth_error_buffer (u : cstr) j :
  nth_error (u ++ [NUL]) j =
  if j <? length u then nth_error u j
  else if j =? length u then Some NUL else None.
Proof.
  rewrite nth_error_app.
  destruct (Nat.ltb_spec j (length u)); [reflexivity|].
  destruct (Nat.eqb_spec j (length u)) as [->|].
  - now rewrite Nat.sub_diag.
  - destruct (j - length u) as [|[|k]] eqn:E; try lia; reflexivity.
Qed.

(** The loop on a buffer that holds literal text [p], one well-formed
    escape, and whatever follows. *)
Lemma unescape_to_escape (p : cstr) (x1 x2 : ascii) (rest : list ascii)
    (fuel : nat) :
  no_nul p -> ~ In "%"%char p ->
  isxdigit x1 = true -> isxdigit x2 = true ->
  let b := p ++ "%"%char :: x1 :: x2 :: rest in
  exists b2,
    length b2 = length b /\
    (forall j, nth_error b2 j =
               if (length p <=? j) && (j <? length p + 2)
               then Some (decoded x1 x2) else nth_error b j) /\
    unescape (length p + S fuel) b 0 0
    = unescape fuel b2 (length p + 4) (length p + 2).
Proof.
  intros Hn Hp Hx1 Hx2 b.
  assert (Hbdef : b = p ++ "%"%char :: x1 :: x2 :: rest) by reflexivity.
  clearbody b.
  destruct (@unescape_literal_run p b 0 0 (S fuel) (le_n _)) as (b1 & Hl1 & Hn1 & Hu);
    auto.
  { intros k Hk. rewrite Hbdef. now rewrite nth_error_app1. }
  assert (Hb1 : b1 = b).
  { apply nth_error_ext. intros j. rewrite Hn1. cbn [Nat.add Nat.leb andb].
    rewrite Nat.sub_0_r.
    destruct (Nat.ltb_spec j (length p)); [|reflexivity].
    rewrite Hbdef. now rewrite nth_error_app1. }
  subst b1. rewrite Hu. cbn [Nat.add].
  assert (Hat : forall k, nth_error b (length p + k)
                          = nth_error ("%"%char :: x1 :: x2 :: rest) k).
  { intros k. rewrite Hbdef, nth_error_app2 by lia. f_equal. lia. }
  rewrite (@unescape_escape_turn fuel b (length p) (length p) x1 x2);
    try assumption.
  2:{ unfold peek. rewrite <- (Nat.add_0_r (length p)). now rewrite Hat. }
  2:{ unfold peek. now rewrite Hat. }
  2:{ unfold peek. now rewrite Hat. }
  cbv zeta. fold (decoded x1 x2).
  assert (Hlen : length p + 2 < length b).
  { rewrite Hbdef, length_app. simpl. lia. }
  assert (Hlen0 : length p < length b) by lia.
  destruct (@poke_defined b (length p) (decoded x1 x2) Hlen0) as (c1 & Hc1).
  rewrite Hc1. cbn [obind].
  pose proof (poke_length _ _ _ Hc1) as Hlc1.
  assert (Hlen1 : length p + 1 < length c1) by lia.
  destruct (@poke_defined c1 (length p + 1) (decoded x1 x2) Hlen1)
    as (c2 & Hc2).
  rewrite Hc2. cbn [obind].
  exists c2. split; [rewrite (poke_length _ _ _ Hc2); exact Hlc1|]. split.
  - intros j. rewrite (poke_nth _ _ _ Hc2), (poke_nth _ _ _ Hc1).
    destruct (Nat.eqb_spec j (length p + 1)), (Nat.eqb_spec j (length p)),
      (Nat.leb_spec (length p) j), (Nat.ltb_spec j (length p + 2));
      cbn [andb]; try lia; reflexivity.
  - f_equal; lia.
Qed.

Lemma literal_cons_inv (c : ascii) (r : cstr) :
  literal (c :: r) ->
  c <> NUL /\ c <> "?"%char /\
  no_nul r /\ ~ In "%"%char r /\ ~ In "?"%char r.
Proof.
  intros (Hn & Hp & Hq). inversion Hn; subst.
  repeat split; auto; try (intros H; apply Hp; now right);
    try (intros H; apply Hq; now right).
  intros ->. apply Hq. now left.
Qed.

Lemma hex_is_text (x : ascii) :
  isxdigit x = true -> x <> NUL /\ x <> "?"%char.
Proof.
  intros H. split; apply (fun E => isxdigit_not E H); reflexivity.
Qed.

(** X4.  One escape amid literal text.  The decoded byte is stored twice
    and the byte that follows the escape is lost; when the decoded byte
    is NUL the path ends where the escape stood. *)
Theorem canonify_single_escape (p r : cstr) (x1 x2 c : ascii) :
  rooted p -> literal p -> literal (c :: r) ->
  isxdigit x1 = true -> isxdigit x2 = true ->
  canonify_uri (p ++ "%"%char :: x1 :: x2 :: c :: r)
  = Some (p ++ (if Ascii.eqb (decoded x1 x2) NUL then []
                else decoded x1 x2 :: decoded x1 x2 :: r)).
Proof.
  intros Hroot (Hpn & Hpp & Hpq) Hlit Hx1 Hx2.
  destruct (literal_cons_inv Hlit) as (Hc0 & Hcq & Hrn & Hrp & Hrq).
  destruct (hex_is_text _ Hx1) as (Hx1n & Hx1q).
  destruct (hex_is_text _ Hx2) as (Hx2n & Hx2q).
  set (u := p ++ "%"%char :: x1 :: x2 :: c :: r).
  set (d := decoded x1 x2).
  assert (Hun : no_nul u).
  { unfold u. apply no_nul_app. split; [exact Hpn|].
    repeat constructor; auto; discriminate. }
  assert (Huq : ~ In "?"%char u).
  { unfold u. intros H. apply in_app_or in H.
    destruct H as [H|H]; [contradiction|].
    simpl in H. destruct H as [H|[H|[H|[H|H]]]];
      try discriminate; auto. }
  assert (Hua : is_absolute u = false).
  { apply rooted_not_absolute. destruct Hroot as (p' & ->).
    eexists. reflexivity. }
  assert (Hs : c_str (u ++ [NUL]) 0 = Some u)
    by (unfold c_str; cbn [skipn]; now apply until_nul_app).
  unfold canonify_uri, http_uri_canonify.
  rewrite Hs. cbn [obind]. rewrite (strchr_absent u) by (auto; discriminate).
  cbn [obind]. rewrite Hs. cbn [obind]. rewrite Hua. cbn [obind].
  (* the loop *)
  assert (Hbuf : u ++ [NUL]
                 = p ++ "%"%char :: x1 :: x2 :: (c :: r ++ [NUL])).
  { unfold u. rewrite <- app_assoc. reflexivity. }
  assert (Hblen : length (u ++ [NUL]) = length p + S (length r + 4)).
  { rewrite Hbuf, length_app. cbn [length]. rewrite length_app. simpl. lia. }
  rewrite Hblen.
  destruct (@unescape_to_escape p x1 x2 (c :: r ++ [NUL]) (length r + 4)
              Hpn Hpp Hx1 Hx2) as (b2 & Hl2 & Hn2 & Hu2).
  cbv zeta in Hl2, Hn2, Hu2. rewrite <- Hbuf in Hl2, Hn2, Hu2.
  fold d in Hn2.
  assert (Hnb : forall j, nth_error (u ++ [NUL]) j =
                  if j <? length p then nth_error p j
                  else nth_error ("%"%char :: x1 :: x2 :: c :: r ++ [NUL])
                         (j - length p)).
  { intros j. rewrite Hbuf. apply nth_error_app. }
  rewrite Hu2 at 1.
  destruct (@unescape_literal_run r b2 (length p + 4) (length p + 2) 4)
    as (b3 & Hl3 & Hn3 & Hu3); auto; try lia.
  { intros k Hk. rewrite Hn2, Hnb.
    destruct (Nat.leb_spec (length p) (length p + 4 + k)),
      (Nat.ltb_spec (length p + 4 + k) (length p + 2)),
      (Nat.ltb_spec (length p + 4 + k) (length p)); cbn [andb]; try lia.
    replace (length p + 4 + k - length p) with (S (S (S (S k)))) by lia.
    cbn [nth_error]. now rewrite nth_error_app1. }
  rewrite Hu3.
  assert (Hend : peek b3 (length p + 4 + length r) = Some NUL).
  { unfold peek. rewrite Hn3, Hn2, Hnb.
    destruct (Nat.leb_spec (length p + 2) (length p + 4 + length r)),
      (Nat.ltb_spec (length p + 4 + length r) (length p + 2 + length r)),
      (Nat.leb_spec (length p) (length p + 4 + length r)),
      (Nat.ltb_spec (length p + 4 + length r) (length p + 2)),
      (Nat.ltb_spec (length p + 4 + length r) (length p));
      cbn [andb]; try lia.
    replace (length p + 4 + length r - length p)
      with (S (S (S (S (length r))))) by lia.
    cbn [nth_error]. rewrite nth_error_app2, Nat.sub_diag by lia.
    reflexivity. }
  rewrite (@unescape_at_end 3 _ _ (length p + 2 + length r) Hend).
  assert (Hdst : length p + 2 + length r < length b3) by lia.
  destruct (@poke_defined b3 (length p + 2 + length r) NUL Hdst)
    as (b4 & Hb4).
  rewrite Hb4. cbn [obind deref]. unfold c_str. cbn [skipn].
  pose proof (poke_nth _ _ _ Hb4) as Hn4.
  assert (Hfinal : forall j,
            nth_error b4 j =
            if j <? length p then nth_error p j
            else if j <? length p + 2 then Some d
            else if j <? length p + 2 + length r
                 then nth_error r (j - (length p + 2))
            else if j =? length p + 2 + length r then Some NUL
            else nth_error (u ++ [NUL]) j).
  { intros j. rewrite Hn4, Hn3, Hn2, Hnb.
    destruct (Nat.eqb_spec j (length p + 2 + length r)),
      (Nat.leb_spec (length p + 2) j),
      (Nat.ltb_spec j (length p + 2 + length r)),
      (Nat.leb_spec (length p) j), (Nat.ltb_spec j (length p + 2)),
      (Nat.ltb_spec j (length p)); cbn [andb]; try lia; reflexivity. }
  destruct (Ascii.eqb_spec d NUL) as [Hd|Hd].
  - rewrite app_nil_r. apply until_nul_intro; [exact Hpn| |].
    + intros j Hj. rewrite Hfinal.
      destruct (Nat.ltb_spec j (length p)); [reflexivity | lia].
    + rewrite Hfinal.
      destruct (Nat.ltb_spec (length p) (length p)),
        (Nat.ltb_spec (length p) (length p + 2)); try lia.
      now rewrite Hd.
  - apply until_nul_intro.
    + apply no_nul_app. split; [exact Hpn|]. repeat constructor; auto.
    + intros j Hj. rewrite length_app in Hj. cbn [length] in Hj.
      rewrite Hfinal, (nth_error_app p (d :: d :: r)).
      destruct (Nat.ltb_spec j (length p)); [reflexivity|].
      destruct (Nat.ltb_spec j (length p + 2)).
      * destruct (j - length p) as [|[|k]] eqn:E; try lia; reflexivity.
      * destruct (Nat.ltb_spec j (length p + 2 + length r)); [|lia].
        replace (j - length p) with (S (S (j - (length p + 2)))) by lia.
        reflexivity.
    + rewrite Hfinal, length_app. cbn [length].
      destruct (Nat.ltb_spec (length p + S (S (length r))) (length p)),
        (Nat.ltb_spec (length p + S (S (length r))) (length p + 2)),
        (Nat.ltb_spec (length p + S (S (length r))) (length p + 2 + length r)),
        (Nat.eqb_spec (length p + S (S (length r))) (length p + 2 + length r));
        try lia; reflexivity.
Qed.

Lemma canonify_single_escape_witness :
  canonify_uri (lit "/x" ++ "%"%char :: "4"%char :: "1"%char :: "b"%char :: lit "c")
  = Some (lit "/x" ++ (if Ascii.eqb (decoded "4" "1") NUL then []
                       else decoded "4" "1" :: decoded "4" "1" :: lit "c")).
Proof.
  apply (@canonify_single_escape (lit "/x") (lit "c") "4" "1" "b").
  - exists (lit "x"). reflexivity.
  - repeat split; [repeat constructor; discriminate | |];
      simpl; intros H; repeat (destruct H as [H|H]; [discriminate|]); exact H.
  - repeat split; [repeat constructor; discriminate | |];
      simpl; intros H; repeat (destruct H as [H|H]; [discriminate|]); exact H.
  - reflexivity.
  - reflexivity.
Defined.

(** X5.  An escape that ends the URI takes the read cursor past the
    terminator and out of the buffer. *)
Theorem canonify_escape_at_end (p : cstr) (x1 x2 : ascii) :
  rooted p -> literal p ->
  isxdigit x1 = true -> isxdigit x2 = true ->
  canonify_uri (p ++ ["%"%char; x1; x2]) = None.
Proof.
  intros Hroot (Hpn & Hpp & Hpq) Hx1 Hx2.
  destruct (hex_is_text _ Hx1) as (Hx1n & Hx1q).
  destruct (hex_is_text _ Hx2) as (Hx2n & Hx2q).
  set (u := p ++ ["%"%char; x1; x2]).
  assert (Hun : no_nul u).
  { unfold u. apply no_nul_app. split; [exact Hpn|].
    repeat constructor; auto; discriminate. }
  assert (Huq : ~ In "?"%char u).
  { unfold u. intros H. apply in_app_or in H.
    destruct H as [H|H]; [contradiction|].
    simpl in H. destruct H as [H|[H|[H|H]]]; try discriminate; auto. }
  assert (Hua : is_absolute u = false).
  { apply rooted_not_absolute. destruct Hroot as (p' & ->).
    eexists. reflexivity. }
  assert (Hs : c_str (u ++ [NUL]) 0 = Some u)
    by (unfold c_str; cbn [skipn]; now apply until_nul_app).
  unfold canonify_uri, http_uri_canonify.
  rewrite Hs. cbn [obind]. rewrite (strchr_absent u) by (auto; discriminate).
  cbn [obind]. rewrite Hs. cbn [obind]. rewrite Hua. cbn [obind].
  assert (Hbuf : u ++ [NUL] = p ++ "%"%char :: x1 :: x2 :: [NUL]).
  { unfold u. rewrite <- app_assoc. reflexivity. }
  assert (Hblen : length (u ++ [NUL]) = length p + S 3).
  { rewrite Hbuf, length_app. simpl. lia. }
  rewrite Hblen.
  destruct (@unescape_to_escape p x1 x2 [NUL] 3 Hpn Hpp Hx1 Hx2)
    as (b2 & Hl2 & Hn2 & Hu2).
  cbv zeta in Hl2, Hn2, Hu2. rewrite <- Hbuf in Hl2, Hn2, Hu2.
  rewrite Hu2 at 1. cbn [unescape].
  unfold peek. replace (nth_error b2 (length p + 4)) with (@None ascii);
    [reflexivity|].
  symmetry. apply nth_error_None. lia.
Qed.

Lemma canonify_escape_at_end_witness :
  canonify_uri (lit "/x" ++ ["%"%char; "4"%char; "1"%char]) = None.
Proof.
  apply (@canonify_escape_at_end (lit "/x") "4" "1").
  - exists (lit "x"). reflexivity.
  - repeat split; [repeat constructor; discriminate | |];
      simpl; intros H; repeat (destruct H as [H|H]; [discriminate|]); exact H.
  - reflexivity.
  - reflexivity.
Defined.

Lemma tolower_not (c x y : ascii) :
  tolower c = x -> tolower y = y -> x <> y -> c <> y.
Proof. intros Hc Hy Hxy ->. congruence. Qed.

(** What a scheme prefix looks like to the canonifier. *)
Lemma scheme_facts (sch : cstr) :
  is_scheme sch ->
  no_nul sch /\ ~ In "?"%char sch /\ 3 <= length sch /\
  forall rest,
    is_absolute (sch ++ rest) = true /\
    strchr (sch ++ rest) ":" = Some (length sch - 3).
Proof.
  assert (Hnot : forall c x, tolower c = x ->
            in_range "a" "z" x = true ->
            c <> NUL /\ c <> "?"%char /\ c <> ":"%char).
  { intros c x Hc Hx.
    repeat split; apply (tolower_not Hc); try reflexivity;
      intros ->; discriminate. }
  assert (Hfix : forall c x, tolower c = x ->
            in_range "A" "Z" x = false -> in_range "a" "z" x = false ->
            c = x).
  { intros c x Hc H1 H2. now apply tolower_fixes. }
  intros [H|H]; unfold same_nocase in H.
  - change (map tolower (lit "http://"))
      with ["h"; "t"; "t"; "p"; ":"; "/"; "/"]%char in H.
    destruct sch as [|c0 [|c1 [|c2 [|c3 [|c4 [|c5 [|c6 [|c7 sch]]]]]]]];
      try discriminate H.
    injection H as H0 H1 H2 H3 H4 H5 H6.
    apply Hfix in H4; [|reflexivity|reflexivity].
    apply Hfix in H5; [|reflexivity|reflexivity].
    apply Hfix in H6; [|reflexivity|reflexivity].
    destruct (Hnot _ _ H0 eq_refl) as (A0 & B0 & C0).
    destruct (Hnot _ _ H1 eq_refl) as (A1 & B1 & C1).
    destruct (Hnot _ _ H2 eq_refl) as (A2 & B2 & C2).
    destruct (Hnot _ _ H3 eq_refl) as (A3 & B3 & C3).
    subst c4 c5 c6.
    split; [repeat constructor; auto; discriminate|].
    split; [simpl; intuition (try discriminate; auto)|].
    split; [simpl; lia|].
    intros rest. split.
    + unfold is_absolute, nni_strncasecmp. apply orb_true_iff. left.
      apply is_eq_strncmp. cbn [app map]. rewrite H0, H1, H2, H3.
      reflexivity.
    + change ((c0 :: c1 :: c2 :: c3 :: ":"%char :: "/"%char :: "/"%char :: nil)
                ++ rest)
        with ([c0; c1; c2; c3] ++ ":"%char :: ("/"%char :: "/"%char :: rest)).
      rewrite strchr_first; [reflexivity|].
      simpl. intuition congruence.
  - change (map tolower (lit "https://"))
      with ["h"; "t"; "t"; "p"; "s"; ":"; "/"; "/"]%char in H.
    destruct sch as [|c0 [|c1 [|c2 [|c3 [|c4 [|c5 [|c6 [|c7 [|c8 sch]]]]]]]]];
      try discriminate H.
    injection H as H0 H1 H2 H3 H4 H5 H6 H7.
    apply Hfix in H5; [|reflexivity|reflexivity].
    apply Hfix in H6; [|reflexivity|reflexivity].
    apply Hfix in H7; [|reflexivity|reflexivity].
    destruct (Hnot _ _ H0 eq_refl) as (A0 & B0 & C0).
    destruct (Hnot _ _ H1 eq_refl) as (A1 & B1 & C1).
    destruct (Hnot _ _ H2 eq_refl) as (A2 & B2 & C2).
    destruct (Hnot _ _ H3 eq_refl) as (A3 & B3 & C3).
    destruct (Hnot _ _ H4 eq_refl) as (A4 & B4 & C4).
    subst c5 c6 c7.
    split; [repeat constructor; auto; discriminate|].
    split; [simpl; intuition (try discriminate; auto)|].
    split; [simpl; lia|].
    intros rest. split.
    + unfold is_absolute, nni_strncasecmp. apply orb_true_iff. right.
      apply is_eq_strncmp. cbn [app map]. rewrite H0, H1, H2, H3, H4.
      reflexivity.
    + change ((c0 :: c1 :: c2 :: c3 :: c4 :: ":"%char :: "/"%char :: "/"%char
                  :: nil) ++ rest)
        with ([c0; c1; c2; c3; c4] ++ ":"%char :: ("/"%char :: "/"%char :: rest)).
      rewrite strchr_first; [reflexivity|].
      simpl. intuition congruence.
Qed.

Lemma skipn_app_exact (A : Type) (a b : list A) : skipn (length a) (a ++ b) = b.
Proof. now rewrite skipn_app, skipn_all, Nat.sub_diag. Qed.

(** The canonifier up to its loop, on an absolute URI without a query. *)
Lemma canonify_absolute_head (sch host t : cstr) :
  is_scheme sch -> no_nul host -> ~ In "?"%char host ->
  no_nul t -> ~ In "?"%char t ->
  let b := (sch ++ host ++ t) ++ [NUL] in
  http_uri_canonify b =
  match strchr (host ++ t) "/" with
  | Some j =>
      b' <- unescape (length b) b (length sch + j) (length sch + j);;
      Some (Into b' (length sch + j))
  | None => Some Static_slash
  end.
Proof.
  intros Hsch Hhn Hhq Htn Htq b.
  destruct (scheme_facts Hsch) as (Hsn & Hsq & Hs3 & Hsf).
  assert (Hun : no_nul (sch ++ host ++ t))
    by (apply no_nul_app; split; [|apply no_nul_app]; auto).
  assert (Hs : c_str b 0 = Some (sch ++ host ++ t))
    by (unfold c_str, b; cbn [skipn]; now apply until_nul_app).
  assert (Hh : c_str b (length sch) = Some (host ++ t)).
  { unfold c_str, b. rewrite <- app_assoc, skipn_app_exact.
    apply until_nul_app. apply no_nul_app. auto. }
  unfold http_uri_canonify.
  rewrite Hs. cbn [obind].
  rewrite (strchr_absent (sch ++ host ++ t)).
  2: discriminate.
  2:{ intros H. apply in_app_or in H. destruct H as [H|H]; [auto|].
      apply in_app_or in H. destruct H; auto. }
  cbn [obind]. rewrite Hs. cbn [obind].
  destruct (Hsf (host ++ t)) as (-> & ->). cbn [obind].
  replace (length sch - 3 + 3) with (length sch) by lia.
  rewrite Hh. cbn [obind].
  destruct (strchr (host ++ t) "/"); reflexivity.
Qed.

(** X6.  An absolute URI is reduced to its path.  After [http://] or
    [https://] in any mix of cases and an authority, a path that needs
    no decoding is returned as it is; when nothing follows the authority
    the path is ["/"]. *)
Theorem canonify_absolute (sch host p : cstr) :
  is_scheme sch -> authority host ->
  rooted p -> no_nul p -> ~ In "?"%char p -> has_escape p = false ->
  canonify_uri (sch ++ host ++ p) = Some p /\
  canonify_uri (sch ++ host) = Some (lit "/").
Proof.
  intros Hsch ((Hhn & _ & Hhq) & Hhs) Hroot Hpn Hpq Hesc.
  split.
  - unfold canonify_uri.
    rewrite (canonify_absolute_head Hsch Hhn Hhq Hpn Hpq).
    destruct Hroot as (p' & ->).
    rewrite strchr_first by exact Hhs.
    replace ((sch ++ host ++ "/"%char :: p') ++ [NUL])
      with ((sch ++ host) ++ ("/"%char :: p') ++ NUL :: [])
      by (now rewrite <- !app_assoc).
    replace (length sch + length host) with (length (sch ++ host))
      by apply length_app.
    rewrite unescape_plain_tail; auto.
    + cbn [obind deref]. unfold c_str. rewrite skipn_app_exact.
      now apply until_nul_app.
    + rewrite !length_app. simpl. lia.
  - unfold canonify_uri.
    pose proof (@canonify_absolute_head sch host [] Hsch Hhn Hhq
                  (Forall_nil _) (fun H => H)) as Hhead.
    cbv zeta in Hhead. rewrite !app_nil_r in Hhead. rewrite Hhead.
    rewrite (strchr_absent host) by (auto; discriminate).
    reflexivity.
Qed.

Lemma canonify_absolute_witness :
  canonify_uri (lit "HTTP://" ++ lit "host:80" ++ lit "/a/b") = Some (lit "/a/b") /\
  canonify_uri (lit "HTTP://" ++ lit "host:80") = Some (lit "/").
Proof.
  apply (@canonify_absolute (lit "HTTP://") (lit "host:80") (lit "/a/b")).
  - left. reflexivity.
  - repeat split; [repeat constructor; discriminate | | |];
      simpl; intros H; repeat (destruct H as [H|H]; [discriminate|]); exact H.
  - exists (lit "a/b"). reflexivity.
  - repeat constructor; discriminate.
  - simpl. intros H. repeat (destruct H as [H|H]; [discriminate|]). exact H.
  - reflexivity.
Defined.

(** ** Facts about host matching *)

Lemma strip_dot_length (host : cstr) :
  (let len := strlen host in
   if (0 <? len) &&
      match idx host (len - 1) with
      | Some c => Ascii.eqb c "."
      | None => false
      end
   then len - 1 else len) = length (strip_dot host) /\
  firstn (length (strip_dot host)) host = strip_dot host.
Proof.
  unfold strlen, idx. induction host as [|c s IH]; [split; reflexivity|].
  destruct s as [|c' s].
  - simpl. destruct (Ascii.eqb c "."); split; reflexivity.
  - cbv zeta in IH |- *. destruct IH as [IH1 IH2].
    change (strip_dot (c :: c' :: s)) with (c :: strip_dot (c' :: s)).
    cbn [length firstn]. rewrite IH2. split; [|reflexivity].
    replace (S (S (length s)) - 1) with (S (length s)) by lia.
    cbn [nth_error Nat.ltb Nat.leb andb].
    cbn [length] in IH1.
    replace (S (length s) - 1) with (length s) in IH1 by lia.
    cbn [Nat.ltb Nat.leb andb] in IH1.
    destruct (match nth_error (c' :: s) (length s) with
              | Some c0 => Ascii.eqb c0 "."
              | None => false
              end); lia.
Qed.

Lemma strncasecmp_prefix (val h : cstr) :
  is_eq (nni_strncasecmp val h (length h)) = true <->
  exists name tail, val = name ++ tail /\ same_nocase name h.
Proof.
  unfold nni_strncasecmp, same_nocase. rewrite is_eq_strncmp.
  assert (Hall : firstn (length h) (map tolower h) = map tolower h)
    by (apply firstn_all2; rewrite length_map; lia).
  rewrite Hall.
  split.
  - intros H. exists (firstn (length h) val), (skipn (length h) val).
    split; [symmetry; apply firstn_skipn|].
    now rewrite <- firstn_map.
  - intros (name & tail & -> & Hn).
    rewrite map_app, <- Hn.
    replace (length h) with (length (map tolower name))
      by (rewrite Hn; apply length_map).
    rewrite firstn_app, Nat.sub_diag, firstn_all. simpl. apply app_nil_r.
Qed.

Lemma strncasecmp_firstn (val host : cstr) (n : nat) :
  nni_strncasecmp val host n = nni_strncasecmp val (firstn n host) n.
Proof.
  unfold nni_strncasecmp. rewrite <- firstn_map.
  generalize (map tolower val) (map tolower host). clear.
  induction n as [|n IH]; intros a b; [reflexivity|].
  destruct a as [|x a], b as [|y b]; simpl; try reflexivity.
  destruct (uchar x ?= uchar y)%N; auto.
Qed.

Section HostFacts.
Context {codec : HttpMsg}.

(** X7.  The host rule of lookup.  A handler without a host accepts every
    request; a handler with a host accepts the requests whose Host
    header names that host. *)
Theorem host_match_rule (rq : nni_http_req) (h : http_handler) :
  host_ok rq h = true <->
  match h_host h with
  | None => True
  | Some host =>
      exists val,
        nni_http_req_get_header rq (lit "Host") = Some val /\
        host_matches host val
  end.
Proof.
  unfold host_ok. destruct (h_host h) as [host|]; [|tauto].
  destruct (nni_http_req_get_header rq (lit "Host")) as [val|].
  2:{ split; [discriminate|]. intros (val & Hv & _). discriminate. }
  destruct (strip_dot_length host) as [Hlen Hfirst].
  cbv zeta in Hlen |- *. rewrite Hlen.
  rewrite strncasecmp_firstn, Hfirst.
  set (name0 := strip_dot host) in *.
  assert (Htail : forall name tail,
            length name = length name0 ->
            match idx (name ++ tail) (length name0) with
            | Some c =>
                if Ascii.eqb c ":" then true
                else if Ascii.eqb c "."
                     then match idx (name ++ tail) (length name0 + 1) with
                          | Some _ => false
                          | None => true
                          end
                     else false
            | None => true
            end = true <->
            (tail = [] \/ (exists port, tail = ":"%char :: port) \/
             tail = lit ".")).
  { intros name tail Hl. unfold idx. rewrite <- Hl.
    rewrite !nth_error_app2 by lia.
    replace (length name - length name) with 0 by lia.
    replace (length name + 1 - length name) with 1 by lia.
    destruct tail as [|c tail]; cbn [nth_error].
    - split; auto.
    - destruct (Ascii.eqb_spec c ":") as [->|Hc].
      + split; [intros _; right; left; eauto | auto].
      + destruct (Ascii.eqb_spec c ".") as [->|Hd].
        * destruct tail as [|c2 tail].
          -- split; [intros _; right; right; reflexivity | auto].
          -- split; [discriminate|].
             intros [H|[(port & H)|H]]; discriminate.
        * split; [discriminate|].
          intros [H|[(port & H)|H]]; try discriminate.
          -- injection H as -> _. congruence.
          -- injection H as -> _. congruence. }
  destruct (is_eq (nni_strncasecmp val name0 (length name0))) eqn:E;
    cbn [negb].
  - apply strncasecmp_prefix in E. destruct E as (name & tail & -> & Hn).
    assert (Hl : length name = length name0).
    { apply (f_equal (@length _)) in Hn. now rewrite !length_map in Hn. }
    rewrite (Htail name tail Hl). split.
    + intros Ht. exists (name ++ tail). split; [reflexivity|].
      exists name, tail. auto.
    + intros (val & [= <-] & name' & tail' & Heq & Hn' & Ht').
      assert (Hl' : length name' = length name0).
      { apply (f_equal (@length _)) in Hn'. now rewrite !length_map in Hn'. }
      assert (tail' = tail).
      { apply (f_equal (skipn (length name0))) in Heq.
        rewrite <- Hl in Heq at 1. rewrite <- Hl' in Heq.
        now rewrite !skipn_app_exact in Heq. }
      now subst tail'.
  - split; [discriminate|].
    intros (val' & [= <-] & name & tail & Heq & Hn & _).
    assert (is_eq (nni_strncasecmp val name0 (length name0)) = true)
      by (apply strncasecmp_prefix; eauto).
    congruence.
Qed.

End HostFacts.

(** ** More facts about the registry *)

Lemma trim_slashes_idem (p : cstr) : trim_slashes (trim_slashes p) = trim_slashes p.
Proof.
  induction p as [|c p IH]; [reflexivity|]. simpl.
  destruct (trim_slashes p) as [|x t] eqn:E.
  - destruct (Ascii.eqb_spec c "/") as [|Hc]; [reflexivity|]. simpl.
    destruct (Ascii.eqb_spec c "/"); [contradiction | reflexivity].
  - simpl. simpl in IH. rewrite IH. reflexivity.
Qed.

Lemma FOP_snoc (A : Type) (R : A -> A -> Prop) (l : list A) (x : A) :
  ForallOrdPairs R l -> Forall (fun a => R a x) l ->
  ForallOrdPairs R (l ++ [x]).
Proof.
  induction 1 as [|a l Ha Hl IH]; intros Hx; simpl.
  - constructor; constructor.
  - inversion Hx; subst. constructor; [|auto].
    apply Forall_app. split; [exact Ha | constructor; auto].
Qed.

Lemma FOP_nth (A : Type) (R : A -> A -> Prop) (l : list A) :
  ForallOrdPairs R l ->
  forall i j a b, i < j -> nth_error l i = Some a -> nth_error l j = Some b ->
    R a b.
Proof.
  induction 1 as [|x l Hx Hl IH]; intros i j a b Hij Hi Hj.
  - destruct i; discriminate.
  - destruct j as [|j]; [lia|]. simpl in Hj.
    destruct i as [|i]; simpl in Hi.
    + injection Hi as ->. rewrite Forall_forall in Hx.
      apply Hx. eapply nth_error_In; eauto.
    + apply (IH i j); auto. lia.
Qed.

Lemma add_success (mem : bool) handlers hh arg freeit hs' h :
  http_server_add_handler mem handlers hh arg freeit = inr (hs', h) ->
  exists method path cb,
    valid_descriptor hh method path /\ hh_cb hh = Some cb /\
    h = with_refcnt (fresh_record hh method path cb arg freeit) 1 /\
    hs' = handlers ++ [h] /\
    forall h2, In h2 handlers ->
      ~ conflicts h2 method (hh_host hh) (trim_slashes path).
Proof.
  intros H.
  assert (Hmem : mem = true).
  { unfold http_server_add_handler in H.
    destruct (hh_method hh), (hh_path hh), (hh_cb hh); try discriminate.
    destruct (is_eq _); [discriminate|].
    destruct mem; [reflexivity | discriminate]. }
  subst mem.
  assert (Hv : exists method path, valid_descriptor hh method path).
  { unfold http_server_add_handler in H. unfold valid_descriptor.
    destruct (hh_method hh) as [m|], (hh_path hh) as [p|],
      (hh_cb hh) as [cb|]; try discriminate.
    exists m, p. repeat split; try discriminate.
    destruct (is_eq (strcmp m (lit "HEAD"))) eqn:E; [discriminate|].
    now apply is_eq_strcmp_false. }
  destruct Hv as (method & path & Hv).
  destruct (add_handler_unfold handlers arg freeit Hv) as (cb & Hcb & Hun).
  rewrite Hun in H. cbv zeta in H.
  destruct (existsb _ handlers) eqn:E; [discriminate|].
  injection H as <- <-.
  exists method, path, cb. repeat split; auto; try apply Hv.
  intros h2 Hin Hc.
  assert (existsb (collides (fresh_record hh method path cb arg freeit)
                     (strlen (h_path (fresh_record hh method path cb arg freeit))))
            handlers = true).
  { apply existsb_collides. exists h2. split; auto. }
  congruence.
Qed.

(** X8.  [add] keeps the registry well formed.  In a registry built by
    [add] no stored method is HEAD, no stored path ends in a slash, and
    no record collides with one registered after it; a successful [add]
    appends exactly one record, with reference count 1. *)
Theorem add_keeps_registry (mem : bool) (hs hs' : list http_handler)
    (hh : nni_http_handler) (arg : addr) (freeit : option addr)
    (h : http_handler) :
  registry_ok hs ->
  http_server_add_handler mem hs hh arg freeit = inr (hs', h) ->
  registry_ok hs' /\ hs' = hs ++ [h] /\ h_refcnt h = 1%Z /\
  h_host h = hh_host hh /\ h_is_dir h = hh_is_dir hh /\
  h_is_upgrader h = hh_is_upgrader hh.
Proof.
  intros (Hst & Hcf) Hadd.
  destruct (add_success _ _ _ _ _ Hadd)
    as (method & path & cb & Hv & Hcb & -> & -> & Hno).
  split; [|repeat split].
  split.
  - apply Forall_app. split; [exact Hst|]. constructor; [|constructor].
    split; simpl; [apply Hv | apply trim_slashes_idem].
  - apply FOP_snoc; [exact Hcf|].
    apply Forall_forall. intros h2 Hin. simpl. now apply Hno.
Qed.

Lemma add_keeps_registry_witness :
  registry_ok [demo_root_record] /\
  [demo_root_record] = [] ++ [demo_root_record] /\
  h_refcnt demo_root_record = 1%Z /\
  h_host demo_root_record = hh_host demo_root /\
  h_is_dir demo_root_record = hh_is_dir demo_root /\
  h_is_upgrader demo_root_record = hh_is_upgrader demo_root.
Proof.
  apply (@add_keeps_registry true [] [demo_root_record] demo_root 0 None
           demo_root_record).
  - split; constructor.
  - reflexivity.
Defined.

Lemma common_prefix_of_prefixes (a b r1 r2 : cstr) :
  a ++ r1 = b ++ r2 -> common_prefix a b.
Proof.
  intros H. unfold common_prefix.
  set (L := Nat.min (length a) (length b)).
  assert (Ha : firstn L a = firstn L (a ++ r1))
    by (rewrite firstn_app; replace (L - length a) with 0 by lia;
        simpl; now rewrite app_nil_r).
  assert (Hb : firstn L b = firstn L (b ++ r2))
    by (rewrite firstn_app; replace (L - length b) with 0 by lia;
        simpl; now rewrite app_nil_r).
  now rewrite Ha, Hb, H.
Qed.

Section RegistryLookup.
Context {codec : HttpMsg}.

(** Two records that both take a request have equal methods, unless one
    of them is registered for HEAD. *)
Lemma hits_share_method rq path (h1 h2 : http_handler) :
  try_handler rq path h1 = Hit -> try_handler rq path h2 = Hit ->
  h_method h1 <> lit "HEAD" -> h_method h2 <> lit "HEAD" ->
  h_method h1 = h_method h2 /\ common_prefix (h_path h1) (h_path h2).
Proof.
  intros H1 H2 N1 N2.
  apply try_handler_hit in H1. destruct H1 as (_ & P1 & M1).
  apply try_handler_hit in H2. destruct H2 as (_ & P2 & M2).
  split.
  - unfold method_ok in M1, M2.
    destruct (is_eq (strcmp (nni_http_req_get_method rq) (h_method h1))) eqn:E1;
      destruct (is_eq (strcmp (nni_http_req_get_method rq) (h_method h2))) eqn:E2.
    + apply is_eq_strcmp in E1, E2. congruence.
    + apply is_eq_strcmp in E1. apply andb_true_iff in M2.
      destruct M2 as (M2 & _). apply is_eq_strcmp in M2. congruence.
    + apply is_eq_strcmp in E2. apply andb_true_iff in M1.
      destruct M1 as (M1 & _). apply is_eq_strcmp in M1. congruence.
    + apply andb_true_iff in M1, M2.
      destruct M1 as (_ & M1), M2 as (_ & M2).
      apply is_eq_strcmp in M1, M2. congruence.
  - destruct (path_ok_prefix _ _ P1) as (r1 & E1).
    destruct (path_ok_prefix _ _ P2) as (r2 & E2).
    apply (@common_prefix_of_prefixes _ _ r1 r2). congruence.
Qed.

(** X9.  A handler registered without a host is found again.  After a
    successful [add], a request with the handler's method whose path
    passes the handler's path test is dispatched to the new record, not
    to an older one. *)
Theorem add_then_lookup (mem : bool) (hs hs' : list http_handler)
    (hh : nni_http_handler) (arg : addr) (freeit : option addr)
    (h : http_handler) (rq : nni_http_req) (path : cstr) :
  Forall (fun h2 => h_method h2 <> lit "HEAD") hs ->
  http_server_add_handler mem hs hh arg freeit = inr (hs', h) ->
  hh_host hh = None ->
  nni_http_req_get_method rq = h_method h \/
  (nni_http_req_get_method rq = lit "HEAD" /\ h_method h = lit "GET") ->
  path_ok path h = true ->
  fst (lookup rq path hs' 0 false) = Some (length hs, h).
Proof.
  intros Hnohead Hadd Hhost Hmeth Hpath.
  destruct (add_success _ _ _ _ _ Hadd)
    as (method & path0 & cb & Hv & Hcb & Hh & -> & Hno).
  assert (Hhm : h_method h = method) by (subst h; reflexivity).
  assert (Hhh : h_host h = None) by (subst h; simpl; exact Hhost).
  assert (Hhp : h_path h = trim_slashes path0) by (subst h; reflexivity).
  assert (Hhit : try_handler rq path h = Hit).
  { apply try_handler_hit. repeat split; auto.
    - unfold host_ok. now rewrite Hhh.
    - unfold method_ok. destruct Hmeth as [->|(-> & ->)].
      + replace (is_eq (strcmp (h_method h) (h_method h))) with true;
          [reflexivity|].
        symmetry. now apply is_eq_strcmp.
      + reflexivity. }
  destruct (lookup_first_hit rq path hs h [] 0 false) as (bm & ->); auto.
  intros h2 Hin Hit2.
  rewrite Forall_forall in Hnohead.
  assert (Hnh : h_method h <> lit "HEAD") by (rewrite Hhm; apply Hv).
  destruct (hits_share_method _ _ _ _ Hit2 Hhit (Hnohead _ Hin) Hnh)
    as (Hm & Hc).
  apply (Hno h2 Hin). unfold conflicts.
  rewrite Hhost, <- Hhp, <- Hhm. repeat split; auto.
  destruct (h_host h2); exact I.
Qed.

(** X10.  In a registry built by [add] whose handlers have no host, at most
    one record takes any given request: which one lookup returns does
    not depend on the order of registration. *)
Theorem match_is_unique (hs : list http_handler) (rq : nni_http_req)
    (path : cstr) (i j : nat) (hi hj : http_handler) :
  registry_ok hs ->
  Forall (fun h => h_host h = None) hs ->
  nth_error hs i = Some hi -> nth_error hs j = Some hj ->
  try_handler rq path hi = Hit -> try_handler rq path hj = Hit ->
  i = j.
Proof.
  intros (Hst & Hcf) Hnohost Hi Hj Hiti Hitj.
  rewrite Forall_forall in Hst, Hnohost.
  pose proof (nth_error_In _ _ Hi) as Ini.
  pose proof (nth_error_In _ _ Hj) as Inj.
  destruct (Hst _ Ini) as (Ni & _). destruct (Hst _ Inj) as (Nj & _).
  destruct (hits_share_method _ _ _ _ Hiti Hitj Ni Nj) as (Hm & Hc).
  destruct (hits_share_method _ _ _ _ Hitj Hiti Nj Ni) as (Hm' & Hc').
  destruct (Nat.lt_trichotomy i j) as [Hlt|[Heq|Hgt]]; [|exact Heq|].
  - exfalso. apply (FOP_nth Hcf Hlt Hi Hj).
    unfold conflicts. rewrite (Hnohost _ Ini), (Hnohost _ Inj).
    repeat split; auto.
  - exfalso. apply (FOP_nth Hcf Hgt Hj Hi).
    unfold conflicts. rewrite (Hnohost _ Ini), (Hnohost _ Inj).
    repeat split; auto.
Qed.

End RegistryLookup.

Lemma add_then_lookup_witness :
  http_server_add_handler true [demo_abc] demo_xyz 0 None
  = inr ([demo_abc; demo_xyz_record], demo_xyz_record)
  /\
  fst (lookup (demo_request (Some (lit "HTTP/1.1")) "GET") (lit "/xyz")
         [demo_abc; demo_xyz_record] 0 false)
  = Some (length [demo_abc], demo_xyz_record).
Proof.
  split; [reflexivity|].
  apply (@add_then_lookup Plain.codec true [demo_abc]
           [demo_abc; demo_xyz_record] demo_xyz 0 None demo_xyz_record).
  - constructor; [discriminate | constructor].
  - reflexivity.
  - reflexivity.
  - left. reflexivity.
  - reflexivity.
Defined.

Lemma match_is_unique_witness :
  registry_ok [demo_abc; demo_xyz_record] /\
  try_handler (demo_request (Some (lit "HTTP/1.1")) "GET") (lit "/xyz")
    demo_xyz_record = Hit /\
  (forall k h,
     nth_error [demo_abc; demo_xyz_record] k = Some h ->
     try_handler (demo_request (Some (lit "HTTP/1.1")) "GET") (lit "/xyz") h
     = Hit ->
     k = 1).
Proof.
  assert (Hok : registry_ok [demo_abc; demo_xyz_record]).
  { split.
    - repeat constructor; discriminate.
    - constructor; [|constructor; constructor].
      constructor; [|constructor].
      intros (_ & _ & Hp). vm_compute in Hp. discriminate. }
  split; [exact Hok|]. split; [reflexivity|].
  intros k h Hk Hh.
  apply (@match_is_unique Plain.codec [demo_abc; demo_xyz_record]
           (demo_request (Some (lit "HTTP/1.1")) "GET") (lit "/xyz")
           k 1 h demo_xyz_record Hok).
  - repeat constructor.
  - exact Hk.
  - reflexivity.
  - exact Hh.
  - reflexivity.
Defined.

Lemma hold_nth (hs : list http_handler) :
  forall i h, nth_error hs i = Some h ->
    nth_error (hold hs i) i = Some (with_refcnt h (h_refcnt h + 1)) /\
    firstn i (hold hs i) = firstn i hs /\
    skipn (S i) (hold hs i) = skipn (S i) hs /\
    length (hold hs i) = length hs.
Proof.
  induction hs as [|x hs IH]; intros i h Hi; [destruct i; discriminate|].
  destruct i as [|i]; simpl in Hi.
  - injection Hi as ->. simpl. auto.
  - destruct (IH i h Hi) as (A & B & C & D). cbn [hold].
    cbn [nth_error firstn length]. rewrite B, D.
    repeat split; auto.
Qed.

Section DeletionFacts.
Context {codec : HttpMsg}.

(** X11.  Deleting the record that [add] just stored restores the registry
    and destroys the record. *)
Theorem add_then_delete (mem : bool) (hs hs' : list http_handler)
    (hh : nni_http_handler) (arg : addr) (freeit : option addr)
    (h : http_handler) :
  http_server_add_handler mem hs hh arg freeit = inr (hs', h) ->
  nni_http_server_del_handler hs' (length hs)
  = Some (hs, with_refcnt h 0, [Handler_fini (with_refcnt h 0)]).
Proof.
  intros Hadd.
  destruct (add_success _ _ _ _ _ Hadd)
    as (method & path & cb & _ & _ & Hh & -> & _).
  unfold nni_http_server_del_handler.
  rewrite nth_error_app2, Nat.sub_diag by lia. cbn [nth_error obind].
  rewrite firstn_app, Nat.sub_diag, firstn_all. cbn [firstn].
  rewrite skipn_all2 by (rewrite length_app; simpl; lia).
  rewrite !app_nil_r. subst h. reflexivity.
Qed.

(** X12.  A record deleted while one request is being served by it lives
    on until that request's callback completes.  The deletion only drops
    the count to 1; the successful completion of the callback destroys
    the record; a failed completion returns before the count is
    touched, and the record is then never destroyed. *)
Theorem delete_during_dispatch (hs : list http_handler) (i : nat)
    (h : http_handler) :
  nth_error hs i = Some h -> h_refcnt h = 1%Z ->
  exists h1,
    nni_http_server_del_handler (hold hs i) i
    = Some (firstn i hs ++ skipn (S i) hs, h1, []) /\
    h_refcnt h1 = 1%Z /\
    (forall out sc,
       fst (http_sconn_cbdone None h1 out sc) = with_refcnt h 0 /\
       In (Handler_fini (with_refcnt h 0))
          (snd (snd (http_sconn_cbdone None h1 out sc)))) /\
    (forall e out sc,
       http_sconn_cbdone (Some e) h1 out sc = (h1, http_sconn_close sc)).
Proof.
  intros Hi Hr.
  destruct (hold_nth hs i Hi) as (Hn & Hf & Hs & _).
  unfold nni_http_server_del_handler. rewrite Hn, Hf, Hs. cbn [obind].
  rewrite Hr. cbn [with_refcnt h_refcnt Z.add Z.sub Z.pos_sub Z.eqb
                    Pos.add Pos.succ Pos.pred_double Z.succ_double
                    Z.pred_double Z.double].
  eexists. split; [reflexivity|]. split; [reflexivity|]. split.
  - intros out sc. unfold http_sconn_cbdone. cbn [rv_ok negb].
    cbn [with_refcnt h_refcnt h_is_upgrader Z.sub Z.pos_sub Z.eqb].
    destruct (match out with
              | Some r => _
              | None => _
              end) as [sc' acts].
    cbn [fst snd]. split; [destruct h; reflexivity|].
    apply in_or_app. left. left. destruct h; reflexivity.
  - intros e out sc. reflexivity.
Qed.

End DeletionFacts.

Lemma add_then_delete_witness :
  nni_http_server_del_handler (codec := Plain.codec) [demo_root_record]
    (length (@nil http_handler))
  = Some ([], with_refcnt demo_root_record 0,
          [Handler_fini (with_refcnt demo_root_record 0)]).
Proof.
  apply (@add_then_delete Plain.codec true [] [demo_root_record] demo_root
           0 None demo_root_record).
  reflexivity.
Defined.

Lemma delete_during_dispatch_witness :
  exists h1,
    nni_http_server_del_handler (codec := Plain.codec)
      (hold [demo_root_record] 0) 0
    = Some (firstn 0 [demo_root_record] ++ skipn 1 [demo_root_record], h1, []) /\
    h_refcnt h1 = 1%Z /\
    (forall out sc,
       fst (http_sconn_cbdone None h1 out sc) = with_refcnt demo_root_record 0 /\
       In (Handler_fini (with_refcnt demo_root_record 0))
          (snd (snd (http_sconn_cbdone None h1 out sc)))) /\
    (forall e out sc,
       http_sconn_cbdone (Some e) h1 out sc = (h1, http_sconn_close sc)).
Proof.
  apply (@delete_during_dispatch Plain.codec [demo_root_record] 0
           demo_root_record); reflexivity.
Defined.

Lemma strip_dot_snoc (host : cstr) : strip_dot (host ++ lit ".") = host.
Proof.
  induction host as [|c s IH]; [reflexivity|].
  change ((c :: s) ++ lit ".") with (c :: (s ++ lit ".")).
  cbn [strip_dot]. rewrite IH.
  destruct s; reflexivity.
Qed.

Section ShadowFacts.
Context {codec : HttpMsg}.

Lemma host_ok_strip (rq : nni_http_req) (h1 h2 : http_handler) (a b : cstr) :
  h_host h1 = Some a -> h_host h2 = Some b -> strip_dot a = strip_dot b ->
  host_ok rq h1 = host_ok rq h2.
Proof.
  intros H1 H2 E. unfold host_ok. rewrite H1, H2.
  destruct (nni_http_req_get_header rq (lit "Host")) as [val|];
    [|reflexivity].
  destruct (strip_dot_length a) as [La Fa].
  destruct (strip_dot_length b) as [Lb Fb].
  cbv zeta in La, Lb |- *. rewrite La, Lb.
  rewrite (strncasecmp_firstn val a), (strncasecmp_firstn val b), Fa, Fb, E.
  reflexivity.
Qed.

Lemma lookup_some rq path hs :
  forall k bm i h,
    fst (lookup rq path hs k bm) = Some (i, h) ->
    k <= i /\ nth_error hs (i - k) = Some h /\
    try_handler rq path h = Hit /\
    forall j x, j < i - k -> nth_error hs j = Some x ->
      try_handler rq path x <> Hit.
Proof.
  induction hs as [|y hs IH]; intros k bm i h H; [discriminate|].
  simpl in H.
  assert (Hrec : forall bm', try_handler rq path y <> Hit ->
            fst (lookup rq path hs (S k) bm') = Some (i, h) ->
            k <= i /\ nth_error (y :: hs) (i - k) = Some h /\
            try_handler rq path h = Hit /\
            forall j x, j < i - k -> nth_error (y :: hs) j = Some x ->
              try_handler rq path x <> Hit).
  { intros bm' Hy H'. destruct (IH _ _ _ _ H') as (A & B & C & D).
    split; [lia|]. replace (i - k) with (S (i - S k)) by lia.
    split; [exact B|]. split; [exact C|].
    intros j x Hj Hx. destruct j as [|j]; simpl in Hx.
    - injection Hx as <-. exact Hy.
    - apply (D j x); [lia | exact Hx]. }
  destruct (try_handler rq path y) eqn:E.
  - apply (Hrec bm); [discriminate | exact H].
  - simpl in H. injection H as <- <-. rewrite Nat.sub_diag.
    repeat split; auto. intros j x Hj. lia.
  - apply (Hrec true); [discriminate | exact H].
Qed.

(** X13.  The collision rule compares hosts as whole strings, lookup
    ignores a trailing dot.  A handler whose host differs from an older
    handler's only by the trailing dot is therefore accepted by [add],
    takes exactly the requests the older one takes, and is never the one
    lookup returns. *)
Theorem trailing_dot_shadows (host : cstr) (h1 h2 : http_handler)
    (pre mid post : list http_handler) :
  h_host h1 = Some (host ++ lit ".") -> h_host h2 = Some host ->
  strip_dot host = host ->
  h_method h1 = h_method h2 -> h_path h1 = h_path h2 ->
  h_is_dir h1 = h_is_dir h2 ->
  ~ conflicts h1 (h_method h2) (h_host h2) (h_path h2) /\
  (forall rq path, try_handler rq path h2 = try_handler rq path h1) /\
  (forall rq path bm h,
     fst (lookup rq path (pre ++ h1 :: mid ++ h2 :: post) 0 bm)
     <> Some (length pre + 1 + length mid, h)).
Proof.
  intros H1 H2 Hs Hm Hp Hd.
  assert (Htry : forall rq path,
            try_handler rq path h2 = try_handler rq path h1).
  { intros rq path. unfold try_handler.
    rewrite (host_ok_strip rq h2 h1 H2 H1)
      by (now rewrite strip_dot_snoc).
    unfold path_ok, method_ok. now rewrite Hp, Hd, Hm. }
  split; [|split; [exact Htry|]].
  - intros (_ & Hc & _). rewrite H1, H2 in Hc. unfold host_compatible,
      same_nocase in Hc.
    apply (f_equal (@length _)) in Hc.
    rewrite !length_map, length_app in Hc. simpl in Hc. lia.
  - intros rq path bm h Hl.
    destruct (lookup_some _ _ _ _ _ Hl) as (_ & Hn & Hit & Hfirst).
    rewrite Nat.sub_0_r in Hn, Hfirst.
    assert (Hh : h = h2).
    { rewrite nth_error_app2 in Hn by lia.
      replace (length pre + 1 + length mid - length pre)
        with (S (length mid)) in Hn by lia.
      cbn [nth_error] in Hn.
      rewrite nth_error_app2, Nat.sub_diag in Hn by lia.
      simpl in Hn. congruence. }
    subst h. apply (Hfirst (length pre) h1); [lia| |].
    + rewrite nth_error_app2, Nat.sub_diag by lia. reflexivity.
    + now rewrite <- Htry.
Qed.

(** X14.  [http_sconn_rxdone] and the registry.  Either it runs exactly one
    handler, a registered one, after adding one to that record's
    reference count; or it runs no handler and leaves the registry as it
    was. *)
Theorem rxdone_holds_what_it_runs (env : rx_env) (hs hs' : list http_handler)
    (sc sc' : http_sconn) (acts : list action) :
  http_sconn_rxdone env hs sc = Some (hs', (sc', acts)) ->
  (exists i h,
     nth_error hs i = Some h /\ hs' = hold hs i /\
     nth_error hs' i = Some (with_refcnt h (h_refcnt h + 1)) /\
     acts = [Run_handler (h_cb h) (h_arg h)]) \/
  (hs' = hs /\ forall cb arg, ~ In (Run_handler cb arg) acts).
Proof.
  assert (Hclose : forall s cb arg,
            ~ In (Run_handler cb arg) (snd (http_sconn_close s))).
  { intros s cb arg. unfold http_sconn_close, http_sconn_close_locked.
    destruct (Session.closed s), (http s); simpl; intuition discriminate. }
  assert (Herr : forall s e cb arg,
            ~ In (Run_handler cb arg) (snd (http_sconn_error s e))).
  { intros s e cb arg. unfold http_sconn_error.
    destruct (nni_http_res_init_error e) as [r|]; [|apply Hclose].
    destruct (close s).
    - destruct (nni_http_res_set_header r _ _).
      + simpl. intuition discriminate.
      + pose proof (Hclose s cb arg) as Hc.
        destruct (http_sconn_close s) as [s1 a1]. simpl in *.
        intros H. apply in_app_or in H. destruct H as [H|[H|[]]];
          [auto | discriminate].
    - simpl. intuition discriminate. }
  assert (Hdisp : forall rq s,
            rx_dispatch env hs rq s = Some (hs', (sc', acts)) ->
            (exists i h,
               nth_error hs i = Some h /\ hs' = hold hs i /\
               nth_error hs' i = Some (with_refcnt h (h_refcnt h + 1)) /\
               acts = [Run_handler (h_cb h) (h_arg h)]) \/
            (hs' = hs /\ forall cb arg, ~ In (Run_handler cb arg) acts)).
  { intros rq s. unfold rx_dispatch.
    destruct (rx_alloc env); cbn [negb].
    - destruct (canonify_uri (nni_http_req_get_uri rq)) as [path|];
        cbn [obind]; [|discriminate].
      destruct (lookup rq path hs 0 false) as [[[i h]|] bm] eqn:El.
      + destruct (rx_aio_start env).
        * intros [= <- <- <-]. left. exists i, h.
          assert (Hf : fst (lookup rq path hs 0 false) = Some (i, h))
            by now rewrite El.
          destruct (lookup_some _ _ _ _ _ Hf) as (_ & Hn & _ & _).
          rewrite Nat.sub_0_r in Hn.
          destruct (hold_nth hs i Hn) as (Hh & _).
          repeat split; auto.
        * intros [= <- <- <-]. right. split; [reflexivity|].
          intros cb arg [].
      + destruct bm; intros [= <- H]; right; (split; [reflexivity|]);
          intros cb arg.
        * pose proof (Herr s NNI_HTTP_STATUS_METHOD_NOT_ALLOWED cb arg) as G.
          now rewrite H in G.
        * pose proof (Herr s NNI_HTTP_STATUS_NOT_FOUND cb arg) as G.
          now rewrite H in G.
    - intros [= <- H]. right. split; [reflexivity|]. intros cb arg.
      pose proof (Hclose s cb arg) as G. now rewrite H in G. }
  unfold http_sconn_rxdone.
  destruct (rv_ok (rx_result env)); cbn [negb].
  - destruct (req sc) as [rq|]; cbn [obind]; [|discriminate].
    destruct (nni_http_req_get_version rq) as [v|].
    + destruct (is_eq (strncmp v (lit "HTTP/1.") 7)); cbn [negb].
      * apply Hdisp.
      * intros [= <- H]. right. split; [reflexivity|]. intros cb arg.
        pose proof (Herr (set_close sc true)
                      NNI_HTTP_STATUS_HTTP_VERSION_NOT_SUPP cb arg) as G.
        now rewrite H in G.
    + intros [= <- H]. right. split; [reflexivity|]. intros cb arg.
      pose proof (Herr (set_close sc true) NNI_HTTP_STATUS_BAD_REQUEST cb arg)
        as G.
      now rewrite H in G.
  - intros [= <- H]. right. split; [reflexivity|]. intros cb arg.
    pose proof (Hclose sc cb arg) as G. now rewrite H in G.
Qed.

End ShadowFacts.

Lemma trailing_dot_shadows_witness :
  let h1 := {| h_arg := 0; h_path := lit "/x"; h_method := lit "GET";
               h_host := Some (lit "example.com" ++ lit ".");
               h_is_upgrader := false; h_is_dir := false;
               h_refcnt := 1; h_cb := 1; h_free := None |} in
  let h2 := {| h_arg := 0; h_path := lit "/x"; h_method := lit "GET";
               h_host := Some (lit "example.com");
               h_is_upgrader := false; h_is_dir := false;
               h_refcnt := 1; h_cb := 2; h_free := None |} in
  ~ conflicts h1 (h_method h2) (h_host h2) (h_path h2) /\
  (forall rq path,
     try_handler (codec := Plain.codec) rq path h2 = try_handler rq path h1) /\
  (forall rq path bm h,
     fst (lookup (codec := Plain.codec) rq path ([] ++ h1 :: [] ++ h2 :: []) 0 bm)
     <> Some (length (@nil http_handler) + 1 + length (@nil http_handler), h)).
Proof.
  apply (@trailing_dot_shadows Plain.codec (lit "example.com")); reflexivity.
Defined.

Lemma rxdone_holds_what_it_runs_witness :
  (exists i h,
     nth_error [demo_root_record] i = Some h /\
     [with_refcnt demo_root_record 2] = hold [demo_root_record] i /\
     nth_error [with_refcnt demo_root_record 2] i
     = Some (with_refcnt h (h_refcnt h + 1)) /\
     [Run_handler (codec := Plain.codec) 1 0]
     = [Run_handler (h_cb h) (h_arg h)]) \/
  ([with_refcnt demo_root_record 2] = [demo_root_record] /\
   forall cb arg,
     ~ In (Run_handler cb arg) [Run_handler (codec := Plain.codec) 1 0]).
Proof.
  apply (@rxdone_holds_what_it_runs Plain.codec demo_env [demo_root_record]
           [with_refcnt demo_root_record 2]
           (demo_session (demo_request (Some (lit "HTTP/1.1")) "GET"))
           (demo_session (demo_request (Some (lit "HTTP/1.1")) "GET"))).
  reflexivity.
Defined.

(** ** More facts about the session callbacks *)

Section OrderFacts.
Context {codec : HttpMsg}.

Lemma orderly_refl (sc : http_sconn) : orderly sc (sc, []).
Proof.
  unfold orderly. repeat split; auto.
  destruct (Session.closed sc); reflexivity.
Qed.

Lemma orderly_trans (sc sc1 sc2 : http_sconn) (a1 a2 : list action) :
  orderly sc (sc1, a1) -> orderly sc1 (sc2, a2) -> orderly sc (sc2, a1 ++ a2).
Proof.
  unfold orderly, reaps. intros (A1 & B1 & C1 & D1) (A2 & B2 & C2 & D2).
  repeat split; auto; try congruence.
  rewrite filter_app, length_app. fold (reaps a1) (reaps a2).
  unfold reaps. rewrite D1, D2.
  destruct (Session.closed sc) eqn:E0.
  - rewrite (B1 eq_refl). reflexivity.
  - destruct (Session.closed sc1) eqn:E1.
    + rewrite (B2 eq_refl). reflexivity.
    + destruct (Session.closed sc2); reflexivity.
Qed.

Lemma orderly_update (sc sc' : http_sconn) (acts : list action) :
  (close sc = true -> close sc' = true) ->
  Session.closed sc' = Session.closed sc ->
  finished sc' = finished sc ->
  reaps acts = 0 ->
  orderly sc (sc', acts).
Proof.
  intros A B C D. unfold orderly. rewrite B, D.
  repeat split; auto. destruct (Session.closed sc); reflexivity.
Qed.

Lemma orderly_close (sc : http_sconn) : orderly sc (http_sconn_close sc).
Proof.
  unfold http_sconn_close, http_sconn_close_locked, orderly.
  destruct (Session.closed sc) eqn:E.
  - rewrite E. repeat split; auto.
  - destruct (http sc); simpl; repeat split; auto; discriminate.
Qed.

Lemma orderly_andthen (sc : http_sconn) (o : outcome)
    (k : http_sconn -> outcome) :
  orderly sc o -> (forall s, orderly s (k s)) -> orderly sc (andthen o k).
Proof.
  intros Ho Hk. unfold andthen. destruct o as [sc1 a1].
  specialize (Hk sc1). destruct (k sc1) as [sc2 a2].
  eapply orderly_trans; eauto.
Qed.

Lemma orderly_read_next (sc : http_sconn) : orderly sc (read_next sc).
Proof. unfold read_next. now apply orderly_update. Qed.

Lemma orderly_drop_res (sc : http_sconn) : orderly sc (drop_res sc).
Proof.
  unfold drop_res. destruct (res sc); now apply orderly_update.
Qed.

Lemma orderly_error (sc : http_sconn) (e : N) : orderly sc (http_sconn_error sc e).
Proof.
  unfold http_sconn_error.
  destruct (nni_http_res_init_error e) as [r|]; [|apply orderly_close].
  destruct (close sc) eqn:Ec.
  - destruct (nni_http_res_set_header r (lit "Connection") (lit "close"))
      as [r'|].
    + apply orderly_update; auto.
    + pose proof (orderly_close sc) as Hc.
      destruct (http_sconn_close sc) as [sc1 a1].
      apply (orderly_trans (sc1 := sc1)); [exact Hc|].
      now apply orderly_update.
  - apply orderly_update; auto; congruence.
Qed.

Lemma orderly_set_close (sc : http_sconn) (o : outcome) :
  orderly (set_close sc true) o -> orderly sc o.
Proof.
  unfold orderly. destruct o as [sc' acts]. simpl.
  intros (A & B & C & D). repeat split; auto.
Qed.

Lemma orderly_rx_close_flag (rq : nni_http_req) (v : cstr) (sc : http_sconn)
    (o : outcome) :
  orderly (rx_close_flag rq v sc) o -> orderly sc o.
Proof.
  assert (H : (close sc = true -> close (rx_close_flag rq v sc) = true) /\
              Session.closed (rx_close_flag rq v sc) = Session.closed sc /\
              finished (rx_close_flag rq v sc) = finished sc).
  { unfold rx_close_flag.
    destruct (nni_http_req_get_header rq (lit "Connection")) as [val|];
      [destruct (nni_strcasestr val (lit "close"))|];
      destruct (negb (is_eq (strcmp v (lit "HTTP/1.1")))); simpl; auto. }
  destruct H as (A & B & C).
  unfold orderly. destruct o as [sc' acts]. rewrite B, C.
  intros (A' & B' & C' & D'). repeat split; auto.
Qed.

(** X15.  Every session callback is orderly.  None of them clears [close]
    or [closed] or touches [finished], and each hands the session to the
    reaper once if it closes the session and not at all otherwise; so a
    session is reaped at most once however its callbacks interleave. *)
Theorem callbacks_are_orderly (sc : http_sconn) :
  orderly sc (http_sconn_close sc) /\
  (forall e, orderly sc (http_sconn_error sc e)) /\
  (forall rv, orderly sc (http_sconn_txdatdone rv sc)) /\
  (forall rv o, http_sconn_txdone rv sc = Some o -> orderly sc o) /\
  (forall env hs hs' o,
     http_sconn_rxdone env hs sc = Some (hs', o) -> orderly sc o) /\
  (forall rv h out, orderly sc (snd (http_sconn_cbdone rv h out sc))).
Proof.
  split; [apply orderly_close|]. split; [apply orderly_error|].
  split; [|split; [|split]].
  - intros rv. unfold http_sconn_txdatdone.
    destruct (negb (rv_ok rv)); [apply orderly_close|].
    apply orderly_andthen; [apply orderly_drop_res|].
    intros s. destruct (close s); [apply orderly_close|apply orderly_read_next].
  - intros rv o. unfold http_sconn_txdone.
    destruct (negb (rv_ok rv)).
    { intros [= <-]. apply orderly_close. }
    destruct (req sc) as [rq|]; cbn [obind]; [|discriminate].
    destruct (if is_eq (strcmp (nni_http_req_get_method rq) (lit "HEAD"))
              then Some []
              else r <- res sc;; Some (nni_http_res_get_data r))
      as [data|]; cbn [obind]; [|discriminate].
    destruct (negb (length data =? 0)).
    { intros [= <-]. now apply orderly_update. }
    destruct (close sc); intros [= <-]; [apply orderly_close|].
    apply orderly_andthen; [apply orderly_drop_res|].
    apply orderly_read_next.
  - intros env hs hs' o. unfold http_sconn_rxdone.
    destruct (negb (rv_ok (rx_result env))).
    { intros [= _ <-]. apply orderly_close. }
    destruct (req sc) as [rq|]; cbn [obind]; [|discriminate].
    destruct (nni_http_req_get_version rq) as [v|].
    2:{ intros [= _ <-]. apply orderly_set_close, orderly_error. }
    destruct (negb (is_eq (strncmp v (lit "HTTP/1.") 7))).
    { intros [= _ <-]. apply orderly_set_close, orderly_error. }
    intros H. apply (orderly_rx_close_flag rq v).
    revert H. generalize (rx_close_flag rq v sc). intros s.
    unfold rx_dispatch. destruct (negb (rx_alloc env)).
    { intros [= _ <-]. apply orderly_close. }
    destruct (canonify_uri (nni_http_req_get_uri rq)) as [path|];
      cbn [obind]; [|discriminate].
    destruct (lookup rq path hs 0 false) as [[[i h]|] bm].
    + destruct (rx_aio_start env); intros [= _ <-];
        now apply orderly_update.
    + destruct bm; intros [= _ <-]; apply orderly_error.
  - intros rv h out. unfold http_sconn_cbdone.
    destruct (negb (rv_ok rv)); [apply orderly_close|].
    cbv zeta.
    match goal with
    | |- context [let '(s, a) := ?X in _] =>
        assert (Ho : orderly sc X); [|destruct X as [s1 a1]]
    end.
    + destruct out as [r|].
      * destruct (nni_http_res_get_header r (lit "Connection")) as [val|];
          [destruct (strstr val (lit "close"))|];
          apply orderly_update; auto.
      * destruct (h_is_upgrader h).
        -- pose proof (orderly_close
                         (set_res (set_req (set_http sc false) None) None))
             as Hc.
           destruct (http_sconn_close _) as [s2 a2].
           apply (orderly_trans
                    (sc1 := set_res (set_req (set_http sc false) None) None)
                    (a1 := [])); [|exact Hc].
           now apply orderly_update.
        -- destruct (close sc);
             [apply orderly_close | apply orderly_read_next].
    + cbn [snd].
      apply (orderly_trans (sc1 := sc) (a1 := _)); [|exact Ho].
      apply orderly_update; auto.
      destruct (_ =? 0)%Z; reflexivity.
Qed.

End OrderFacts.

Section ResponseFacts.
Context {codec : HttpMsg}.

Lemma close_closes (sc : http_sconn) :
  Session.closed (fst (http_sconn_close sc)) = true /\
  ~ In Read_req (snd (http_sconn_close sc)).
Proof.
  unfold http_sconn_close, http_sconn_close_locked.
  destruct (Session.closed sc) eqn:E; cbn [fst snd].
  - split; [exact E | intros []].
  - split; [reflexivity|].
    destruct (http sc); simpl; intuition discriminate.
Qed.

Lemma drop_res_flags (sc : http_sconn) :
  close (fst (drop_res sc)) = close sc /\
  Session.closed (fst (drop_res sc)) = Session.closed sc /\
  req (fst (drop_res sc)) = req sc /\
  res (fst (drop_res sc)) = None /\
  snd (drop_res sc) =
    match res sc with Some r => [Res_fini r] | None => [] end.
Proof. unfold drop_res. destruct (res sc) eqn:E; simpl; auto. Qed.

(** X16.  A session whose [close] flag is set reads no further request.
    The completion of the body write closes it; the completion of the
    header write either posts the body write (a body is left to send)
    or closes it; a handler that finishes without a response closes
    it.  None of the three posts a read. *)
Theorem close_flag_ends_session (sc : http_sconn) (Hc : close sc = true) :
  (forall rv,
     Session.closed (fst (http_sconn_txdatdone rv sc)) = true /\
     ~ In Read_req (snd (http_sconn_txdatdone rv sc))) /\
  (forall rv o, http_sconn_txdone rv sc = Some o ->
     ~ In Read_req (snd o) /\
     (Session.closed (fst o) = true \/
      exists data, data <> [] /\ rv = None /\ o = (sc, [Write_full data]))) /\
  (forall rv h,
     Session.closed (fst (snd (http_sconn_cbdone rv h None sc))) = true /\
     ~ In Read_req (snd (snd (http_sconn_cbdone rv h None sc)))).
Proof.
  split; [|split].
  - intros rv. unfold http_sconn_txdatdone.
    destruct (negb (rv_ok rv)); [apply close_closes|].
    unfold andthen.
    destruct (drop_res_flags sc) as (A & B & _ & _ & E).
    destruct (drop_res sc) as [s1 a1]. cbn [fst snd] in *.
    rewrite A, Hc.
    destruct (close_closes s1) as [C1 C2].
    destruct (http_sconn_close s1) as [s2 a2]. cbn [fst snd] in *.
    split; [exact C1|]. rewrite in_app_iff. intros [Hin|Hin]; [|tauto].
    rewrite E in Hin. destruct (res sc); simpl in Hin; intuition discriminate.
  - intros rv o. unfold http_sconn_txdone.
    destruct rv as [e|]; cbn [rv_ok negb].
    { intros [= <-]. split; [apply close_closes | left; apply close_closes]. }
    destruct (req sc) as [rq|]; cbn [obind]; [|discriminate].
    destruct (if is_eq (strcmp (nni_http_req_get_method rq) (lit "HEAD"))
              then Some []
              else r <- res sc;; Some (nni_http_res_get_data r))
      as [data|]; cbn [obind]; [|discriminate].
    destruct data as [|d data]; cbn [length Nat.eqb negb].
    + rewrite Hc. intros [= <-].
      split; [apply close_closes | left; apply close_closes].
    + intros [= <-]. cbn [fst snd]. split.
      * simpl. intuition discriminate.
      * right. exists (d :: data). repeat split. discriminate.
  - intros rv h. unfold http_sconn_cbdone.
    destruct (negb (rv_ok rv)); cbn [fst snd]; [apply close_closes|].
    rewrite Hc.
    assert (Hf : forall (o : outcome),
               Session.closed (fst o) = true /\ ~ In Read_req (snd o) ->
               Session.closed (fst (snd (let '(s, a) := o in
                 (with_refcnt h (h_refcnt h - 1),
                  (s, (if (h_refcnt (with_refcnt h (h_refcnt h - 1)) =? 0)%Z
                       then [Handler_fini (with_refcnt h (h_refcnt h - 1))]
                       else []) ++ a))))) = true /\
               ~ In Read_req (snd (snd (let '(s, a) := o in
                 (with_refcnt h (h_refcnt h - 1),
                  (s, (if (h_refcnt (with_refcnt h (h_refcnt h - 1)) =? 0)%Z
                       then [Handler_fini (with_refcnt h (h_refcnt h - 1))]
                       else []) ++ a)))))).
    { intros [s a] [A B]. cbn [fst snd] in *. split; [exact A|].
      rewrite in_app_iff. intros [Hin|Hin]; [|tauto].
      destruct (_ =? 0)%Z; simpl in Hin; intuition discriminate. }
    destruct (h_is_upgrader h); apply Hf; apply close_closes.
Qed.

(** X17.  A session that is open with its [close] flag clear goes on to
    the next request once a response is out.  When the body write
    completes, or the header write completes with no body to send, the
    response is released, the request object is reset for reuse and a
    read of the next request is posted; the session stays open. *)
Theorem keep_alive_reads_next (sc sc' : http_sconn) (acts : list action)
    (Hc : close sc = false) (Ho : Session.closed sc = false)
    (Hstep : http_sconn_txdatdone None sc = (sc', acts) \/
             (http_sconn_txdone None sc = Some (sc', acts) /\
              forall data, acts <> [Write_full data])) :
  Session.closed sc' = false /\ close sc' = false /\
  res sc' = None /\
  req sc' = option_map nni_http_req_reset (req sc) /\
  acts = match res sc with Some r => [Res_fini r] | None => [] end
           ++ [Req_reset; Read_req].
Proof.
  assert (Hgo : andthen (drop_res sc) read_next = (sc', acts) ->
                Session.closed sc' = false /\ close sc' = false /\
                res sc' = None /\
                req sc' = option_map nni_http_req_reset (req sc) /\
                acts = match res sc with Some r => [Res_fini r] | None => [] end
                         ++ [Req_reset; Read_req]).
  { unfold andthen, drop_res, read_next.
    destruct (res sc) as [r|] eqn:Er; intros [= <- <-]; simpl; auto. }
  destruct Hstep as [H | [H Hnw]].
  - apply Hgo. rewrite <- H. unfold http_sconn_txdatdone. cbn [rv_ok negb].
    unfold andthen.
    destruct (drop_res_flags sc) as (A & _).
    destruct (drop_res sc) as [s1 a1]. cbn [fst] in A.
    rewrite A, Hc. reflexivity.
  - revert H. unfold http_sconn_txdone. cbn [rv_ok negb].
    destruct (req sc) as [rq|]; cbn [obind]; [|discriminate].
    destruct (if is_eq (strcmp (nni_http_req_get_method rq) (lit "HEAD"))
              then Some []
              else r <- res sc;; Some (nni_http_res_get_data r))
      as [data|]; cbn [obind]; [|discriminate].
    destruct (negb (length data =? 0)).
    + intros [= <- <-]. now destruct (Hnw data).
    + rewrite Hc. intros [= H]. now apply Hgo.
Qed.

(** When an upgrader finishes successfully with no response, the
    session lets go of the connection and of both messages and is closed
    without closing the connection, without a write and without a read;
    the handler's reference is released. *)
Lemma upgrade_releases (h : http_handler) (sc : http_sconn)
    (Hup : h_is_upgrader h = true) :
  let '(h', (sc', acts)) := http_sconn_cbdone None h None sc in
  h_refcnt h' = (h_refcnt h - 1)%Z /\
  http sc' = false /\ req sc' = None /\ res sc' = None /\
  Session.closed sc' = true /\
  ~ In Http_close acts /\ ~ In Read_req acts /\
  (forall r, ~ In (Write_res r) acts) /\
  (forall d, ~ In (Write_full d) acts) /\
  (Session.closed sc = false -> In Reap acts) /\
  finished sc' = finished sc.
Proof.
  unfold http_sconn_cbdone. cbn [rv_ok negb]. rewrite Hup.
  unfold http_sconn_close, http_sconn_close_locked.
  cbn [Session.closed set_res set_req set_http http].
  destruct (Session.closed sc) eqn:E;
    destruct (_ =? 0)%Z; cbn -[Z.sub];
    repeat split; auto; try discriminate;
    try (intros; intuition discriminate).
Qed.

End ResponseFacts.

Lemma close_flag_ends_session_witness :
  Session.closed
    (fst (http_sconn_txdatdone None (set_close demo_open true))) = true.
Proof.
  apply (@close_flag_ends_session Plain.codec (set_close demo_open true)
           eq_refl).
Defined.

Lemma keep_alive_reads_next_witness :
  req (fst (http_sconn_txdatdone None demo_open)) =
  option_map nni_http_req_reset (req demo_open).
Proof.
  apply (@keep_alive_reads_next Plain.codec demo_open
           (fst (http_sconn_txdatdone None demo_open))
           (snd (http_sconn_txdatdone None demo_open))
           eq_refl eq_refl).
  left. reflexivity.
Defined.

(** ** Facts about accepting, stopping and reaping *)

Section LifecycleFacts.
Context {codec : HttpMsg}.
Import Lifecycle.

Lemma start_keeps_sessions (env : Server.start_env)
    (c c' : Server.nni_http_server) (acts : list Server.srv_action)
    (rv : nng_rv) :
  Server.nni_http_server_start env c = (c', acts, rv) ->
  Server.closed c' = Server.closed c /\ Server.conns c' = Server.conns c.
Proof.
  unfold Server.nni_http_server_start, Server.http_server_start.
  destruct (Server.starts c =? 0)%Z.
  - destruct (Server.ep_init_rv env) as [e|].
    + intros [= <- _ _]. auto.
    + destruct (Server.ep_listen_rv env) as [e|]; intros [= <- _ _]; auto.
  - intros [= <- _ _]. auto.
Qed.

Lemma stop_when_closed (c : Server.nni_http_server) :
  Server.closed c = true ->
  Server.closed (fst (Server.nni_http_server_stop c)) = true /\
  Server.conns (fst (Server.nni_http_server_stop c)) = Server.conns c /\
  snd (Server.nni_http_server_stop c) = [].
Proof.
  intros Hc. unfold Server.nni_http_server_stop, Server.http_server_stop.
  cbn [Server.starts Server.set_starts Server.closed].
  rewrite Hc. destruct (_ =? 0)%Z; auto.
Qed.

Lemma stop_when_open (c : Server.nni_http_server) :
  Server.closed c = false -> Server.starts c = 1%Z ->
  Server.closed (fst (Server.nni_http_server_stop c)) = true /\
  Server.conns (fst (Server.nni_http_server_stop c)) =
    map hard_close (Server.conns c).
Proof.
  intros Hc Hs. unfold Server.nni_http_server_stop, Server.http_server_stop.
  cbn [Server.starts Server.set_starts Server.closed Server.conns
       Server.set_closed].
  rewrite Hs, Hc. cbn [Z.sub Z.add Z.opp Z.pos_sub Z.eqb].
  pose proof (close_conns_fst (Server.conns c) 0) as Hf.
  destruct (Server.close_conns (Server.conns c) 0) as [l a].
  cbn [fst] in *. subst l. auto.
Qed.

Lemma Forall_cut (A : Type) (P : A -> Prop) (l : list A) (i : nat) :
  Forall P l -> Forall P (firstn i l) /\ Forall P (skipn i l).
Proof.
  intros Hl. rewrite <- (firstn_skipn i l) in Hl.
  now apply Forall_app in Hl.
Qed.

Lemma Forall_replace (A : Type) (P : A -> Prop) (l : list A) (i : nat) (x : A) :
  Forall P l -> P x -> Forall P (firstn i l ++ x :: skipn (S i) l).
Proof.
  intros Hl Hx. apply Forall_app. split.
  - now apply Forall_cut.
  - constructor; [exact Hx | now apply Forall_cut].
Qed.

Lemma Forall_remove (A : Type) (P : A -> Prop) (l : list A) (i : nat) :
  Forall P l -> Forall P (firstn i l ++ skipn (S i) l).
Proof.
  intros Hl. apply Forall_app. split; now apply Forall_cut.
Qed.

Lemma length_replace (A : Type) (l : list A) (i : nat) (x y : A) :
  nth_error l i = Some y ->
  length (firstn i l ++ x :: skipn (S i) l) = length l.
Proof.
  intros Hn. assert (Hi : i < length l) by (apply nth_error_Some; congruence).
  rewrite length_app, length_firstn. cbn [length]. rewrite length_skipn. lia.
Qed.

Lemma length_remove (A : Type) (l : list A) (i : nat) (y : A) :
  nth_error l i = Some y ->
  S (length (firstn i l ++ skipn (S i) l)) = length l.
Proof.
  intros Hn. assert (Hi : i < length l) by (apply nth_error_Some; congruence).
  rewrite length_app, length_firstn, length_skipn. lia.
Qed.

Lemma reap_result (s s' : http_server) (i : nat) (evs : list event) :
  http_sconn_reap s i = Some (s', evs) ->
  exists sc, nth_error (live s) i = Some sc /\ finished sc = false /\
    live s' = firstn i (live s) ++ skipn (S i) (live s) /\
    Server.closed (core s') = Server.closed (core s) /\
    Forall (fun e => ~ is_wrap e) evs /\
    (In (Sc_http_fini i) evs <-> http sc = true) /\
    wakes evs = match live s' with [] => 1 | _ :: _ => 0 end.
Proof.
  unfold http_sconn_reap, live. cbv zeta.
  set (l := firstn i (Server.conns (core s))
            ++ skipn (S i) (Server.conns (core s))).
  clearbody l.
  destruct (nth_error (Server.conns (core s)) i) as [sc|] eqn:En;
    cbn [obind]; [|discriminate].
  destruct (finished sc) eqn:Ef; [discriminate|].
  intros [= <- <-]. exists sc.
  cbn [core set_core Server.conns Server.set_conns Server.closed].
  split; [reflexivity|]. split; [exact Ef|].
  do 2 (split; [reflexivity|]).
  assert (Hev : forall e,
            In e (map (Sc_aio_stop i) slots
                  ++ (if http sc then [Sc_http_fini i] else [])
                  ++ match req sc with
                     | Some r => [Sc_req_fini i r] | None => [] end
                  ++ match res sc with
                     | Some r => [Sc_res_fini i r] | None => [] end
                  ++ map (Sc_aio_fini i) slots
                  ++ match l with
                     | [] => [Srv Server.Cv_wake] | _ :: _ => [] end
                  ++ [Sc_free i]) ->
            (exists a, e = Sc_aio_stop i a) \/
            (e = Sc_http_fini i /\ http sc = true) \/
            (exists r, e = Sc_req_fini i r) \/
            (exists r, e = Sc_res_fini i r) \/
            (exists a, e = Sc_aio_fini i a) \/
            (e = Srv Server.Cv_wake /\ l = []) \/
            e = Sc_free i).
  { intros e Hin. repeat (rewrite in_app_iff in Hin).
    destruct Hin as [H|[H|[H|[H|[H|[H|H]]]]]].
    - apply in_map_iff in H as (a & <- & _). left. eauto.
    - destruct (http sc); [|destruct H].
      destruct H as [<-|[]]. right; left. split; reflexivity.
    - destruct (req sc); [|destruct H].
      destruct H as [<-|[]]. do 2 right; left. eauto.
    - destruct (res sc); [|destruct H].
      destruct H as [<-|[]]. do 3 right; left. eauto.
    - apply in_map_iff in H as (a & <- & _). do 4 right; left. eauto.
    - destruct l; [|destruct H]. destruct H as [<-|[]].
      do 5 right; left. split; reflexivity.
    - destruct H as [<-|[]]. do 6 right. reflexivity. }
  split; [|split].
  - apply Forall_forall. intros e Hin.
    destruct (Hev e Hin)
      as [[a ->]|[[-> _]|[[r ->]|[[r ->]|[[a ->]|[[-> _]| ->]]]]]];
      simpl; tauto.
  - split.
    + intros Hin.
      destruct (Hev _ Hin)
        as [[a E]|[[_ E]|[[r E]|[[r E]|[[a E]|[[E _]| E]]]]]];
        try discriminate. exact E.
    + intros Hh. simpl. rewrite Hh. simpl. auto 10.
  - unfold wakes. repeat rewrite filter_app. repeat rewrite length_app.
    destruct (http sc), (req sc), (res sc), l; reflexivity.
Qed.

Lemma acccb_when_closed (env : acc_env) (s : http_server) :
  Server.closed (core s) = true ->
  http_server_acccb env s =
    Some (s, if rv_ok (acc_result env) then [Tcp_pipe_fini] else []).
Proof.
  intros Hc. unfold http_server_acccb. rewrite Hc.
  destruct (rv_ok (acc_result env)); reflexivity.
Qed.

Lemma shut_step (s s' : http_server) (evs : list event) :
  shut s -> step s evs s' ->
  shut s' /\ length (live s') <= length (live s) /\
  Forall (fun e => ~ is_wrap e) evs.
Proof.
  intros [Hc Hall] Hstep. destruct Hstep as
    [env s s' evs rv H | s s' evs H | env s s' evs H
    | i sc sc' acts s Hn Ho | hs s | i sc s s' evs Hn Hcl H].
  - unfold server_start in H.
    destruct (Server.nni_http_server_start env (core s)) as [[c acts] rv']
      eqn:E.
    injection H as <- <- _. destruct (@start_keeps_sessions _ _ _ _ _ E) as [A B].
    unfold shut, live in *. cbn [core set_core]. rewrite A, B.
    repeat split; auto. apply Forall_forall. intros e He.
    apply in_map_iff in He as (a & <- & _). simpl. tauto.
  - unfold server_stop in H.
    destruct (@stop_when_closed _ Hc) as (A & B & C).
    destruct (Server.nni_http_server_stop (core s)) as [c acts].
    cbn [fst snd] in *. injection H as <- <-. subst acts.
    unfold shut, live in *. cbn [core set_core]. rewrite A, B.
    repeat split; auto.
  - rewrite (@acccb_when_closed env s Hc) in H. injection H as <- <-.
    repeat split; auto.
    destruct (rv_ok (acc_result env)); repeat constructor. simpl. tauto.
  - unfold shut, live, set_conn in *.
    cbn [core set_core Server.conns Server.set_conns Server.closed].
    repeat split; auto.
    + apply Forall_replace; [exact Hall|].
      unfold live. 
      assert (Hsc : Session.closed sc = true).
      { rewrite Forall_forall in Hall. apply Hall.
        eapply nth_error_In; eauto. }
      destruct Ho as (_ & B & _). auto.
    + unfold live. rewrite (@length_replace _ _ _ sc' _ Hn). lia.
    + apply Forall_forall. intros e He.
      apply in_map_iff in He as (a & <- & _). simpl. tauto.
  - unfold shut, live, set_handlers in *. cbn [core set_core Server.conns
      Server.closed]. repeat split; auto.
  - destruct (@reap_result _ _ _ _ H) as (sc0 & Hn0 & _ & Hl & Hcl' & Hw & _).
    unfold shut. rewrite Hl, Hcl'. repeat split; auto.
    + now apply Forall_remove.
    + pose proof (@length_remove _ _ _ _ Hn0). lia.
Qed.

Lemma shut_steps (s s' : http_server) (evs : list event) :
  steps s evs s' -> shut s ->
  shut s' /\ length (live s') <= length (live s) /\
  Forall (fun e => ~ is_wrap e) evs.
Proof.
  induction 1 as [s | s evs s1 evs' s2 Hstep Hsteps IH]; intros Hs.
  - repeat split; try apply Hs; auto.
  - destruct (@shut_step _ _ _ Hs Hstep) as (Hs1 & Hl1 & Hw1).
    destruct (IH Hs1) as (Hs2 & Hl2 & Hw2).
    repeat split; try apply Hs2; [lia|].
    apply Forall_app. auto.
Qed.

(** X18.  The stop that brings [starts] to zero is final.  It leaves the
    server shut (its [closed] flag set, every session closed), and
    whatever happens afterwards - starts, stops, accept completions,
    session callbacks, registry changes, reaps, in any order - the
    server stays shut, the live set never grows and no accepted
    connection is wrapped in an HTTP transport again. *)
Theorem last_stop_is_final (s : http_server)
    (Hopen : Server.closed (core s) = false)
    (Hlast : Server.starts (core s) = 1%Z) :
  shut (fst (server_stop s)) /\
  forall evs s',
    steps (fst (server_stop s)) evs s' ->
    shut s' /\ length (live s') <= length (live s) /\
    Forall (fun e => ~ is_wrap e) evs.
Proof.
  assert (Hshut : shut (fst (server_stop s)) /\
                  length (live (fst (server_stop s))) = length (live s)).
  { unfold server_stop.
    destruct (@stop_when_open _ Hopen Hlast) as [A B].
    destruct (Server.nni_http_server_stop (core s)) as [c acts].
    cbn [fst] in *. unfold shut, live. cbn [core set_core].
    rewrite A, B. repeat split.
    - apply Forall_forall. intros sc Hin.
      apply in_map_iff in Hin as (sc0 & <- & _). apply hard_close_closed.
    - apply length_map. }
  destruct Hshut as [Hshut Hlen]. split; [exact Hshut|].
  intros evs s' Hsteps.
  destruct (@shut_steps _ _ _ Hsteps Hshut) as (A & B & C).
  repeat split; try apply A; [lia | exact C].
Qed.

(** X19.  A server that is started again after its last stop serves
    nothing.  The start reports success and creates, binds and arms the
    listener, but the [closed] flag is still set: every connection
    accepted from then on is discarded, no session is made, and the
    accept is never posted again. *)
Theorem restart_serves_nothing (s s2 : http_server) (env : Server.start_env)
    (evs : list event)
    (Hlast : Server.starts (core s) = 1%Z)
    (Hopen : Server.closed (core s) = false)
    (Hstart : server_start env (fst (server_stop s)) = (s2, evs, None)) :
  evs = [Srv Server.Ep_init; Srv Server.Ep_listen; Srv Server.Ep_accept] /\
  Server.starts (core s2) = 1%Z /\
  Server.closed (core s2) = true /\
  forall aenv,
    http_server_acccb aenv s2 =
      Some (s2, if rv_ok (acc_result aenv) then [Tcp_pipe_fini] else []).
Proof.
  unfold server_start, server_stop in Hstart.
  destruct (@stop_when_open _ Hopen Hlast) as [A _].
  assert (Hz : Server.starts (fst (Server.nni_http_server_stop (core s))) = 0%Z).
  { unfold Server.nni_http_server_stop, Server.http_server_stop.
    cbn [Server.starts Server.set_starts Server.closed].
    rewrite Hlast, Hopen. cbn [Z.sub Z.add Z.opp Z.pos_sub Z.eqb].
    destruct (Server.close_conns _ 0). reflexivity. }
  destruct (Server.nni_http_server_stop (core s)) as [c acts].
  cbn [fst core set_core] in *.
  destruct (Server.nni_http_server_start env c) as [[c2 a2] rv] eqn:E.
  injection Hstart as <- <- ->.
  destruct (@start_keeps_sessions _ _ _ _ _ E) as [B _].
  revert E. unfold Server.nni_http_server_start, Server.http_server_start.
  rewrite Hz. cbn [Z.eqb].
  destruct (Server.ep_init_rv env) as [e|]; [intros [= _ _ ?]; discriminate|].
  destruct (Server.ep_listen_rv env) as [e|]; [intros [= _ _ ?]; discriminate|].
  cbn [rv_ok]. intros [= <- <-].
  cbn [core set_core Server.starts Server.set_starts Server.set_tep
       Server.closed map].
  rewrite Hz. repeat split; auto.
  intros aenv. apply acccb_when_closed. cbn [core]. exact A.
Qed.

Lemma reap_all_length (ps : list nat) :
  forall s s' evs,
    reap_all s ps = Some (s', evs) ->
    length (live s) = length ps + length (live s') /\
    (length ps <= 0 \/ wakes evs = match live s' with [] => 1 | _ => 0 end).
Proof.
  induction ps as [|i ps IH]; intros s s' evs.
  - intros [= <- <-]. split; [reflexivity | left; simpl; lia].
  - cbn [reap_all].
    destruct (http_sconn_reap s i) as [[s1 e1]|] eqn:E1; cbn [obind];
      [|discriminate].
    destruct (reap_all s1 ps) as [[s2 e2]|] eqn:E2; cbn [obind];
      [|discriminate].
    intros [= <- <-].
    destruct (@reap_result _ _ _ _ E1) as (sc & Hn & _ & Hl & _ & _ & _ & Hw).
    destruct (IH _ _ _ E2) as [Hlen Hwk].
    pose proof (@length_remove _ _ _ _ Hn) as Hr. rewrite <- Hl in Hr.
    split; [cbn [length]; lia|]. right.
    unfold wakes in *. rewrite filter_app, length_app. rewrite Hw.
    destruct ps as [|j ps'].
    + injection E2 as <- <-. simpl. lia.
    + destruct Hwk as [Hwk|Hwk]; [simpl in Hwk; lia|].
      rewrite Hwk. destruct (live s1) as [|x l] eqn:El; [|reflexivity].
      simpl in Hlen. lia.
Qed.

Lemma reap_front (s : http_server) :
  Forall (fun sc => finished sc = false) (live s) ->
  live s <> [] ->
  exists s' evs, http_sconn_reap s 0 = Some (s', evs) /\
    live s' = tl (live s).
Proof.
  intros Hall Hne. unfold http_sconn_reap, live in *.
  destruct (Server.conns (core s)) as [|sc l] eqn:El; [congruence|].
  cbn [nth_error obind]. inversion Hall as [|? ? Hf _]; subst.
  rewrite Hf. eexists. eexists. split; [reflexivity|].
  cbn [core set_core Server.conns Server.set_conns firstn skipn app tl].
  reflexivity.
Qed.

(** X20.  Reaping drains a server.  When none of the sessions of the live
    set has been reaped before, reaping them one after the other (always
    the first of the list, say) is defined and, in whatever order it is
    done, as many reaps as there are sessions leave the live set empty,
    signal the condition variable exactly once (with the last one), and
    [http_server_fini] no longer waits. *)
Theorem reaping_drains (s : http_server)
    (Hfresh : Forall (fun sc => finished sc = false) (live s))
    (Hsome : live s <> []) :
  (exists s' evs,
     reap_all s (repeat 0 (length (live s))) = Some (s', evs)) /\
  forall NNG_SUPP_TLS ps s' evs,
    length ps = length (live s) ->
    reap_all s ps = Some (s', evs) ->
    live s' = [] /\ wakes evs = 1 /\
    http_server_fini NNG_SUPP_TLS s' <> None.
Proof.
  split.
  - clear Hsome. remember (length (live s)) as n eqn:Hn.
    revert s Hfresh Hn. induction n as [|n IH]; intros s Hfresh Hn.
    + eexists. eexists. reflexivity.
    + assert (Hne : live s <> []) by (intros E; rewrite E in Hn; discriminate).
      destruct (@reap_front _ Hfresh Hne) as (s1 & e1 & E1 & Hl).
      assert (Hfresh1 : Forall (fun sc => finished sc = false) (live s1)).
      { rewrite Hl. destruct (live s); [constructor|].
        now inversion Hfresh. }
      assert (Hn1 : n = length (live s1)).
      { rewrite Hl. destruct (live s); simpl in *; congruence. }
      destruct (IH s1 Hfresh1 Hn1) as (s2 & e2 & E2).
      exists s2, (e1 ++ e2). cbn [repeat reap_all].
      rewrite E1. cbn [obind]. rewrite E2. reflexivity.
  - intros tls_on ps s' evs Hlen Hrun.
    destruct (@reap_all_length ps _ _ _ Hrun) as [Hl Hw].
    assert (Hempty : live s' = []).
    { destruct (live s'); [reflexivity | simpl in Hl; lia]. }
    assert (Hps : 0 < length ps).
    { rewrite Hlen. destruct (live s); [congruence | simpl; lia]. }
    destruct Hw as [Hw|Hw]; [lia|]. rewrite Hempty in Hw.
    repeat split; auto.
    unfold http_server_fini. unfold live in Hempty. rewrite Hempty.
    discriminate.
Qed.

(** X21.  An upgrade leaves the connection alone for good.  When an
    upgrader finishes successfully without a response on an open
    session, the session is closed and handed to the reaper, and neither
    the close nor the reap that follows closes or finalises the
    connection; an ordinary close of the same session does both. *)
Theorem upgraded_connection_survives (s : http_server) (i : nat)
    (sc : http_sconn) (h : http_handler)
    (Hsc : nth_error (live s) i = Some sc)
    (Hopen : Session.closed sc = false)
    (Hfresh : finished sc = false)
    (Hhttp : http sc = true)
    (Hup : h_is_upgrader h = true) :
  (let '(h', (sc', acts)) := http_sconn_cbdone None h None sc in
   In Reap acts /\ ~ In Http_close acts /\
   exists s' evs,
     http_sconn_reap (set_conn s i sc') i = Some (s', evs) /\
     ~ In (Sc_http_fini i) evs) /\
  (let '(sc', acts) := http_sconn_close sc in
   In Reap acts /\ In Http_close acts /\
   exists s' evs,
     http_sconn_reap (set_conn s i sc') i = Some (s', evs) /\
     In (Sc_http_fini i) evs).
Proof.
  assert (Hi : i < length (live s)) by (apply nth_error_Some; congruence).
  assert (Hget : forall sc', nth_error (live (set_conn s i sc')) i = Some sc').
  { intros sc'. unfold set_conn. unfold live at 1.
    cbn [core set_core Server.conns Server.set_conns].
    rewrite nth_error_app2 by (rewrite length_firstn; lia).
    rewrite length_firstn. replace (i - Nat.min i (length (live s))) with 0 by lia.
    reflexivity. }
  assert (Hreap : forall sc', finished sc' = false ->
            exists s' evs,
              http_sconn_reap (set_conn s i sc') i = Some (s', evs) /\
              (In (Sc_http_fini i) evs <-> http sc' = true)).
  { intros sc' Hf.
    destruct (http_sconn_reap (set_conn s i sc') i) as [[s' evs]|] eqn:E.
    - exists s', evs. split; [reflexivity|].
      destruct (@reap_result _ _ _ _ E) as (sc0 & Hn & _ & _ & _ & _ & Hiff & _).
      rewrite Hget in Hn. injection Hn as <-. exact Hiff.
    - exfalso. revert E. unfold http_sconn_reap.
      fold (live (set_conn s i sc')). rewrite Hget. cbn [obind].
      rewrite Hf. discriminate. }
  split.
  - pose proof (@upgrade_releases _ h sc Hup) as H.
    destruct (http_sconn_cbdone None h None sc) as [h' [sc' acts]].
    destruct H as (_ & Hh & _ & _ & _ & Hnc & _ & _ & _ & Hr & Hf).
    split; [auto|]. split; [exact Hnc|].
    destruct (Hreap sc') as (s' & evs & E & Hiff); [congruence|].
    exists s', evs. split; [exact E|]. rewrite Hiff, Hh. discriminate.
  - unfold http_sconn_close, http_sconn_close_locked. rewrite Hopen, Hhttp.
    split; [simpl; tauto|]. split; [simpl; tauto|].
    destruct (Hreap (Session.set_closed sc true)) as (s' & evs & E & Hiff);
      [exact Hfresh|].
    exists s', evs. split; [exact E|]. apply Hiff. exact Hhttp.
Qed.

End LifecycleFacts.

Lemma last_stop_is_final_witness :
  shut (fst (server_stop demo_server)).
Proof.
  apply (@last_stop_is_final Plain.codec demo_server eq_refl eq_refl).
Defined.

Lemma restart_serves_nothing_witness :
  Server.closed
    (Lifecycle.core
       (fst (fst (server_start demo_start_env (fst (server_stop demo_server))))))
  = true.
Proof.
  apply (@restart_serves_nothing Plain.codec demo_server
           (fst (fst (server_start demo_start_env
                        (fst (server_stop demo_server)))))
           demo_start_env
           (snd (fst (server_start demo_start_env
                        (fst (server_stop demo_server)))))
           eq_refl eq_refl eq_refl).
Defined.

Lemma reaping_drains_witness :
  exists s' evs,
    reap_all demo_server (repeat 0 (length (live demo_server)))
    = Some (s', evs).
Proof.
  apply (@reaping_drains Plain.codec demo_server).
  - repeat constructor.
  - discriminate.
Defined.

Lemma upgraded_connection_survives_witness :
  In Reap (snd (snd (http_sconn_cbdone None demo_upgrader None demo_open))).
Proof.
  pose proof (@upgraded_connection_survives Plain.codec demo_server 0
                demo_open demo_upgrader eq_refl eq_refl eq_refl eq_refl
                eq_refl) as H.
  destruct H as [H _].
  destruct (http_sconn_cbdone None demo_upgrader None demo_open)
    as [h' [sc' acts]].
  apply H.
Defined.

(** ** Facts about the directory of servers *)

Section DirectoryFacts.
Context {codec : HttpMsg}.
Variable NNG_SUPP_TLS : bool.
Import Lifecycle.

Lemma same_address_true (u : nni_url) (s : http_server) :
  same_address u s = Some true <->
  address_of s = Some (u_port u, u_hostname u).
Proof.
  unfold same_address, address_of. destruct (url s) as [su|]; cbn [obind option_map].
  - split.
    + intros [= H]. apply andb_true_iff in H as [A B].
      apply is_eq_strcmp in A, B. now rewrite A, B.
    + intros [= A B]. rewrite A, B. f_equal.
      apply andb_true_iff. split; now apply is_eq_strcmp.
  - split; discriminate.
Qed.

Lemma same_address_false (u : nni_url) (s : http_server) :
  url s <> None ->
  same_address u s = Some false <->
  address_of s <> Some (u_port u, u_hostname u).
Proof.
  intros Hu. pose proof (same_address_true u s) as Ht.
  unfold same_address, address_of in *.
  destruct (url s) as [su|]; [|congruence]. cbn [obind option_map] in *.
  destruct (is_eq (strcmp (u_port u) (u_port su))
            && is_eq (strcmp (u_hostname u) (u_hostname su))).
  - split; [discriminate|]. intros H. exfalso. apply H. now apply Ht.
  - split; [|reflexivity]. intros _ H. apply Ht in H. discriminate.
Qed.

Lemma find_server_found (u : nni_url) (servers : list http_server) :
  forall k i,
    find_server u servers k = Some (Some i) ->
    exists j s, i = k + j /\ nth_error servers j = Some s /\
      same_address u s = Some true /\
      Forall (fun s' => same_address u s' = Some false) (firstn j servers).
Proof.
  induction servers as [|s rest IH]; intros k i; cbn [find_server].
  - discriminate.
  - destruct (same_address u s) as [[|]|] eqn:E; cbn [obind]; [| |discriminate].
    + intros [= <-]. exists 0, s. rewrite Nat.add_0_r.
      repeat split; auto.
    + intros H. destruct (IH _ _ H) as (j & s' & -> & Hn & Ht & Hall).
      exists (S j), s'. split; [lia|]. split; [exact Hn|].
      split; [exact Ht|]. cbn [firstn]. constructor; assumption.
Qed.

Lemma find_server_first (u : nni_url) (servers : list http_server) :
  forall k j s,
    nth_error servers j = Some s ->
    same_address u s = Some true ->
    Forall (fun s' => same_address u s' = Some false) (firstn j servers) ->
    find_server u servers k = Some (Some (k + j)).
Proof.
  induction servers as [|s0 rest IH]; intros k j s Hn Ht Hall.
  - destruct j; discriminate.
  - cbn [find_server]. destruct j as [|j].
    + injection Hn as ->. rewrite Ht. cbn [obind].
      now rewrite Nat.add_0_r.
    + cbn [firstn] in Hall. inversion Hall as [|? ? Hf Hall']; subst.
      rewrite Hf. cbn [obind]. cbn [nth_error] in Hn.
      rewrite (IH (S k) j s Hn Ht Hall'). do 2 f_equal. lia.
Qed.

Lemma find_server_none (u : nni_url) (servers : list http_server) :
  forall k,
    find_server u servers k = Some None ->
    Forall (fun s => same_address u s = Some false) servers.
Proof.
  induction servers as [|s rest IH]; intros k; cbn [find_server].
  - constructor.
  - destruct (same_address u s) as [[|]|] eqn:E; cbn [obind];
      try discriminate.
    intros H. constructor; [exact E | eauto].
Qed.

Lemma find_server_total (u : nni_url) (servers : list http_server) :
  Forall (fun s => url s <> None) servers ->
  forall k, find_server u servers k <> None.
Proof.
  induction 1 as [|s rest Hs _ IH]; intros k; cbn [find_server].
  - discriminate.
  - unfold same_address. destruct (url s); [|congruence]. cbn [obind].
    destruct (_ && _); [discriminate | apply IH].
Qed.

Lemma url_frees_app (u : nni_url) (a b : list event) :
  url_frees u (a ++ b) = url_frees u a + url_frees u b.
Proof. unfold url_frees. now rewrite filter_app, length_app. Qed.

Lemma url_frees_self (u : nni_url) : url_frees u [Url_free u] = 1.
Proof.
  unfold url_frees. cbn [filter].
  assert (H : forall x : cstr, is_eq (strcmp x x) = true)
    by (intros x; now apply is_eq_strcmp).
  now rewrite !H.
Qed.

Lemma fini_fresh (u : nni_url) (s : http_server) :
  s = fresh_server u \/ (exists c, s = set_tls (fresh_server u) (Some c)) ->
  exists evs,
    http_server_fini NNG_SUPP_TLS s = Some evs /\ url_frees u evs = 1.
Proof.
  intros Hs.
  assert (H : exists t, s = set_tls (fresh_server u) t).
  { destruct Hs as [->|[c ->]]; [exists None | exists (Some c)]; reflexivity. }
  destruct H as [t ->].
  unfold http_server_fini. cbn [fresh_server set_tls core url tls Server.conns
    Server.tep Server.handlers map app].
  eexists. split; [reflexivity|].
  change (Acc_aio_stop :: Url_free u :: ?l)
    with ([Acc_aio_stop] ++ [Url_free u] ++ l).
  rewrite !url_frees_app, url_frees_self.
  destruct NNG_SUPP_TLS, t; reflexivity.
Qed.

Lemma scheme_test (u : nni_url) :
  negb (scheme_is u "http")
  && (if NNG_SUPP_TLS
      then negb (scheme_is u "https") && negb (scheme_is u "wss")
      else true)
  && negb (scheme_is u "ws")
  = negb (scheme_accepted NNG_SUPP_TLS u).
Proof.
  unfold scheme_accepted.
  destruct (scheme_is u "http"), (scheme_is u "ws"), NNG_SUPP_TLS,
    (scheme_is u "https"), (scheme_is u "wss"); reflexivity.
Qed.

Ltac init_fails u :=
  match goal with
  | |- context [http_server_fini _ ?s] =>
      let evs := fresh "evs" in
      let E := fresh "E" in
      let F := fresh "F" in
      destruct (@fini_fresh u s) as (evs & E & F);
      [first [left; reflexivity | right; eexists; reflexivity]|];
      rewrite E; cbn [obind]; eexists; eexists;
      split; [reflexivity|]; split; [exact F | intros; congruence]
  end.

Lemma server_init_result (env : init_env) (u : nni_url) :
  exists r evs,
    http_server_init NNG_SUPP_TLS env u = Some (r, evs) /\
    match r with
    | inl e =>
        url_frees u evs = 1 /\
        (scheme_accepted NNG_SUPP_TLS u = false -> e = NNG_EADDRINVAL)
    | inr s =>
        evs = [] /\ url s = Some u /\ Server.refcnt (core s) = 1%Z /\
        Server.conns (core s) = [] /\ Server.handlers (core s) = [] /\
        Server.starts (core s) = 0%Z /\ Server.closed (core s) = false /\
        scheme_accepted NNG_SUPP_TLS u = true
    end.
Proof.
  unfold http_server_init. rewrite scheme_test. cbv zeta.
  destruct (scheme_accepted NNG_SUPP_TLS u) eqn:Hsch; cbn [negb].
  2:{ eexists; eexists. split; [reflexivity|].
      split; [apply url_frees_self | reflexivity]. }
  destruct (srv_alloc env); cbn [negb].
  2:{ eexists; eexists. split; [reflexivity|].
      split; [apply url_frees_self | discriminate]. }
  destruct (accaio_init env) as [e1|]; [init_fails u|].
  destruct (if NNG_SUPP_TLS then scheme_is u "https" || scheme_is u "wss"
            else false).
  - destruct (tls_config_init env) as [e2|c]; [init_fails u|].
    destruct (resolv_aio_init env) as [e3|]; [init_fails u|].
    destruct (resolv_result env) as [e4|]; [init_fails u|].
    eexists; eexists. split; [reflexivity|]. repeat split.
  - destruct (resolv_aio_init env) as [e3|]; [init_fails u|].
    destruct (resolv_result env) as [e4|]; [init_fails u|].
    eexists; eexists. split; [reflexivity|]. repeat split.
Qed.

Lemma set_refcnt_same (s : http_server) (a b : Z) :
  set_refcnt (set_refcnt s a) b = set_refcnt s b.
Proof. reflexivity. Qed.

Lemma set_refcnt_id (s : http_server) :
  set_refcnt s (Server.refcnt (core s)) = s.
Proof. destruct s as [[r st hs cs cl tp] u t]. reflexivity. Qed.

Lemma nth_error_replace (A : Type) (l : list A) (i : nat) (x y : A) :
  nth_error l i = Some y ->
  nth_error (firstn i l ++ x :: skipn (S i) l) i = Some x /\
  firstn i (firstn i l ++ x :: skipn (S i) l) = firstn i l /\
  skipn (S i) (firstn i l ++ x :: skipn (S i) l) = skipn (S i) l.
Proof.
  intros Hn. assert (Hi : i < length l) by (apply nth_error_Some; congruence).
  assert (Hl : length (firstn i l) = i) by (rewrite length_firstn; lia).
  split; [|split].
  - rewrite nth_error_app2 by lia. rewrite Hl, Nat.sub_diag. reflexivity.
  - rewrite firstn_app, Hl, Nat.sub_diag. cbn [firstn].
    rewrite app_nil_r. rewrite firstn_all2 by lia. reflexivity.
  - rewrite skipn_app, Hl.
    rewrite (skipn_all2 (n := S i) (firstn i l)) by lia.
    replace (S i - i) with 1 by lia. reflexivity.
Qed.

Lemma rebuild (A : Type) (l : list A) (i : nat) (y : A) :
  nth_error l i = Some y -> firstn i l ++ y :: skipn (S i) l = l.
Proof.
  revert i. induction l as [|x l IH]; intros [|i] H; try discriminate.
  - injection H as ->. reflexivity.
  - cbn [firstn skipn app]. f_equal. now apply IH.
Qed.

Lemma address_of_set_refcnt (s : http_server) (n : Z) :
  address_of (set_refcnt s n) = address_of s.
Proof. reflexivity. Qed.

Lemma map_replace_same (A B : Type) (f : A -> B) (l : list A) (i : nat)
    (x y : A) :
  nth_error l i = Some y -> f x = f y ->
  map f (firstn i l ++ x :: skipn (S i) l) = map f l.
Proof.
  intros Hn Hf. rewrite <- (@rebuild _ _ _ _ Hn) at 3.
  rewrite !map_app. cbn [map]. now rewrite Hf.
Qed.

Lemma NoDup_remove_at (A : Type) (l : list A) (i : nat) :
  NoDup l -> NoDup (firstn i l ++ skipn (S i) l).
Proof.
  intros H. destruct (nth_error l i) as [y|] eqn:Hn.
  - rewrite <- (@rebuild _ _ _ _ Hn) in H. now apply NoDup_remove_1 in H.
  - apply nth_error_None in Hn.
    rewrite firstn_all2, skipn_all2 by lia. now rewrite app_nil_r.
Qed.

Lemma NoDup_snoc (A : Type) (l : list A) (a : A) :
  NoDup l -> ~ In a l -> NoDup (l ++ [a]).
Proof.
  induction l as [|x l IH]; intros H Hn; cbn [app].
  - constructor; [intros [] | constructor].
  - inversion H as [|? ? Hx Hl]; subst. constructor.
    + rewrite in_app_iff. intros [Hin|[->|[]]]; [tauto|].
      apply Hn. now left.
    + apply IH; [exact Hl|]. intros Hin. apply Hn. now right.
Qed.

(** X22.  The directory shares a server by host name and port alone.  When
    a server of the directory has the port and host name of the URL (and
    none before it has), [nni_http_server_init] hands out that server
    with one more reference and frees the new URL once - whatever the
    allocations would do and whatever the scheme of the URL, even one for
    which construction fails with [NNG_EADDRINVAL]. *)
Theorem init_shares_by_address (env : init_env)
    (servers : list http_server) (u su : nni_url) (i : nat)
    (s : http_server)
    (Hs : nth_error servers i = Some s)
    (Hsu : url s = Some su)
    (Hport : u_port u = u_port su)
    (Hhost : u_hostname u = u_hostname su)
    (Hfirst : Forall (fun s' => same_address u s' = Some false)
                (firstn i servers)) :
  nni_http_server_init NNG_SUPP_TLS env servers u =
    Some (firstn i servers
          ++ set_refcnt s (Server.refcnt (core s) + 1) :: skipn (S i) servers,
          inr i, [Url_free u]) /\
  (scheme_accepted NNG_SUPP_TLS u = false ->
   exists evs,
     http_server_init NNG_SUPP_TLS env u = Some (inl NNG_EADDRINVAL, evs)).
Proof.
  split.
  - unfold nni_http_server_init.
    assert (Ht : same_address u s = Some true).
    { apply same_address_true. unfold address_of. rewrite Hsu.
      cbn [option_map]. now rewrite Hport, Hhost. }
    rewrite (@find_server_first u servers 0 i s Hs Ht Hfirst).
    cbn [obind Nat.add]. rewrite Hs. reflexivity.
  - intros Hsch.
    destruct (server_init_result env u) as (r & evs & E & Hr).
    destruct r as [e|s0].
    + destruct Hr as [_ He]. rewrite (He Hsch) in E. eauto.
    + destruct Hr as (_ & _ & _ & _ & _ & _ & _ & Hacc). congruence.
Qed.

(** X23.  Who owns the URL after [nni_http_server_init].  In a directory
    whose servers all have their URL the call is defined; when it hands
    out a server of the directory the new URL has been freed once, when
    it makes a new server the URL is kept by that server and not freed,
    and when it fails the directory is unchanged and the URL has been
    freed twice. *)
Theorem init_url_ownership (env : init_env) (servers : list http_server)
    (u : nni_url)
    (Hurls : Forall (fun s => url s <> None) servers) :
  exists servers' r evs,
    nni_http_server_init NNG_SUPP_TLS env servers u = Some (servers', r, evs) /\
    match r with
    | inl e => servers' = servers /\ url_frees u evs = 2
    | inr i =>
        (i < length servers /\ length servers' = length servers /\
         url_frees u evs = 1) \/
        (i = length servers /\ evs = [] /\
         exists s, servers' = servers ++ [s] /\ url s = Some u)
    end.
Proof.
  unfold nni_http_server_init.
  destruct (find_server u servers 0) as [[i|]|] eqn:Ef;
    [| |now destruct (@find_server_total u servers Hurls 0)]; cbn [obind].
  - destruct (@find_server_found _ _ _ _ Ef) as (j & s & Hi & Hn & _ & _).
    cbn [Nat.add] in Hi. subst j. rewrite Hn. cbn [obind].
    eexists; eexists; eexists. split; [reflexivity|]. left.
    split; [apply nth_error_Some; congruence|].
    split; [apply (@length_replace _ _ _ _ _ Hn) | apply url_frees_self].
  - destruct (server_init_result env u) as (r & evs & E & Hr).
    rewrite E. cbn [obind]. destruct r as [e|s].
    + eexists; eexists; eexists. split; [reflexivity|].
      split; [reflexivity|]. destruct Hr as [Hr _].
      now rewrite url_frees_app, Hr, url_frees_self.
    + eexists; eexists; eexists. split; [reflexivity|]. right.
      destruct Hr as (-> & Hu & _). eauto.
Qed.

(** X24.  [nni_http_server_init] and [nni_http_server_fini] undo each
    other.  In a well-kept directory, releasing the server that a
    successful init has just handed out gives back the directory as it
    was before the init: a shared server loses the reference it gained,
    and a server made by the init is finalised and removed. *)
Theorem init_then_fini (env : init_env) (servers servers' : list http_server)
    (u : nni_url) (i : nat) (evs : list event)
    (Hok : directory_ok servers)
    (Hinit : nni_http_server_init NNG_SUPP_TLS env servers u
             = Some (servers', inr i, evs)) :
  exists evs',
    nni_http_server_fini NNG_SUPP_TLS servers' i = Some (servers, evs') /\
    (i < length servers -> evs' = []) /\
    (i = length servers -> url_frees u evs' = 1 /\ In Server_free evs').
Proof.
  destruct Hok as [Hall _].
  revert Hinit. unfold nni_http_server_init.
  destruct (find_server u servers 0) as [[k|]|] eqn:Ef; cbn [obind];
    [| |discriminate].
  - destruct (@find_server_found _ _ _ _ Ef) as (j & s & Hi & Hn & _ & _).
    cbn [Nat.add] in Hi. subst j. rewrite Hn. cbn [obind].
    remember (firstn k servers
              ++ set_refcnt s (Server.refcnt (core s) + 1)
              :: skipn (S k) servers) as l' eqn:El'.
    intros [= <- <- <-]. rewrite El'. clear El'.
    assert (Hlt : k < length servers) by (apply nth_error_Some; congruence).
    assert (Href : (1 <= Server.refcnt (core s))%Z).
    { rewrite Forall_forall in Hall. apply Hall. eapply nth_error_In; eauto. }
    destruct (@nth_error_replace _ servers k
                (set_refcnt s (Server.refcnt (core s) + 1)) s Hn)
      as (A & B & C).
    unfold nni_http_server_fini. rewrite A. cbn [obind].
    rewrite set_refcnt_same.
    cbn [set_refcnt core set_core Server.refcnt].
    replace (Server.refcnt (core s) + 1 - 1)%Z with (Server.refcnt (core s))
      by lia.
    destruct (Server.refcnt (core s) =? 0)%Z eqn:Ez;
      [apply Z.eqb_eq in Ez; lia|].
    rewrite B, C.
    change (set_core s _) with (set_refcnt s (Server.refcnt (core s))).
    rewrite set_refcnt_id, (@rebuild _ _ _ _ Hn).
    exists []. split; [reflexivity|]. split; [reflexivity | lia].
  - destruct (server_init_result env u) as (r & evs0 & E & Hr).
    rewrite E. cbn [obind]. destruct r as [e|s]; [discriminate|].
    intros [= <- <- <-].
    destruct Hr as (-> & Hu & Hrc & Hconns & Hhs & _).
    unfold nni_http_server_fini.
    rewrite nth_error_app2 by lia. rewrite Nat.sub_diag. cbn [nth_error obind].
    cbn [set_refcnt core set_core Server.refcnt]. rewrite Hrc.
    cbn [Z.sub Z.add Z.opp Z.pos_sub Z.eqb].
    unfold http_server_fini. cbn [core set_core Server.conns Server.tep
      Server.handlers url tls set_refcnt].
    rewrite Hconns, Hhs, Hu. cbn [obind map app].
    rewrite firstn_app, Nat.sub_diag, firstn_all. cbn [firstn].
    rewrite skipn_all2 by (rewrite length_app; cbn [length]; lia).
    rewrite !app_nil_r.
    eexists. split; [reflexivity|]. split; [lia|]. intros _. split.
    + change (Acc_aio_stop :: ?l) with ([Acc_aio_stop] ++ l).
      rewrite url_frees_app.
      destruct (Server.tep (core s)); cbn [app];
        [change (Srv Server.Ep_fini :: Url_free u :: ?l)
           with ([Srv Server.Ep_fini] ++ [Url_free u] ++ l)
        |change (Url_free u :: ?l) with ([Url_free u] ++ l)];
        rewrite !url_frees_app, url_frees_self;
        destruct NNG_SUPP_TLS, (tls s); reflexivity.
    + destruct (Server.tep (core s)), NNG_SUPP_TLS, (tls s);
        simpl; auto 10.
Qed.

(** X25.  The directory stays well kept.  [nni_http_server_init] and
    [nni_http_server_fini] keep every listed server with its URL and at
    least one reference, and never list two servers for the same port
    and host name. *)
Theorem directory_stays_ok (servers : list http_server)
    (Hok : directory_ok servers) :
  (forall env u servers' r evs,
     nni_http_server_init NNG_SUPP_TLS env servers u
       = Some (servers', r, evs) ->
     directory_ok servers') /\
  (forall i servers' evs,
     nni_http_server_fini NNG_SUPP_TLS servers i = Some (servers', evs) ->
     directory_ok servers').
Proof.
  destruct Hok as [Hall Hnd]. split.
  - intros env u servers' r evs. unfold nni_http_server_init.
    destruct (find_server u servers 0) as [[k|]|] eqn:Ef; cbn [obind];
      [| |discriminate].
    + destruct (@find_server_found _ _ _ _ Ef) as (j & s & Hi & Hn & _ & _).
      cbn [Nat.add] in Hi. subst j. rewrite Hn. cbn [obind].
      intros [= <- _ _]. split.
      * apply Forall_replace; [exact Hall|].
        assert (Hs : url s <> None /\ (1 <= Server.refcnt (core s))%Z).
        { rewrite Forall_forall in Hall. apply Hall.
          eapply nth_error_In; eauto. }
        cbn [set_refcnt url core set_core Server.refcnt]. split; [tauto | lia].
      * rewrite (@map_replace_same _ _ address_of servers k _ s Hn);
          [exact Hnd | reflexivity].
    + destruct (server_init_result env u) as (r0 & evs0 & E & Hr).
      rewrite E. cbn [obind]. destruct r0 as [e|s].
      * intros [= <- _ _]. split; assumption.
      * intros [= <- _ _].
        destruct Hr as (_ & Hu & Hrc & _). split.
        -- apply Forall_app. split; [exact Hall|].
           constructor; [|constructor]. rewrite Hu, Hrc.
           split; [discriminate | lia].
        -- rewrite map_app. cbn [map].
           apply NoDup_snoc; [exact Hnd|]. intros Hin.
           apply in_map_iff in Hin as (s0 & Ha & Hin0).
           pose proof (@find_server_none _ _ _ Ef) as Hnone.
           rewrite Forall_forall in Hnone, Hall.
           specialize (Hnone _ Hin0). destruct (Hall _ Hin0) as [Hu0 _].
           apply (@same_address_false u _ Hu0) in Hnone. apply Hnone.
           rewrite Ha. unfold address_of. rewrite Hu. reflexivity.
  - intros i servers' evs. unfold nni_http_server_fini.
    destruct (nth_error servers i) as [s|] eqn:Hn; cbn [obind];
      [|discriminate].
    assert (Hs : url s <> None /\ (1 <= Server.refcnt (core s))%Z).
    { rewrite Forall_forall in Hall. apply Hall. eapply nth_error_In; eauto. }
    cbn [set_refcnt core set_core Server.refcnt].
    destruct (Server.refcnt (core s) - 1 =? 0)%Z eqn:Ez.
    + destruct (http_server_fini _ _) as [evs0|]; cbn [obind]; [|discriminate].
      remember (firstn i servers ++ skipn (S i) servers) as l' eqn:El'.
      intros [= <- _]. rewrite El'. clear El'. split.
      * now apply Forall_remove.
      * rewrite map_app, <- firstn_map, <- skipn_map.
        now apply NoDup_remove_at.
    + intros [= <- _]. apply Z.eqb_neq in Ez. split.
      * apply Forall_replace; [exact Hall|].
        cbn [set_refcnt url core set_core Server.refcnt].
        split; [tauto | lia].
      * rewrite (@map_replace_same _ _ address_of servers i _ s Hn);
          [exact Hnd | reflexivity].
Qed.

End DirectoryFacts.

Lemma demo_directory_ok : directory_ok demo_directory.
Proof.
  split.
  - constructor; [|constructor]. split; [discriminate|].
    cbn [demo_server Lifecycle.core Server.refcnt]. lia.
  - constructor; [intros [] | constructor].
Qed.

Lemma init_shares_by_address_witness :
  Lifecycle.nni_http_server_init true demo_init_env demo_directory
    (demo_url "ftp")
  = Some ([Lifecycle.set_refcnt demo_server 2], inr 0,
          [Lifecycle.Url_free (demo_url "ftp")]).
Proof.
  apply (@init_shares_by_address Plain.codec true demo_init_env
           demo_directory (demo_url "ftp") (demo_url "http") 0 demo_server
           eq_refl eq_refl eq_refl eq_refl (Forall_nil _)).
Defined.

Lemma init_url_ownership_witness :
  exists servers' r evs,
    Lifecycle.nni_http_server_init false demo_init_env [] (demo_url "https")
    = Some (servers', r, evs) /\
    match r with
    | inl e => servers' = [] /\ url_frees (demo_url "https") evs = 2
    | inr i =>
        (i < 0 /\ length servers' = 0 /\
         url_frees (demo_url "https") evs = 1) \/
        (i = 0 /\ evs = [] /\
         exists s, servers' = [] ++ [s] /\
                   Lifecycle.url s = Some (demo_url "https"))
    end.
Proof.
  apply (@init_url_ownership Plain.codec false demo_init_env []
           (demo_url "https") (Forall_nil _)).
Defined.

Lemma init_then_fini_witness :
  exists evs',
    Lifecycle.nni_http_server_fini true
      [Lifecycle.set_refcnt demo_server 2] 0
    = Some (demo_directory, evs') /\
    (0 < length demo_directory -> evs' = []) /\
    (0 = length demo_directory ->
     url_frees (demo_url "ws") evs' = 1 /\ In Lifecycle.Server_free evs').
Proof.
  apply (@init_then_fini Plain.codec true demo_init_env demo_directory
           [Lifecycle.set_refcnt demo_server 2] (demo_url "ws") 0
           [Lifecycle.Url_free (demo_url "ws")]
           demo_directory_ok eq_refl).
Defined.

Lemma directory_stays_ok_witness :
  directory_ok [Lifecycle.set_refcnt demo_server 2].
Proof.
  apply (proj1 (@directory_stays_ok Plain.codec true demo_directory
                  demo_directory_ok)
           demo_init_env (demo_url "ws") _ (inr 0)
           [Lifecycle.Url_free (demo_url "ws")] eq_refl).
Defined.


(** ** Facts about content types and the bundled handlers *)

Lemma same_nocase_length (a b : cstr) : same_nocase a b -> length a = length b.
Proof.
  unfold same_nocase. intros H.
  rewrite <- (length_map tolower a), <- (length_map tolower b). now rewrite H.
Qed.

Lemma skipn_suffix (stem ext : cstr) (k : nat) :
  k <= length ext ->
  skipn (length (stem ++ ext) - k) (stem ++ ext) = skipn (length ext - k) ext.
Proof.
  intros Hk. rewrite length_app, skipn_app.
  rewrite (skipn_all2 (n := length stem + length ext - k) stem) by lia.
  cbn [app]. f_equal. lia.
Qed.

Lemma skipn_inside (stem ext : cstr) (k : nat) :
  k <= length stem -> skipn k (stem ++ ext) = skipn k stem ++ ext.
Proof.
  intros Hk. rewrite skipn_app.
  replace (k - length stem) with 0 by lia. reflexivity.
Qed.

Lemma head_no_match (x ext stem : cstr) :
  separate x ext = true ->
  (length (stem ++ ext) <? length x) = true \/
  is_eq (nni_strcasecmp
           (skipn (length (stem ++ ext) - length x) (stem ++ ext)) x) = false.
Proof.
  unfold separate. destruct (length x <=? length ext) eqn:Hle.
  - apply Nat.leb_le in Hle. intros H. right.
    rewrite (@skipn_suffix stem ext (length x) Hle). now apply negb_true_iff in H.
  - apply Nat.leb_gt in Hle. intros H. apply negb_true_iff in H.
    destruct (length (stem ++ ext) <? length x) eqn:Hlt; [now left | right].
    apply Nat.ltb_ge in Hlt. rewrite length_app in Hlt.
    destruct (is_eq (nni_strcasecmp _ x)) eqn:Hm; [exfalso | reflexivity].
    apply is_eq_strcasecmp in Hm. unfold same_nocase in Hm.
    rewrite length_app, skipn_inside, map_app in Hm by lia.
    assert (Hcut : skipn (length x - length ext) (map tolower x)
                   = map tolower ext).
    { rewrite <- Hm. rewrite skipn_app, length_map, length_skipn.
      rewrite skipn_all2 by (rewrite length_map, length_skipn; lia).
      replace (length x - length ext
               - (length stem - (length stem + length ext - length x)))
        with 0 by lia.
      reflexivity. }
    rewrite skipn_map in Hcut.
    assert (Hs : is_eq (nni_strcasecmp (skipn (length x - length ext) x) ext)
                 = true) by (apply is_eq_strcasecmp; exact Hcut).
    congruence.
Qed.

Lemma lookup_from_found (map : list (cstr * cstr)) (ext typ stem : cstr) :
  all_separate map = true -> In (ext, typ) map ->
  Files.lookup_from map (stem ++ ext) = Some typ.
Proof.
  induction map as [|[x t] rest IH]; intros Hsep Hin; [destruct Hin|].
  cbn [all_separate] in Hsep. apply andb_true_iff in Hsep as [Hhead Hrest].
  cbn [Files.lookup_from]. unfold strlen.
  destruct Hin as [[= -> ->]|Hin].
  - rewrite length_app.
    replace (length stem + length ext <? length ext) with false
      by (symmetry; apply Nat.ltb_ge; lia).
    rewrite <- length_app, (@skipn_suffix stem ext (length ext) (le_n _)).
    rewrite Nat.sub_diag. cbn [skipn].
    replace (is_eq (nni_strcasecmp ext ext)) with true
      by (symmetry; now apply is_eq_strcasecmp).
    reflexivity.
  - rewrite forallb_forall in Hhead. specialize (Hhead _ Hin).
    cbn [fst] in Hhead.
    destruct (@head_no_match x ext stem Hhead) as [H|H]; rewrite H.
    + now apply IH.
    + destruct (_ <? _); now apply IH.
Qed.

Lemma lookup_from_caseless (map : list (cstr * cstr)) (p q : cstr) :
  same_nocase p q -> Files.lookup_from map p = Files.lookup_from map q.
Proof.
  intros H. pose proof (@same_nocase_length p q H) as Hl.
  induction map as [|[x t] rest IH]; [reflexivity|].
  cbn [Files.lookup_from]. unfold strlen, nni_strcasecmp.
  rewrite <- !skipn_map, Hl. unfold same_nocase in H. rewrite H, IH.
  reflexivity.
Qed.

Lemma lookup_from_sound (map : list (cstr * cstr)) (p typ : cstr) :
  Files.lookup_from map p = Some typ ->
  exists stem ext, In (ext, typ) map /\ same_nocase p (stem ++ ext).
Proof.
  induction map as [|[x t] rest IH]; [discriminate|].
  cbn [Files.lookup_from]. unfold strlen.
  assert (Hrest : Files.lookup_from rest p = Some typ ->
                  exists stem ext, In (ext, typ) ((x, t) :: rest) /\
                                   same_nocase p (stem ++ ext)).
  { intros H. destruct (IH H) as (stem & ext & Hin & Hs).
    exists stem, ext. split; [now right | exact Hs]. }
  destruct (length p <? length x); [exact Hrest|].
  destruct (is_eq (nni_strcasecmp (skipn (length p - length x) p) x)) eqn:Hm;
    [|exact Hrest].
  intros [= ->]. apply is_eq_strcasecmp in Hm.
  exists (firstn (length p - length x) p), x. split; [now left|].
  unfold same_nocase in *. rewrite map_app, <- Hm, <- map_app.
  now rewrite firstn_skipn.
Qed.

(** X26.  [http_lookup_type] decides by extension alone and without regard
    to case: it returns a type exactly when the path ends, up to the
    case of its letters, in an extension the table lists with that type;
    no entry of the table is shadowed by another. *)
Theorem lookup_type_rule (path typ : cstr) :
  Files.http_lookup_type path = Some typ <->
  exists stem ext,
    In (ext, typ) Files.content_map /\ same_nocase path (stem ++ ext).
Proof.
  unfold Files.http_lookup_type. split.
  - apply lookup_from_sound.
  - intros (stem & ext & Hin & Hs).
    rewrite (@lookup_from_caseless Files.content_map _ _ Hs).
    apply lookup_from_found; [vm_compute; reflexivity | exact Hin].
Qed.

Lemma frees_app (fn arg : addr) (a b : list Files.reg_event) :
  frees fn arg (a ++ b) = frees fn arg a + frees fn arg b.
Proof. unfold frees. now rewrite filter_app, length_app. Qed.

Lemma frees_self (fn arg : addr) : frees fn arg [Files.Call_free fn arg] = 1.
Proof. unfold frees. cbn [filter]. now rewrite !Nat.eqb_refl. Qed.

Lemma frees_fini (fn arg : addr) (p h m : option cstr) :
  frees fn arg (Files.http_handler_fini p h m (Some fn) arg) = 1.
Proof.
  unfold Files.http_handler_fini.
  change [Files.Strfree p; Files.Strfree h; Files.Strfree m]
    with ([Files.Strfree p; Files.Strfree h; Files.Strfree m] ++ []).
  rewrite !frees_app, frees_self. reflexivity.
Qed.

(** The allocations of [env] that the descriptor [hh] needs. *)
Lemma traced_outcome (env : Files.add_env) (hs : list http_handler)
    (hh : nni_http_handler) (arg fn : addr) :
  let r := Files.http_server_add_handler_traced env hs hh arg (Some fn) in
  fst r = http_server_add_handler
            (Files.alloc_struct env
             && match hh_host hh with
                | Some _ => Files.dup_host env
                | None => true
                end
             && Files.dup_method env && Files.dup_path env)
            hs hh arg (Some fn) /\
  frees fn arg (snd r) =
    match fst r with
    | inl NNG_EADDRINUSE => 1
    | inl NNG_ENOMEM => if Files.alloc_struct env then 1 else 0
    | _ => 0
    end.
Proof.
  unfold Files.http_server_add_handler_traced, http_server_add_handler.
  destruct (hh_method hh) as [m|], (hh_path hh) as [p|], (hh_cb hh) as [cb|];
    try (split; reflexivity).
  destruct (is_eq (strcmp m (lit "HEAD"))); [split; reflexivity|].
  destruct (Files.alloc_struct env); cbn [negb andb]; [|split; reflexivity].
  destruct (hh_host hh) as [host|].
  - destruct (Files.dup_host env); cbn [negb andb];
      [|split; [reflexivity | apply frees_fini]].
    destruct (Files.dup_method env); cbn [negb andb];
      [|split; [reflexivity | apply frees_fini]].
    destruct (Files.dup_path env); cbn [negb andb];
      [|split; [reflexivity | apply frees_fini]].
    cbv zeta. destruct (existsb _ hs);
      cbn [fst snd]; split; try reflexivity. apply frees_fini.
  - destruct (Files.dup_method env); cbn [negb andb];
      [|split; [reflexivity | apply frees_fini]].
    destruct (Files.dup_path env); cbn [negb andb];
      [|split; [reflexivity | apply frees_fini]].
    cbv zeta. destruct (existsb _ hs);
      cbn [fst snd]; split; try reflexivity. apply frees_fini.
Qed.

Lemma traced_failure (env : Files.add_env) (hs : list http_handler)
    (hh : nni_http_handler) (arg fn : addr) (e : nng_errno)
    (evs : list Files.reg_event) :
  Files.http_server_add_handler_traced env hs hh arg (Some fn) = (inl e, evs) ->
  match e with
  | NNG_EADDRINUSE => frees fn arg evs = 1
  | NNG_EINVAL => frees fn arg evs = 0
  | NNG_ENOMEM => frees fn arg evs <= 1
  | _ => False
  end.
Proof.
  intros H. destruct (traced_outcome env hs hh arg fn) as [A B].
  rewrite H in A, B. cbn [fst snd] in A, B.
  destruct e; try (rewrite B; destruct (Files.alloc_struct env); lia);
    exfalso; symmetry in A; revert A; unfold http_server_add_handler;
    destruct (hh_method hh), (hh_path hh), (hh_cb hh); try discriminate;
    destruct (is_eq _); try discriminate;
    destruct (negb _); try discriminate;
    cbv zeta; destruct (existsb _ hs); discriminate.
Qed.

Lemma traced_success (env : Files.add_env) (hs hs' : list http_handler)
    (hh : nni_http_handler) (arg fn : addr) (h : http_handler)
    (evs : list Files.reg_event) :
  Files.http_server_add_handler_traced env hs hh arg (Some fn)
    = (inr (hs', h), evs) ->
  evs = [] /\
  exists method path cb,
    valid_descriptor hh method path /\ hh_cb hh = Some cb /\
    h = with_refcnt (fresh_record hh method path cb arg (Some fn)) 1 /\
    hs' = hs ++ [h].
Proof.
  intros H. destruct (traced_outcome env hs hh arg fn) as [A _].
  rewrite H in A. cbn [fst] in A. symmetry in A.
  destruct (@add_success _ _ _ _ _ _ _ A) as (m & p & cb & Hv & Hcb & Hh & Hs & _).
  split; [|exists m, p, cb; auto].
  revert H. unfold Files.http_server_add_handler_traced.
  destruct (hh_method hh), (hh_path hh), (hh_cb hh); try discriminate.
  destruct (is_eq _); try discriminate.
  destruct (negb (Files.alloc_struct env)); try discriminate.
  destruct (match hh_host hh with
            | Some _ => negb (Files.dup_host env)
            | None => false
            end); try discriminate.
  destruct (negb (Files.dup_method env)); try discriminate.
  destruct (negb (Files.dup_path env)); try discriminate.
  cbv zeta.
  match goal with
  | |- context [existsb ?c hs] => destruct (existsb c hs)
  end; [discriminate|].
  now intros [= _ _ <-].
Qed.

(** X27.  What the two bundled registrations release.  When
    [nni_http_server_add_file] or [nni_http_server_add_static] succeeds
    the registry gains one GET handler that owns the new object, and the
    object is not released.  When it fails the registry is unchanged;
    the object is released once if the handler is refused as invalid,
    but twice - by [http_handler_fini] through [h_free] and again by the
    caller - whenever the path collides ([NNG_EADDRINUSE]). *)
Theorem bundled_add_releases (b : Files.bundled)
    (handlers : list http_handler) (host ctype uri : option cstr) (f : addr) :
  (forall env path,
     let '(rv, hs', file, evs) :=
       Files.nni_http_server_add_file b env handlers host ctype uri path f in
     let n := frees (Files.http_free_file b) f evs in
     match rv with
     | None =>
         n = 0 /\
         file = Some {| Files.f_typ := match ctype with
                                       | Some c => Some c
                                       | None => Files.http_lookup_type path
                                       end;
                        Files.f_pth := path |} /\
         exists h, hs' = handlers ++ [h] /\ h_arg h = f /\
           h_free h = Some (Files.http_free_file b) /\
           h_cb h = Files.http_handle_file b /\
           h_method h = lit "GET" /\ h_host h = host /\
           h_is_dir h = false /\ h_refcnt h = 1%Z
     | Some NNG_EADDRINUSE => n = 2 /\ hs' = handlers /\ file = None
     | Some NNG_EINVAL => n = 1 /\ hs' = handlers /\ file = None
     | Some _ => n <= 2 /\ hs' = handlers /\ file = None
     end) /\
  (forall env data,
     let '(rv, hs', obj, evs) :=
       Files.nni_http_server_add_static b env handlers host ctype uri data f in
     let n := frees (Files.http_free_static b) f evs in
     match rv with
     | None =>
         n = 0 /\
         obj = Some {| Files.s_typ := match ctype with
                                      | Some c => c
                                      | None => lit "application/octet-stream"
                                      end;
                       Files.s_data := data |} /\
         exists h, hs' = handlers ++ [h] /\ h_arg h = f /\
           h_free h = Some (Files.http_free_static b) /\
           h_cb h = Files.http_handle_static b /\
           h_method h = lit "GET" /\ h_host h = host /\
           h_is_dir h = false /\ h_refcnt h = 1%Z
     | Some NNG_EADDRINUSE => n = 2 /\ hs' = handlers /\ obj = None
     | Some NNG_EINVAL => n = 1 /\ hs' = handlers /\ obj = None
     | Some _ => n <= 2 /\ hs' = handlers /\ obj = None
     end).
Proof.
  split.
  - intros env path. unfold Files.nni_http_server_add_file.
    destruct (Files.alloc_file env); cbn [negb];
      [|cbv zeta; unfold frees; repeat split; simpl; lia].
    cbv zeta. destruct (negb (Files.dup_pth env) || _).
    { rewrite frees_self. repeat split. lia. }
    destruct (Files.http_server_add_handler_traced _ _ _ _ _)
      as [[e|[hs' h]] evs] eqn:E.
    + pose proof (@traced_failure _ _ _ _ _ _ _ E) as Hf.
      rewrite frees_app, frees_self.
      destruct e; try contradiction; repeat split; lia.
    + destruct (@traced_success _ _ _ _ _ _ _ _ E)
        as (-> & m & p & cb & Hv & Hcb & -> & ->).
      split; [reflexivity|]. split; [reflexivity|].
      eexists. split; [reflexivity|].
      destruct Hv as (Hm & _). cbn [hh_method hh_cb] in Hm, Hcb.
      injection Hm as <-. injection Hcb as <-.
      repeat split.
  - intros env data. unfold Files.nni_http_server_add_static.
    destruct (Files.alloc_static env); cbn [negb];
      [|cbv zeta; unfold frees; repeat split; simpl; lia].
    cbv zeta. destruct (negb (Files.alloc_data env) || _).
    { rewrite frees_self. repeat split. lia. }
    destruct (Files.http_server_add_handler_traced _ _ _ _ _)
      as [[e|[hs' h]] evs] eqn:E.
    + pose proof (@traced_failure _ _ _ _ _ _ _ E) as Hf.
      rewrite frees_app, frees_self.
      destruct e; try contradiction; repeat split; lia.
    + destruct (@traced_success _ _ _ _ _ _ _ _ E)
        as (-> & m & p & cb & Hv & Hcb & -> & ->).
      split; [reflexivity|]. split; [reflexivity|].
      eexists. split; [reflexivity|].
      destruct Hv as (Hm & _). cbn [hh_method hh_cb] in Hm, Hcb.
      injection Hm as <-. injection Hcb as <-.
      repeat split.
Qed.

(** X28.  A bundled registration on a taken path releases its object
    twice.  When every allocation succeeds and the registry holds a GET
    handler with a compatible host whose path and the new path (trailing
    slashes removed) agree on the length of the shorter,
    [nni_http_server_add_file] and [nni_http_server_add_static] return
    [NNG_EADDRINUSE], leave the registry alone, and call the object's
    destructor two times on the same object. *)
Theorem bundled_add_collision (b : Files.bundled)
    (handlers : list http_handler) (host ctype : option cstr) (uri : cstr)
    (f : addr) (h2 : http_handler)
    (Hin : In h2 handlers)
    (Hcoll : conflicts h2 (lit "GET") host (trim_slashes uri)) :
  (forall path, exists evs,
     Files.nni_http_server_add_file b demo_file_env handlers host ctype
       (Some uri) path f
     = (Some NNG_EADDRINUSE, handlers, None, evs) /\
     frees (Files.http_free_file b) f evs = 2) /\
  (forall data, exists evs,
     Files.nni_http_server_add_static b demo_static_env handlers host ctype
       (Some uri) data f
     = (Some NNG_EADDRINUSE, handlers, None, evs) /\
     frees (Files.http_free_static b) f evs = 2).
Proof.
  assert (Hadd : forall cb fn,
            exists evs,
              Files.http_server_add_handler_traced all_succeed handlers
                {| hh_method := Some (lit "GET"); hh_path := Some uri;
                   hh_host := host; hh_is_dir := false;
                   hh_is_upgrader := false; hh_cb := Some cb |} f (Some fn)
              = (inl NNG_EADDRINUSE, evs) /\ frees fn f evs = 1).
  { intros cb fn.
    set (hh := {| hh_method := Some (lit "GET"); hh_path := Some uri;
                  hh_host := host; hh_is_dir := false;
                  hh_is_upgrader := false; hh_cb := Some cb |}).
    destruct (traced_outcome all_succeed handlers hh f fn) as [A B].
    assert (Hv : valid_descriptor hh (lit "GET") uri).
    { repeat split; try discriminate. }
    assert (Hmem : Files.alloc_struct all_succeed
                   && match hh_host hh with
                      | Some _ => Files.dup_host all_succeed
                      | None => true
                      end
                   && Files.dup_method all_succeed
                   && Files.dup_path all_succeed = true).
    { cbn. now destruct host. }
    rewrite Hmem in A.
    assert (Hbusy : http_server_add_handler true handlers hh f (Some fn)
                    = inl NNG_EADDRINUSE).
    { apply (add_handler_eaddrinuse_iff handlers f (Some fn) Hv).
      exists h2. split; assumption. }
    rewrite Hbusy in A.
    destruct (Files.http_server_add_handler_traced all_succeed handlers hh f
                (Some fn)) as [r evs].
    cbn [fst snd] in A, B. subst r. exists evs. split; [reflexivity|exact B]. }
  split.
  - intros path. unfold Files.nni_http_server_add_file.
    cbn [demo_file_env Files.alloc_file Files.dup_pth Files.dup_typ
         Files.file_add negb orb andb].
    cbv zeta.
    replace (match match ctype with
                   | Some c => Some c
                   | None => Files.http_lookup_type path
                   end with
             | Some _ => true
             | None => false
             end && false) with false by (now rewrite andb_false_r).
    destruct (Hadd (Files.http_handle_file b) (Files.http_free_file b))
      as (evs & E & F).
    rewrite E. eexists. split; [reflexivity|].
    now rewrite frees_app, frees_self, F.
  - intros data. unfold Files.nni_http_server_add_static.
    cbn [demo_static_env Files.alloc_static Files.alloc_data Files.dup_ctype
         Files.static_add negb orb andb].
    cbv zeta.
    destruct (Hadd (Files.http_handle_static b) (Files.http_free_static b))
      as (evs & E & F).
    rewrite E. eexists. split; [reflexivity|].
    now rewrite frees_app, frees_self, F.
Qed.

Lemma bundled_add_collision_witness :
  exists evs,
    Files.nni_http_server_add_file demo_bundled demo_file_env [demo_get]
      None None (Some (lit "/x/")) (lit "index.html") 5
    = (Some NNG_EADDRINUSE, [demo_get], None, evs) /\
    frees (Files.http_free_file demo_bundled) 5 evs = 2.
Proof.
  apply (@bundled_add_collision demo_bundled [demo_get] None None
           (lit "/x/") 5 demo_get (or_introl eq_refl)).
  unfold conflicts. repeat split.
Defined.


(** ** Facts about the TLS binding *)

Section TlsFacts.
Context {codec : HttpMsg}.
Import Lifecycle.

Lemma holds_app (c : addr) (a b : list event) :
  holds c (a ++ b) = holds c a + holds c b.
Proof. unfold holds. now rewrite filter_app, length_app. Qed.

Lemma releases_app (c : addr) (a b : list event) :
  releases c (a ++ b) = releases c a + releases c b.
Proof. unfold releases. now rewrite filter_app, length_app. Qed.

Lemma set_tls_step (s : http_server) (t : option addr) (c : addr) :
  Server.starts (core s) = 0%Z ->
  let '(s', evs, rv) := nni_http_server_set_tls true s t in
  rv = None /\ core s' = core s /\ tls s' = t /\
  nni_http_server_get_tls true s' =
    match t with Some c' => inr c' | None => inl NNG_EINVAL end /\
  releases c evs + bound s' c = holds c evs + bound s c.
Proof.
  intros Hs. unfold nni_http_server_set_tls, nni_http_server_get_tls.
  rewrite Hs. cbn [Z.eqb negb set_tls core tls].
  split; [reflexivity|]. split; [reflexivity|]. split; [reflexivity|].
  split; [destruct t; reflexivity|].
  rewrite releases_app, holds_app. unfold bound. cbn [tls set_tls].
  destruct t as [c1|], (tls s) as [c0|]; unfold releases, holds;
    cbn [filter length app];
    repeat match goal with
           | |- context [?a =? c] => destruct (a =? c)
           end; cbn [length]; lia.
Qed.

Lemma fini_releases (s : http_server) (c : addr) :
  Server.conns (core s) = [] ->
  exists evs,
    http_server_fini true s = Some evs /\
    releases c evs = bound s c /\ holds c evs = 0.
Proof.
  intros Hc. unfold http_server_fini. rewrite Hc.
  eexists. split; [reflexivity|]. split.
  - rewrite !releases_app. unfold bound.
    assert (Hh : releases c (map Handler_free (Server.handlers (core s))) = 0).
    { unfold releases. induction (Server.handlers (core s)); [reflexivity|].
      cbn [map filter]. assumption. }
    rewrite Hh.
    destruct (Server.tep (core s)), (url s), (tls s) as [c0|];
      unfold releases; cbn [filter length app];
      try destruct (c0 =? c); reflexivity.
  - rewrite !holds_app.
    assert (Hh : holds c (map Handler_free (Server.handlers (core s))) = 0).
    { unfold holds. induction (Server.handlers (core s)); [reflexivity|].
      cbn [map filter]. assumption. }
    rewrite Hh.
    destruct (Server.tep (core s)), (url s), (tls s) as [c0|]; reflexivity.
Qed.

Lemma set_tls_all_balance (cfgs : list (option addr)) (c : addr) :
  forall s,
    Server.starts (core s) = 0%Z ->
    let '(s', evs) := set_tls_all true s cfgs in
    core s' = core s /\
    tls s' = last cfgs (tls s) /\
    releases c evs + bound s' c = holds c evs + bound s c.
Proof.
  induction cfgs as [|t rest IH]; intros s Hs.
  - cbn [set_tls_all last]. repeat split.
  - cbn [set_tls_all].
    pose proof (set_tls_step s t c Hs) as H1.
    destruct (nni_http_server_set_tls true s t) as [[s1 e1] rv].
    destruct H1 as (_ & Hcore & Htls & _ & Hbal).
    assert (Hs1 : Server.starts (core s1) = 0%Z) by now rewrite Hcore.
    specialize (IH s1 Hs1).
    destruct (set_tls_all true s1 rest) as [s2 e2].
    destruct IH as (Hcore2 & Htls2 & Hbal2).
    split; [congruence|]. split.
    + rewrite Htls2, Htls. destruct rest; reflexivity || idtac.
      clear. revert o. induction rest as [|x r IHr]; intros o; [reflexivity|].
      cbn [last]. destruct r; [reflexivity|]. apply (IHr x).
    + rewrite releases_app, holds_app. lia.
Qed.

(** X29.  The references to TLS configurations balance.  On a server that
    is not started, any run of [nni_http_server_set_tls] calls succeeds
    and binds the configuration given last, which [nni_http_server_get_tls]
    then returns; once the live set is empty [http_server_fini] ends the
    server, and over the run and the end together every configuration is
    released exactly as often as it was held, counting one hold for the
    configuration bound at the outset.  On a started server the call is
    refused with [NNG_EBUSY] and changes nothing. *)
Theorem tls_references_balance (s : http_server)
    (cfgs : list (option addr))
    (Hidle : Server.starts (core s) = 0%Z)
    (Hdrained : Server.conns (core s) = []) :
  (let '(s', evs) := set_tls_all true s cfgs in
   tls s' = last cfgs (tls s) /\
   nni_http_server_get_tls true s' =
     match last cfgs (tls s) with
     | Some c => inr c
     | None => inl NNG_EINVAL
     end /\
   exists evs',
     http_server_fini true s' = Some evs' /\
     forall c, releases c (evs ++ evs') = holds c (evs ++ evs') + bound s c) /\
  (forall s0 t, Server.starts (core s0) <> 0%Z ->
     nni_http_server_set_tls true s0 t = (s0, [], Some NNG_EBUSY)).
Proof.
  split.
  - pose proof (fun c => @set_tls_all_balance cfgs c s Hidle) as H.
    destruct (set_tls_all true s cfgs) as [s' evs].
    assert (H0 := H 0). destruct H0 as (Hcore & Htls & _).
    split; [exact Htls|]. split.
    { unfold nni_http_server_get_tls. rewrite Htls. reflexivity. }
    assert (Hc : Server.conns (core s') = []) by now rewrite Hcore.
    destruct (fini_releases s' 0 Hc) as (evs' & E & _).
    exists evs'. split; [exact E|]. intros c.
    destruct (fini_releases s' c Hc) as (evs2 & E2 & Hr & Hh).
    rewrite E in E2. injection E2 as <-.
    destruct (H c) as (_ & _ & Hbal).
    rewrite releases_app, holds_app. lia.
  - intros s0 t Hs. unfold nni_http_server_set_tls.
    destruct (Server.starts (core s0) =? 0)%Z eqn:E;
      [apply Z.eqb_eq in E; contradiction | reflexivity].
Qed.

End TlsFacts.

Lemma tls_references_balance_witness :
  Lifecycle.nni_http_server_set_tls true
    (fst (fst (server_start demo_start_env demo_idle))) (Some 9)
  = ((fst (fst (server_start demo_start_env demo_idle))), [], Some NNG_EBUSY).
Proof.
  apply (@tls_references_balance Plain.codec demo_idle [Some 8; None]
           eq_refl eq_refl).
  discriminate.
Defined.
